(** * sparrow: validity bitmaps, list layouts and the array factory

    A shallow embedding of the parts of the sparrow columnar array library
    that its specification makes claims about:

    - [Bitset]: [dynamic_bitset<std::uint8_t>] (alias [validity_bitmap]) and
      the four [ensure_validity_bitmap] overloads, the dynamic bitset header
      in [include/sparrow/any_data_utils.hpp];
    - [Memory] and [ListArray]: the list layouts ([list_array_impl],
      [fixed_sized_list_array]), the list array header in [unnamed/part_000],
      over a store of byte buffers, so that raw pointers and deep copies can
      be told apart;
    - [Factory]: [array_factory] of [src_v01/array_factory.cpp], which
      builds a list layout over the child that it makes itself;
    - [FixedSizeLayout]: [fixed_size_layout<T>], the fixed size layout
      header in [include/sparrow/any_data_utils.hpp].

    Machine integers are [Z] with the wrap-around written out, byte buffers
    are [list Z] with every element in [0, 256), C++ exceptions and failed
    assertions are the [Err] results of a small error monad. *)

From Stdlib Require Import ZArith Lia List Bool Ascii String.
From stdpp Require Import base option list gmap.

Import ListNotations.

#[local] Open Scope Z_scope.

(** ** Results of fallible code *)

Inductive result (E A : Type) : Type :=
| Ok (a : A)
| Err (e : E).

Arguments Ok {E A} a.
Arguments Err {E A} e.

#[global] Instance result_ret {E} : MRet (result E) := fun A a => Ok a.

#[global] Instance result_bind {E} : MBind (result E) := fun A B k r =>
  match r with
  | Ok a => k a
  | Err e => Err e
  end.

Definition is_Ok {E A} (r : result E A) : Prop :=
  match r with Ok _ => True | Err _ => False end.

(** ** The schema/array descriptor pair

    [arrow_proxy] as the layouts use it: the format string, the logical
    length, null count and offset, the buffers and the child proxies.  A
    buffer is named by the address of its storage in a [store] (see
    [Memory]); two proxies alias exactly when they name the same address. *)

Definition addr := nat.

Module Arrow.

#[local] Unset Elimination Schemes.

Inductive arrow_proxy : Type :=
  ArrowProxy (format : string) (length null_count offset : Z)
             (buffers : list addr) (children : list arrow_proxy).

Definition format (p : arrow_proxy) : string :=
  match p with ArrowProxy f _ _ _ _ _ => f end.
Definition length (p : arrow_proxy) : Z :=
  match p with ArrowProxy _ n _ _ _ _ => n end.
Definition null_count (p : arrow_proxy) : Z :=
  match p with ArrowProxy _ _ n _ _ _ => n end.
Definition offset (p : arrow_proxy) : Z :=
  match p with ArrowProxy _ _ _ o _ _ => o end.
Definition buffers (p : arrow_proxy) : list addr :=
  match p with ArrowProxy _ _ _ _ b _ => b end.
Definition children (p : arrow_proxy) : list arrow_proxy :=
  match p with ArrowProxy _ _ _ _ _ c => c end.

(** Induction over a proxy and, through [Forall], over its children. *)
Section Induction.

Variable P : arrow_proxy -> Prop.

Hypothesis step : forall format length null_count offset buffers children,
  Forall P children ->
  P (ArrowProxy format length null_count offset buffers children).

Fixpoint arrow_proxy_ind (p : arrow_proxy) : P p :=
  match p with
  | ArrowProxy f n c o b cs =>
      step f n c o b cs
        ((fix children_ind (l : list arrow_proxy) : Forall P l :=
            match l with
            | [] => List.Forall_nil P
            | x :: l' => List.Forall_cons P x l' (arrow_proxy_ind x) (children_ind l')
            end) cs)
  end.

End Induction.

(** Every buffer address of a proxy and of its descendants. *)
Fixpoint proxy_addrs (p : arrow_proxy) : list addr :=
  match p with
  | ArrowProxy _ _ _ _ b cs => b ++ concat (map proxy_addrs cs)
  end.

(** A leaf proxy that carries nothing but a format string. *)
Definition proxy_with_format (f : string) : arrow_proxy :=
  ArrowProxy f 0 0 0 [] [].

End Arrow.

Abbreviation arrow_proxy := Arrow.arrow_proxy.

(** ** The validity bitmap (include/sparrow/any_data_utils.hpp)

    [validity_bitmap] is [dynamic_bitset<std::uint8_t>]: the storage is a
    buffer of 8-bit blocks, bit [pos] lives in block [pos / 8] at position
    [pos mod 8], and the number of unset bits is cached in [m_null_count]. *)

Module Bitset.

Record dynamic_bitset : Type := mk_bitset {
  m_buffer : list Z;
  m_size : Z;
  m_null_count : Z
}.

Abbreviation validity_bitmap := dynamic_bitset.

(** A failed [SPARROW_ASSERT], and a block access past the storage. *)
Inductive bitset_error : Type := AssertionFailed | OutOfStorage.

Definition s_bits_per_block : Z := 8.

(** [dynamic_bitset_base] (dynamic_bitset_base.hpp), the base class, is not
    among the sources.  Its members that the code under study calls are
    modelled from what the specification says of the validity bitmap: one
    bit per element packed into fixed-width blocks, [size()], [test(i)],
    [set(i, bool)], [resize(n, fill)] and a cached [null_count()]. *)

(** Modelled from the spec: [dynamic_bitset_base::compute_block_count], the
    number of blocks that hold [bits_count] bits. *)
Definition compute_block_count (bits_count : Z) : Z :=
  bits_count / s_bits_per_block
  + (if bits_count mod s_bits_per_block =? 0 then 0 else 1).

(** Modelled from the spec: [dynamic_bitset_base::block_index], the block
    that holds bit [pos]. *)
Definition block_index (pos : Z) : Z := pos / s_bits_per_block.

(** Modelled from the spec: [dynamic_bitset_base::bit_index], the position
    of bit [pos] in its block. *)
Definition bit_index (pos : Z) : Z := pos mod s_bits_per_block.

(** Modelled from the spec: [dynamic_bitset_base::bit_mask], the block with
    only the bit of [pos] set. *)
Definition bit_mask (pos : Z) : Z := Z.shiftl 1 (bit_index pos).

(** Modelled from the spec: [dynamic_bitset_base::size]. *)
Definition size (b : dynamic_bitset) : Z := m_size b.

(** Modelled from the spec: [dynamic_bitset_base::null_count], the cached
    count, read in constant time. *)
Definition null_count (b : dynamic_bitset) : Z := m_null_count b.

Definition block_at (b : dynamic_bitset) (k : Z) : option Z :=
  m_buffer b !! Z.to_nat k.

(** Modelled from the spec: [dynamic_bitset_base::test], under the
    assertion that [pos] is below the size. *)
Definition test (b : dynamic_bitset) (pos : Z) : result bitset_error bool :=
  if (0 <=? pos) && (pos <? size b) then
    match block_at b (block_index pos) with
    | Some block => Ok (negb (Z.land block (bit_mask pos) =? 0))
    | None => Err OutOfStorage
    end
  else Err AssertionFailed.

(** Modelled from the spec: [dynamic_bitset_base::update_null_count], the
    cached count adjusted by the delta of one bit. *)
Definition update_null_count (old_value new_value : bool) (count : Z) : Z :=
  if new_value && negb old_value then count - 1
  else if negb new_value && old_value then count + 1
  else count.

(** Modelled from the spec: [dynamic_bitset_base::set], "adjusts cached
    null_count by the delta", under the assertion that [pos] is below the
    size. *)
Definition set (b : dynamic_bitset) (pos : Z) (value : bool)
  : result bitset_error dynamic_bitset :=
  if (0 <=? pos) && (pos <? size b) then
    match block_at b (block_index pos) with
    | Some block =>
        let old_value := negb (Z.land block (bit_mask pos) =? 0) in
        let block' := if value then Z.lor block (bit_mask pos)
                      else Z.land block (Z.lnot (bit_mask pos)) in
        Ok {| m_buffer := <[Z.to_nat (block_index pos) := block']> (m_buffer b);
              m_size := m_size b;
              m_null_count := update_null_count old_value value (m_null_count b) |}
    | None => Err OutOfStorage
    end
  else Err AssertionFailed.

(** The logical content: the bits at positions [0 .. size). *)
Definition bit_of (buffer : list Z) (pos : Z) : bool :=
  match buffer !! Z.to_nat (block_index pos) with
  | Some block => negb (Z.land block (bit_mask pos) =? 0)
  | None => false
  end.

Definition bits (b : dynamic_bitset) : list bool :=
  map (fun i => bit_of (m_buffer b) (Z.of_nat i)) (seq 0 (Z.to_nat (size b))).

Fixpoint count_of (v : bool) (bs : list bool) : Z :=
  match bs with
  | [] => 0
  | x :: bs' => (if Bool.eqb x v then 1 else 0) + count_of v bs'
  end.

(** Modelled from the spec: [dynamic_bitset_base::count_non_null], the
    number of set bits among the [size] bits. *)
Definition count_non_null (b : dynamic_bitset) : Z := count_of true (bits b).

(** Modelled from the spec: [dynamic_bitset_base::resize], "resize(n,
    fill)".  The storage is resized to the new block count, new blocks
    filled with [value]; when the bitmap grows, the bits of the old last
    block beyond the old size take [value] too; the null count is
    recomputed. *)
Definition resize (b : dynamic_bitset) (n : Z) (value : bool) : dynamic_bitset :=
  let block_value := if value then 255 else 0 in
  let grown := list.resize (Z.to_nat (compute_block_count n)) block_value (m_buffer b) in
  let extra_bits := bit_index (m_size b) in
  let high := Z.land (Z.shiftl 255 extra_bits) 255 in
  let patched :=
    if (m_size b <? n) && (0 <? extra_bits) then
      alter (fun block => if value then Z.lor block high
                          else Z.land block (Z.lnot high))
            (Z.to_nat (block_index (m_size b))) grown
    else grown in
  let b' := {| m_buffer := patched; m_size := n; m_null_count := 0 |} in
  {| m_buffer := patched; m_size := n; m_null_count := n - count_non_null b' |}.

(** [dynamic_bitset()]: the default constructor. *)
Definition empty : dynamic_bitset :=
  {| m_buffer := []; m_size := 0; m_null_count := 0 |}.

(** [dynamic_bitset(size_type n, value_type value)]. *)
Definition make (n : Z) (value : bool) : dynamic_bitset :=
  {| m_buffer := replicate (Z.to_nat (compute_block_count n))
                           (if value then 255 else 0);
     m_size := n;
     m_null_count := if value then 0 else n |}.

(** [explicit dynamic_bitset(size_type n)]: [dynamic_bitset(n, false)]. *)
Definition make_unset (n : Z) : dynamic_bitset := make n false.

(** The loop shared by the range constructor and by the range overloads of
    [ensure_validity_bitmap]: [i] counts the elements, and an element for
    which [is_null] holds clears bit [i]. *)
Fixpoint clear_nulls {A} (is_null : A -> bool) (r : list A) (i : Z)
    (b : dynamic_bitset) : result bitset_error dynamic_bitset :=
  match r with
  | [] => Ok b
  | value :: r' =>
      b' ← (if is_null value then set b i false else Ok b);
      clear_nulls is_null r' (i + 1) b'
  end.

(** [explicit dynamic_bitset(const R& r)] for a range convertible to bool. *)
Definition of_range (r : list bool) : result bitset_error dynamic_bitset :=
  clear_nulls negb r 0 (make (Z.of_nat (List.length r)) true).

(** [ensure_validity_bitmap(std::size_t, const validity_bitmap&)]. *)
Definition ensure_validity_bitmap (size_ : Z) (bitmap : validity_bitmap)
  : validity_bitmap :=
  if size bitmap =? 0 then make size_ true else bitmap.

(** [ensure_validity_bitmap(std::size_t, validity_bitmap&&)]; the lines
    written to [std::cout] are not part of the result. *)
Definition ensure_validity_bitmap_rvalue (size_ : Z) (bitmap : validity_bitmap)
  : validity_bitmap :=
  let bitmap := if size bitmap =? 0 then resize bitmap size_ true else bitmap in
  bitmap.

(** [ensure_validity_bitmap(std::size_t, R&&)] for a range of [bool]. *)
Definition ensure_validity_bitmap_bools (size_ : Z) (range : list bool)
  : result bitset_error validity_bitmap :=
  let n := Z.of_nat (List.length range) in
  if (size_ =? n) || (n =? 0) then
    clear_nulls negb range 0 (make size_ true)
  else Err AssertionFailed.

(** [ensure_validity_bitmap(std::size_t, R&&)] for a range of unsigned
    integers other than [bool]: a zero marks a null. *)
Definition ensure_validity_bitmap_indices (size_ : Z) (range_of_indices : list Z)
  : result bitset_error validity_bitmap :=
  clear_nulls (fun value => value =? 0) range_of_indices 0 (make size_ true).



(** The bits that [clear_nulls] leaves, on the logical content. *)
Fixpoint cleared {A} (is_null : A -> bool) (r : list A) (i : nat)
    (old : list bool) : list bool :=
  match r with
  | [] => old
  | value :: r' =>
      cleared is_null r' (S i) (if is_null value then <[i := false]> old else old)
  end.

(** Replaying a list of [set(i, v)] calls. *)
Fixpoint set_all (calls : list (Z * bool)) (b : dynamic_bitset)
  : result bitset_error dynamic_bitset :=
  match calls with
  | [] => Ok b
  | (i, v) :: calls' => b' ← set b i v; set_all calls' b'
  end.

(** What a bitmap is expected to satisfy: the storage has exactly the blocks
    that [size] bits need, and the cached count is the number of unset bits. *)
Definition popcount (b : dynamic_bitset) : Z := count_non_null b.

Record wf (b : dynamic_bitset) : Prop := {
  wf_size : 0 <= m_size b;
  wf_storage : Z.of_nat (List.length (m_buffer b)) = compute_block_count (m_size b);
  wf_null_count : null_count b = size b - popcount b
}.

End Bitset.

(** ** Buffers in memory

    The storage of every buffer lives in a [store], a finite map from
    addresses to byte sequences.  A raw pointer is a buffer address and a
    byte position in it; a typed read through a [reinterpret_cast] pointer
    assembles [width] bytes, least significant first. *)

Module Memory.

Abbreviation store := (gmap addr (list Z)).

Record pointer : Type := mk_pointer {
  ptr_base : addr;
  ptr_byte : Z
}.

Definition contents (h : store) (a : addr) : list Z := default [] (h !! a).

Definition load_byte (h : store) (a : addr) (pos : Z) : option Z :=
  if 0 <=? pos then contents h a !! Z.to_nat pos else None.

Fixpoint load_le (h : store) (a : addr) (pos : Z) (width : nat) : option Z :=
  match width with
  | O => Some 0
  | S width' =>
      low ← load_byte h a pos;
      high ← load_le h a (pos + 1) width';
      Some (low + 256 * high)
  end.

(** [p[i]] for a pointer to unsigned integers of [width] bytes. *)
Definition load_at (h : store) (p : pointer) (width : nat) (i : Z) : option Z :=
  load_le h (ptr_base p) (ptr_byte p + i * Z.of_nat width) width.

(** Writing one byte of a buffer in place. *)
Definition store_byte (h : store) (a : addr) (pos : nat) (byte : Z) : store :=
  alter (fun buffer => <[pos := byte]> buffer) a h.

(** A sequence of such writes, each an address, a position and a byte. *)
Definition store_bytes (writes : list (addr * nat * Z)) (h : store) : store :=
  fold_left (fun h w => store_byte h w.1.1 w.1.2 w.2) writes h.

(** The bytes of an unsigned integer, least significant first. *)
Fixpoint encode_le (width : nat) (x : Z) : list Z :=
  match width with
  | O => []
  | S width' => x mod 256 :: encode_le width' (x / 256)
  end.

Fixpoint decode_le (bytes : list Z) : Z :=
  match bytes with
  | [] => 0
  | low :: bytes' => low + 256 * decode_le bytes'
  end.

Definition encode_all (width : nat) (xs : list Z) : list Z :=
  concat (map (encode_le width) xs).

(** Allocating a buffer at an address that the store does not use yet. *)
Definition allocate (h : store) (bytes : list Z) : addr * store :=
  let a := fresh (dom h) in (a, <[a := bytes]> h).

(** Modelled from the spec: the copy of the buffers of an [arrow_proxy]
    (arrow_array_schema_proxy.hpp, not among the sources), each into newly
    allocated storage: "no layout aliases another's buffers". *)
Fixpoint copy_buffers (buffers : list addr) (h : store) : list addr * store :=
  match buffers with
  | [] => ([], h)
  | a :: buffers' =>
      let '(a', h1) := allocate h (contents h a) in
      let '(copies, h2) := copy_buffers buffers' h1 in
      (a' :: copies, h2)
  end.

(** Modelled from the spec: the copy constructor of [arrow_proxy]
    (arrow_array_schema_proxy.hpp, not among the sources).  "Copying a
    Layout deep-copies the Proxy (and recursively its children)". *)
Fixpoint copy_proxy (p : arrow_proxy) (h : store) : arrow_proxy * store :=
  match p with
  | Arrow.ArrowProxy f n c o buffers children =>
      let '(buffers', h1) := copy_buffers buffers h in
      let '(children', h2) :=
        (fix copy_children (l : list arrow_proxy) (h : store) :=
           match l with
           | [] => ([], h)
           | x :: l' =>
               let '(x', h') := copy_proxy x h in
               let '(l'', h'') := copy_children l' h' in
               (x' :: l'', h'')
           end) children h1 in
      (Arrow.ArrowProxy f n c o buffers' children', h2)
  end.

(** Modelled from the spec: the deep copy of the children of a proxy, the
    inner loop of [copy_proxy]. *)
Definition copy_children : list arrow_proxy -> store -> list arrow_proxy * store :=
  fix copy_children (l : list arrow_proxy) (h : store) :=
    match l with
    | [] => ([], h)
    | x :: l' =>
        let '(x', h') := copy_proxy x h in
        let '(l'', h'') := copy_children l' h' in
        (x' :: l'', h'')
    end.

(** What a copy is to the store it was made in: every address is new, and
    what was there before is still there. *)
Definition fresh_in (h h' : store) (addrs : list addr) : Prop :=
  Forall (fun a => (a ∉ dom h) /\ (a ∈ dom h')) addrs.

(** Everything that can be read through a proxy: the bytes of its buffers
    and of the buffers of its descendants. *)
Definition snapshot_of (h : store) (p : arrow_proxy) : list (list Z) :=
  map (contents h) (Arrow.proxy_addrs p).

(** The deep copy of [p] in any store: the store only grows, the copy lives
    at new addresses, has the shape of [p] and reads what [p] reads. *)
Definition copies_well (p : arrow_proxy) : Prop :=
  forall (h : store) (p' : arrow_proxy) (h' : store),
    copy_proxy p h = (p', h') ->
    (h ⊆ h') /\ fresh_in h h' (Arrow.proxy_addrs p')
    /\ Arrow.format p' = Arrow.format p
    /\ Arrow.length p' = Arrow.length p
    /\ Arrow.offset p' = Arrow.offset p
    /\ List.length (Arrow.buffers p') = List.length (Arrow.buffers p)
    /\ List.length (Arrow.children p') = List.length (Arrow.children p)
    /\ (Forall (fun a => a ∈ dom h) (Arrow.proxy_addrs p) ->
        snapshot_of h' p' = snapshot_of h p).

End Memory.
(** ** The list layouts (unnamed/part_000) *)

Module ListArray.
Import Memory.

(** A failed [SPARROW_ASSERT], an access past a vector or a buffer, the two
    exceptions of [std::stoull], and a failure of the array factory. *)
Inductive layout_error : Type :=
| AssertionFailed
| BadIndex
| invalid_argument
| out_of_range
| FactoryFailed.

(** *** Offsets from sizes *)

(** [sizeof(offset_type)]: [std::uint64_t] when [BIG], else [std::uint32_t]. *)
Definition offset_width (BIG : bool) : nat := if BIG then 8%nat else 4%nat.

(** Modelled from the spec: [detail::offset_buffer_from_sizes<OFFSET_TYPE>]
    (layout_utils.hpp) is not among the sources.  "Building offsets from a
    sequence of per-element sizes is a prefix sum: offsets[0]=0;
    offsets[k+1]=offsets[k]+sizes[k]".  The helper is instantiated at the
    offset type and fills a buffer of it: every offset is an unsigned
    integer of [width] bytes, in which a sum wraps around. *)
Fixpoint offsets_from (width : nat) (first : Z) (sizes : list Z) : list Z :=
  match sizes with
  | [] => [first]
  | size :: sizes' =>
      first :: offsets_from width ((first + size) mod 256 ^ Z.of_nat width) sizes'
  end.

(** Modelled from the spec: [detail::offset_buffer_from_sizes<OFFSET_TYPE>]
    (layout_utils.hpp, not among the sources), the offsets from 0, in an
    offset type of [width] bytes. *)
Definition offset_buffer_from_sizes (width : nat) (sizes : list Z) : list Z :=
  offsets_from width 0 sizes.

(** [list_array_impl<BIG>::offset_from_sizes]: forwards to the helper at
    the offset type of the layout, and returns its
    [u8_buffer<std::uint32_t>], [u8_buffer<std::uint64_t>] when [BIG]. *)
Definition offset_from_sizes (BIG : bool) (sizes : list Z) : list Z :=
  offset_buffer_from_sizes (offset_width BIG) sizes.

(** The prefix sums over the integers, which the offsets are as long as no
    sum wraps. *)
Fixpoint prefix_sums (first : Z) (sizes : list Z) : list Z :=
  match sizes with
  | [] => [first]
  | size :: sizes' => first :: prefix_sums (first + size) sizes'
  end.

(** *** Parsing the list size of a fixed-size list *)

(** [std::stoull(str)] of the C++ standard library, base 10: white space is
    skipped, then an optional sign, then the longest run of decimal digits;
    no digit is [std::invalid_argument], a value above [2^64 - 1] is
    [std::out_of_range], a minus sign negates in the unsigned type, and
    whatever follows the digits is left unread. *)
Definition isspace (c : ascii) : bool :=
  let n := Z.of_nat (nat_of_ascii c) in (n =? 32) || ((9 <=? n) && (n <=? 13)).

Definition digit_of (c : ascii) : option Z :=
  let n := Z.of_nat (nat_of_ascii c) in
  if (48 <=? n) && (n <=? 57) then Some (n - 48) else None.

Fixpoint skip_spaces (s : string) : string :=
  match s with
  | String c s' => if isspace c then skip_spaces s' else s
  | EmptyString => s
  end.

Definition skip_sign (s : string) : bool * string :=
  match s with
  | String "-"%char s' => (true, s')
  | String "+"%char s' => (false, s')
  | _ => (false, s)
  end.

(** The digits read so far are in [acc]; [None] when there is none at all. *)
Fixpoint read_digits (s : string) (acc : option Z) : option Z :=
  match s with
  | String c s' =>
      match digit_of c with
      | Some d => read_digits s' (Some (10 * default 0 acc + d))
      | None => acc
      end
  | EmptyString => acc
  end.

Definition stoull (str : string) : result layout_error Z :=
  let '(negative, digits) := skip_sign (skip_spaces str) in
  match read_digits digits None with
  | None => Err invalid_argument
  | Some v =>
      if v <? 2 ^ 64 then Ok (if negative then (- v) mod 2 ^ 64 else v)
      else Err out_of_range
  end.

(** [fixed_sized_list_array::list_size_from_format]. *)
Definition list_size_from_format (format : string) : result layout_error Z :=
  if (3 <=? String.length format)%nat then
    let n_digits := (String.length format - 3)%nat in
    let list_size_str := String.substring 3 n_digits format in
    stoull list_size_str
  else Err AssertionFailed.

(** The suffix of a format after its three-character tag. *)
Definition format_suffix (format : string) : string :=
  String.substring 3 (String.length format - 3) format.

Definition is_digit (c : ascii) : bool :=
  match digit_of c with Some _ => true | None => false end.

(** What the specification calls a valid non-negative integer: one decimal
    digit or more, and nothing else. *)
Fixpoint all_digits (s : string) : bool :=
  match s with
  | String c s' => is_digit c && all_digits s'
  | EmptyString => true
  end.

Definition valid_list_size (s : string) : bool :=
  negb (String.eqb s "") && all_digits s.

(** A suffix that starts, after white space and an optional sign, with a
    decimal digit. *)
Definition has_leading_number (s : string) : bool :=
  match (skip_sign (skip_spaces s)).2 with
  | String c _ => is_digit c
  | EmptyString => false
  end.

Definition starts_with_digit (s : string) : bool :=
  match s with
  | String c _ => is_digit c
  | EmptyString => false
  end.

(** *** The layouts *)

Section Layouts.

(** The factory of [sparrow/array_factory.hpp] and the [array_wrapper] it
    returns are not among the sources: the layouts are parameterised by
    them.  [None] stands for an exception thrown by the factory. *)
Context {array_wrapper : Type}.
Variable array_factory : arrow_proxy -> option array_wrapper.

(** [list_value{flat, begin, end}]: the elements [begin .. end) of the flat
    child layout. *)
Record list_value : Type := mk_list_value {
  lv_flat_array : array_wrapper;
  lv_begin : Z;
  lv_end : Z
}.

(** [list_array_crtp_base::make_flat_array]. *)
Definition make_flat_array (proxy : arrow_proxy)
  : result layout_error array_wrapper :=
  match Arrow.children proxy with
  | child :: _ =>
      match array_factory child with
      | Some flat => Ok flat
      | None => Err FactoryFailed
      end
  | [] => Err BadIndex
  end.

(** [list_array_impl<BIG>]: the proxy held by the base class, the flat child
    layout and the raw pointer to the offsets. *)
Record list_array_impl : Type := mk_list_array {
  BIG : bool;
  m_proxy : arrow_proxy;
  p_flat_array : array_wrapper;
  p_list_offsets : pointer
}.

Definition OFFSET_BUFFER_INDEX : nat := 1.

(** [list_array_impl::make_list_offsets]: the address of buffer 1 advanced
    by the offset of the proxy, then cast to a pointer to offsets. *)
Definition make_list_offsets (proxy : arrow_proxy) : result layout_error pointer :=
  match Arrow.buffers proxy !! OFFSET_BUFFER_INDEX with
  | Some a => Ok (mk_pointer a (Arrow.offset proxy))
  | None => Err BadIndex
  end.

(** [explicit list_array_impl(arrow_proxy proxy)]. *)
Definition list_array_of_proxy (big : bool) (proxy : arrow_proxy)
  : result layout_error list_array_impl :=
  flat ← make_flat_array proxy;
  offsets ← make_list_offsets proxy;
  Ok (mk_list_array big proxy flat offsets).

(** [list_array_impl(const self_type& rhs)]: the base class copies the
    proxy and makes the flat child from the copy, then the offsets pointer
    is made from the copy too. *)
Definition copy_list_array (rhs : list_array_impl) (h : store)
  : result layout_error (list_array_impl * store) :=
  let '(proxy, h') := copy_proxy (m_proxy rhs) h in
  flat ← make_flat_array proxy;
  offsets ← make_list_offsets proxy;
  Ok (mk_list_array (BIG rhs) proxy flat offsets, h').

Definition size (a : list_array_impl) : Z := Arrow.length (m_proxy a).

(** [list_array_impl::offset_range]. *)
Definition offset_range (h : store) (a : list_array_impl) (i : Z)
  : result layout_error (Z * Z) :=
  match load_at h (p_list_offsets a) (offset_width (BIG a)) i,
        load_at h (p_list_offsets a) (offset_width (BIG a)) (i + 1) with
  | Some first, Some second => Ok (first, second)
  | _, _ => Err BadIndex
  end.

(** [list_array_crtp_base::value]; the casts are to [std::size_t]. *)
Definition value (h : store) (a : list_array_impl) (i : Z)
  : result layout_error list_value :=
  r ← offset_range h a i;
  Ok (mk_list_value (p_flat_array a) (r.1 mod 2 ^ 64) (r.2 mod 2 ^ 64)).

(** Modelled from the spec: [array_bitmap_base] (array_bitmap_base.hpp) is
    not among the sources.  "Validity access via the bitmap buffer at index
    0 honoring offset". *)
Definition has_value (h : store) (a : list_array_impl) (i : Z)
  : result layout_error bool :=
  match Arrow.buffers (m_proxy a) !! 0%nat with
  | Some bitmap =>
      Ok (Bitset.bit_of (contents h bitmap) (i + Arrow.offset (m_proxy a)))
  | None => Err BadIndex
  end.

(** [fixed_sized_list_array]. *)
Record fixed_sized_list_array : Type := mk_fixed_sized_list_array {
  fs_proxy : arrow_proxy;
  fs_flat_array : array_wrapper;
  m_list_size : Z
}.

(** [explicit fixed_sized_list_array(arrow_proxy proxy)]. *)
Definition fixed_sized_list_array_of_proxy (proxy : arrow_proxy)
  : result layout_error fixed_sized_list_array :=
  flat ← make_flat_array proxy;
  list_size ← list_size_from_format (Arrow.format proxy);
  Ok (mk_fixed_sized_list_array proxy flat list_size).

(** [fixed_sized_list_array::offset_range]; the product and the sum are
    computed in [std::uint64_t]. *)
Definition fixed_sized_offset_range (a : fixed_sized_list_array) (i : Z) : Z * Z :=
  let offset := (i * m_list_size a) mod 2 ^ 64 in
  (offset, (offset + m_list_size a) mod 2 ^ 64).

(** [list_array_crtp_base::value] on a fixed-size list array. *)
Definition fixed_sized_value (a : fixed_sized_list_array) (i : Z) : list_value :=
  let r := fixed_sized_offset_range a i in
  mk_list_value (fs_flat_array a) (r.1 mod 2 ^ 64) (r.2 mod 2 ^ 64).

End Layouts.

(** *** What a list array reaches

    [get_arrow_proxy] is [array_wrapper::get_arrow_proxy()], the proxy that
    a wrapper holds.  A list array reaches the buffers of its own proxy
    and, through its flat child layout, the buffers of the proxy of that
    layout; what is observed through the array is read from them. *)
Definition reached {array_wrapper : Type}
    (get_arrow_proxy : array_wrapper -> arrow_proxy)
    (a : @list_array_impl array_wrapper) : list addr :=
  Arrow.proxy_addrs (m_proxy a)
  ++ Arrow.proxy_addrs (get_arrow_proxy (p_flat_array a)).

Definition observed {array_wrapper : Type}
    (get_arrow_proxy : array_wrapper -> arrow_proxy) (h : store)
    (a : @list_array_impl array_wrapper) : list (list Z) :=
  map (contents h) (reached get_arrow_proxy a).

(** *** Building the proxy of a layout *)

(** What the [create_proxy] functions can fail with: an assertion while the
    validity is normalised, the division by a list size of zero, and an
    assertion of [create_proxy] itself. *)
Inductive create_error : Type :=
| ValidityFailed (e : Bitset.bitset_error)
| DivisionByZero
| CreateAssertionFailed.

(** The [validity_bitmap_input] concept: a bitmap, moved or by reference, a
    range of booleans, or a range of unsigned markers. *)
Inductive validity_input : Type :=
| moved_bitmap (bitmap : Bitset.validity_bitmap)
| const_bitmap (bitmap : Bitset.validity_bitmap)
| range_of_bools (range : list bool)
| range_of_indices (range : list Z).

(** The overload of [ensure_validity_bitmap] that the input selects. *)
Definition ensure_validity (size : Z) (input : validity_input)
  : result create_error Bitset.validity_bitmap :=
  match input with
  | moved_bitmap bitmap => Ok (Bitset.ensure_validity_bitmap_rvalue size bitmap)
  | const_bitmap bitmap => Ok (Bitset.ensure_validity_bitmap size bitmap)
  | range_of_bools range =>
      match Bitset.ensure_validity_bitmap_bools size range with
      | Ok bitmap => Ok bitmap
      | Err e => Err (ValidityFailed e)
      end
  | range_of_indices range =>
      match Bitset.ensure_validity_bitmap_indices size range with
      | Ok bitmap => Ok bitmap
      | Err e => Err (ValidityFailed e)
      end
  end.

(** [static_cast<std::int64_t>] of a [std::size_t]. *)
Definition to_int64 (x : Z) : Z := (x + 2 ^ 63) mod 2 ^ 64 - 2 ^ 63.

(** [list_array_impl<BIG>::create_proxy].  The flat values come as the proxy
    that [extract_arrow_structures] takes out of them and that becomes
    child 0; the storage of the bitmap and of the offsets become buffers 0
    and 1, in newly allocated memory. *)
Definition list_create_proxy (big : bool) (flat_values : arrow_proxy)
    (list_offsets : list Z) (input : validity_input) (h : store)
  : result create_error (arrow_proxy * store) :=
  let size := (Z.of_nat (List.length list_offsets) - 1) mod 2 ^ 64 in
  vbitmap ← ensure_validity size input;
  let null_count := Bitset.null_count vbitmap in
  let '(validity, h1) := allocate h (Bitset.m_buffer vbitmap) in
  let '(offsets, h2) := allocate h1 (encode_all (offset_width big) list_offsets) in
  Ok (Arrow.ArrowProxy (if big then "+L" else "+l")
        (to_int64 size) (to_int64 null_count) 0
        [validity; offsets] [flat_values], h2).

(** [std::to_string] of an unsigned integer: its decimal digits.  An
    unsigned 64-bit integer has at most twenty. *)
Definition digit_char (d : Z) : ascii := ascii_of_nat (Z.to_nat (48 + d)).

Fixpoint to_digits (fuel : nat) (n : Z) (rest : string) : string :=
  match fuel with
  | O => rest
  | S fuel' =>
      let rest' := String (digit_char (n mod 10)) rest in
      if n / 10 =? 0 then rest' else to_digits fuel' (n / 10) rest'
  end.

Definition to_string (n : Z) : string := to_digits 20 n "".

(** [fixed_sized_list_array::create_proxy]; [flat_values.size()] is the
    length of the proxy of the flat values. *)
Definition fixed_sized_create_proxy (list_size : Z) (flat_values : arrow_proxy)
    (input : validity_input) (h : store)
  : result create_error (arrow_proxy * store) :=
  if list_size mod 2 ^ 64 =? 0 then Err DivisionByZero
  else
    let size := (Arrow.length flat_values mod 2 ^ 64) / (list_size mod 2 ^ 64) in
    vbitmap ← ensure_validity size input;
    let null_count := Bitset.null_count vbitmap in
    let format := ("+w:" ++ to_string list_size)%string in
    let '(validity, h1) := allocate h (Bitset.m_buffer vbitmap) in
    Ok (Arrow.ArrowProxy format (to_int64 size) (to_int64 null_count) 0
          [validity] [flat_values], h1).

End ListArray.

(** ** The array factory (src_v01/array_factory.cpp) *)

Module Factory.
Import Memory ListArray.

(** The element types [primitive_array<T>] is instantiated at. *)
Inductive primitive_type : Type :=
| bool_t | int8_t | uint8_t | int16_t | uint16_t | int32_t | uint32_t
| int64_t | uint64_t | float_t | double_t.

(** The handle [std::unique_ptr<array_base>]: the concrete layout class
    that [std::make_unique] instantiates over the proxy moved into it.
    [list_array] is [list_array_impl<false>] and [big_list_array] is
    [list_array_impl<true>]; a list layout holds its proxy, the flat child
    layout, itself a handle of the factory, and the offsets pointer. *)
#[warnings="-register-all"] Inductive array_base : Type :=
| null_array (proxy : arrow_proxy)
| primitive_array (T : primitive_type) (proxy : arrow_proxy)
| list_array (layout : @list_array_impl array_base)
| big_list_array (layout : @list_array_impl array_base).

(** [throw std::runtime_error("Unsupported format")], and what the
    constructor of a list layout fails with. *)
Inductive factory_error : Type :=
| UnsupportedFormat
| LayoutFailed (e : layout_error).

(** Modelled from the spec: the constructor of the list layouts of this
    factory (sparrow_v01/layout/list_array.hpp), which
    [std::make_unique<list_array>] and [std::make_unique<big_list_array>]
    run, is not among the sources.  A list layout "owns one child Layout
    (the flattened values, obtained via the Factory from the child
    descriptor) plus an offsets buffer"; the constructor of the list layout
    in unnamed/part_000 does so by [make_flat_array], which hands child 0
    to the factory, and by [make_list_offsets], and these are the steps
    taken here.  [factory] is the factory, called for the child; an exception
    that it throws leaves the constructor as it is. *)
Definition list_layout
    (factory : arrow_proxy -> result factory_error array_base)
    (big : bool) (proxy : arrow_proxy)
  : result factory_error (@list_array_impl array_base) :=
  match Arrow.children proxy with
  | child :: _ =>
      match factory child with
      | Ok flat =>
          match make_list_offsets proxy with
          | Ok offsets => Ok (mk_list_array big proxy flat offsets)
          | Err e => Err (LayoutFailed e)
          end
      | Err e => Err e
      end
  | [] => Err (LayoutFailed BadIndex)
  end.

(** [array_factory]; [std::make_unique] runs the constructor of the layout
    class over the proxy, and an exception of the constructor leaves the
    factory.  The constructors of the null and of the primitive layouts
    only take the proxy. *)
Fixpoint array_factory (proxy : arrow_proxy) : result factory_error array_base :=
  if (String.length (Arrow.format proxy) =? 1)%nat then
    match Arrow.format proxy with
    | String c _ =>
        match c with
        | "n"%char => Ok (null_array proxy)
        | "b"%char => Ok (primitive_array bool_t proxy)
        | "c"%char => Ok (primitive_array int8_t proxy)
        | "C"%char => Ok (primitive_array uint8_t proxy)
        | "s"%char => Ok (primitive_array int16_t proxy)
        | "S"%char => Ok (primitive_array uint16_t proxy)
        | "i"%char => Ok (primitive_array int32_t proxy)
        | "I"%char => Ok (primitive_array uint32_t proxy)
        | "l"%char => Ok (primitive_array int64_t proxy)
        | "L"%char => Ok (primitive_array uint64_t proxy)
        | "f"%char => Ok (primitive_array float_t proxy)
        | "d"%char => Ok (primitive_array double_t proxy)
        | _ => Err UnsupportedFormat
        end
    | EmptyString => Err UnsupportedFormat
    end
  else if String.eqb (Arrow.format proxy) "+l" then
    layout ← list_layout array_factory false proxy;
    Ok (list_array layout)
  else if String.eqb (Arrow.format proxy) "+L" then
    layout ← list_layout array_factory true proxy;
    Ok (big_list_array layout)
  else Err UnsupportedFormat.

(** The factory as the factory parameter of the layouts of [ListArray];
    [None] is an exception. *)
Definition factory_v01 (proxy : arrow_proxy) : option array_base :=
  match array_factory proxy with
  | Ok a => Some a
  | Err _ => None
  end.

(** The scalar rows of the dispatch, one per single-character format code;
    a code is looked up whole. *)
Definition dispatch_table : list (string * (arrow_proxy -> array_base)) :=
  [ ("n"%string, null_array);
    ("b"%string, primitive_array bool_t);
    ("c"%string, primitive_array int8_t);
    ("C"%string, primitive_array uint8_t);
    ("s"%string, primitive_array int16_t);
    ("S"%string, primitive_array uint16_t);
    ("i"%string, primitive_array int32_t);
    ("I"%string, primitive_array uint32_t);
    ("l"%string, primitive_array int64_t);
    ("L"%string, primitive_array uint64_t);
    ("f"%string, primitive_array float_t);
    ("d"%string, primitive_array double_t) ].

Fixpoint table_lookup {A} (key : string) (t : list (string * A)) : option A :=
  match t with
  | [] => None
  | (k, v) :: t' => if String.eqb key k then Some v else table_lookup key t'
  end.

(** The two list rows: the format tag of a list layout and its handle. *)
Definition list_format (big : bool) : string := if big then "+L" else "+l".

Definition list_handle (big : bool) (layout : @list_array_impl array_base)
  : array_base :=
  if big then big_list_array layout else list_array layout.

(** [get_arrow_proxy()] of a handle: the proxy that the layout holds. *)
Definition proxy_of (a : array_base) : arrow_proxy :=
  match a with
  | null_array proxy => proxy
  | primitive_array _ proxy => proxy
  | list_array layout => m_proxy layout
  | big_list_array layout => m_proxy layout
  end.

End Factory.

(** ** A list array in memory

    The array of the list layout test ([test_v01/test_list_array.cpp]): four
    lists of sizes 1, 2, 3 and 4 over a flat child of ten 32-bit integers.
    Buffer 10 is the validity bitmap and buffer 11 holds the five offsets;
    buffers 12 and 13 are the bitmap and the values of the child. *)

Module Sample.
Import Memory ListArray.

Definition flat_proxy : arrow_proxy :=
  Arrow.ArrowProxy "i" 10 0 0 [12%nat; 13%nat] [].

Definition list_proxy : arrow_proxy :=
  Arrow.ArrowProxy "+l" 4 0 0 [10%nat; 11%nat] [flat_proxy].

Definition offsets : list Z := Eval vm_compute in offset_from_sizes false [1; 2; 3; 4].

Definition memory : store :=
  <[10%nat := [255]]>
    (<[11%nat := encode_all 4 offsets]>
       (<[12%nat := [255; 3]]>
          (<[13%nat := encode_all 4 [0; 1; 2; 3; 4; 5; 6; 7; 8; 9]]> ∅))).

Definition flat_array : Factory.array_base :=
  Factory.primitive_array Factory.int32_t flat_proxy.

Definition list_array : list_array_impl :=
  mk_list_array false list_proxy flat_array (mk_pointer 11%nat 0).

(** The last three lists of the array, as a slice: the same buffers and
    child under a proxy of length 3 and offset 1, and the list array that
    the constructor makes over it. *)
Definition sliced_proxy : arrow_proxy :=
  Arrow.ArrowProxy "+l" 3 0 1 [10%nat; 11%nat] [flat_proxy].

Definition sliced_array : list_array_impl :=
  mk_list_array false sliced_proxy flat_array (mk_pointer 11%nat 1).

End Sample.

(** ** The contiguous layout of fixed size types
       (include/sparrow/any_data_utils.hpp) *)

Module FixedSizeLayout.

(** Modelled from the spec: [array_data] (array_data.hpp) is not among the
    sources.  Of it the layout uses the logical [length] and [offset], both
    signed 64-bit, the validity [bitmap] and the [buffers]; buffer 0 is
    read as an array of [T]. *)
Record array_data (T : Type) : Type := mk_array_data {
  length : Z;
  offset : Z;
  bitmap : Bitset.dynamic_bitset;
  buffers : list (list T)
}.

Arguments length {T} _.
Arguments offset {T} _.
Arguments bitmap {T} _.
Arguments buffers {T} _.

(** A failed [assert], and a read past the end of a buffer. *)
Inductive access_error : Type := AssertionFailed | OutOfBuffer.

(** [std::size_t] is 64 bits wide; converting to it reduces modulo [2^64]. *)
Definition size_type_of (x : Z) : Z := x mod 2 ^ 64.

Section Layout.

Context {T : Type}.

(** [fixed_size_layout(array_data& data)]: the layout points at the data,
    after its two assertions. *)
Definition fixed_size_layout (data : array_data T)
  : result access_error (array_data T) :=
  if (0 <? Z.of_nat (List.length (buffers data)))
     && (size_type_of (length data) =? Bitset.size (bitmap data))
  then Ok data else Err AssertionFailed.

Definition size (p_data : array_data T) : result access_error Z :=
  if offset p_data <=? length p_data
  then Ok (size_type_of (length p_data - offset p_data))
  else Err AssertionFailed.

Definition data (p_data : array_data T) : result access_error (list T) :=
  match buffers p_data with
  | buffer :: _ => Ok buffer
  | [] => Err AssertionFailed
  end.

(** [i + p_data->offset], computed in [std::size_t]. *)
Definition position (p_data : array_data T) (i : Z) : Z :=
  size_type_of (i + size_type_of (offset p_data)).

Definition value (p_data : array_data T) (i : Z) : result access_error T :=
  n ← size p_data;
  if i <? n then
    buffer ← data p_data;
    match buffer !! Z.to_nat (position p_data i) with
    | Some v => Ok v
    | None => Err OutOfBuffer
    end
  else Err AssertionFailed.

Definition has_value (p_data : array_data T) (i : Z) : result access_error bool :=
  n ← size p_data;
  if i <? n then
    match Bitset.test (bitmap p_data) (position p_data i) with
    | Ok bit => Ok bit
    | Err _ => Err OutOfBuffer
    end
  else Err AssertionFailed.

(** [operator[](i)]: the reference proxy is made of the value and of the
    validity bit; reading through it gives the two. *)
Definition subscript (p_data : array_data T) (i : Z) : result access_error (T * bool) :=
  n ← size p_data;
  if i <? n then
    v ← value p_data i;
    bit ← has_value p_data i;
    Ok (v, bit)
  else Err AssertionFailed.

(** [values()]: the subrange from [value_cbegin()], which is
    [data() + offset], to [value_cend()], which is [value_cbegin() + size()];
    the elements of buffer 0 that it runs over. *)
Definition values (p_data : array_data T) : result access_error (list T) :=
  buffer ← data p_data;
  n ← size p_data;
  if (0 <=? offset p_data)
     && (offset p_data + n <=? Z.of_nat (List.length buffer))
  then Ok (take (Z.to_nat n) (drop (Z.to_nat (offset p_data)) buffer))
  else Err OutOfBuffer.

(** [bitmap()]: the subrange from [bitmap_cbegin()], which is
    [bitmap.cbegin() + offset], to [bitmap_cend()], [size()] bits further. *)
Definition bitmap_range (p_data : array_data T) : result access_error (list bool) :=
  n ← size p_data;
  if (0 <=? offset p_data)
     && (offset p_data + n <=? Bitset.size (bitmap p_data))
  then Ok (take (Z.to_nat n)
             (drop (Z.to_nat (offset p_data)) (Bitset.bits (bitmap p_data))))
  else Err OutOfBuffer.

End Layout.

End FixedSizeLayout.

(** ** Type lists (include/sparrow/mp_utils.hpp)

    The functions of [sparrow::mpl] on a [typelist<T...>] run at compile
    time over the types of the list.  A type list is embedded as the list
    of its types, taken from any set of types with decidable equality, and
    a predicate, which the source applies to the one-type list
    [typelist<T>{}], as a boolean function on type lists. *)

Module Mpl.

Section Typelist.

Context {type : Type} {type_eq_dec : EqDecision type}.

Definition typelist : Type := list type.

(** [size(typelist<T...>)]: [sizeof...(T)]. *)
Definition size (list : typelist) : nat := List.length list.

(** [any_of]: the fold [(predicate(typelist<T>{}) || ... || false)]. *)
Definition any_of (list : typelist) (predicate : typelist -> bool) : bool :=
  foldr (fun T rest => predicate [T] || rest) false list.

(** [all_of]: the fold [(predicate(typelist<T>{}) && ... && true)]. *)
Definition all_of (list : typelist) (predicate : typelist -> bool) : bool :=
  foldr (fun T rest => predicate [T] && rest) true list.

(** [same_as<T>::operator()]: the evaluated list is [typelist<T>]. *)
Definition same_as (T : type) (list : typelist) : bool :=
  bool_decide ([T] = list).

(** [contains<V>(list)]. *)
Definition contains (V : type) (list : typelist) : bool :=
  any_of list (same_as V).

(** The lambda [check] of [find_if]: a match stops the fold, a miss
    increments the captured [idx]. *)
Definition check (match_success : bool) (idx : nat) : bool * nat :=
  if match_success then (true, idx) else (false, S idx).

(** The fold [(check(predicate(typelist<T>{})) || ...)] of [find_if]: the
    operands right of a match are not evaluated. *)
Fixpoint find_if_fold (list : typelist) (predicate : typelist -> bool)
    (idx : nat) : bool * nat :=
  match list with
  | [] => (false, idx)
  | T :: list' =>
      let '(matched, idx') := check (predicate [T]) idx in
      if matched then (true, idx') else find_if_fold list' predicate idx'
  end.

(** [find_if(list, predicate)]. *)
Definition find_if (list : typelist) (predicate : typelist -> bool) : nat :=
  (find_if_fold list predicate 0).2.

(** [find<TypeToFind>(list)]. *)
Definition find (TypeToFind : type) (list : typelist) : nat :=
  find_if list (same_as TypeToFind).

End Typelist.

End Mpl.

(** ** The list-view layouts (unnamed/part_000) *)

Module ListView.
Import Memory ListArray.

Section Layouts.

Context {array_wrapper : Type}.
Variable array_factory : arrow_proxy -> option array_wrapper.

(** [list_view_array_impl<BIG>]: the proxy held by the base class, the flat
    child layout and the raw pointers to the offsets and to the sizes. *)
Record list_view_array_impl : Type := mk_list_view_array {
  BIG : bool;
  m_proxy : arrow_proxy;
  p_flat_array : array_wrapper;
  p_list_offsets : pointer;
  p_list_sizes : pointer
}.

Definition OFFSET_BUFFER_INDEX : nat := 1.
Definition SIZES_BUFFER_INDEX : nat := 2.

(** [list_view_array_impl::make_list_offsets]. *)
Definition make_list_offsets (proxy : arrow_proxy) : result layout_error pointer :=
  match Arrow.buffers proxy !! OFFSET_BUFFER_INDEX with
  | Some a => Ok (mk_pointer a (Arrow.offset proxy))
  | None => Err BadIndex
  end.

(** [list_view_array_impl::make_list_sizes]. *)
Definition make_list_sizes (proxy : arrow_proxy) : result layout_error pointer :=
  match Arrow.buffers proxy !! SIZES_BUFFER_INDEX with
  | Some a => Ok (mk_pointer a (Arrow.offset proxy))
  | None => Err BadIndex
  end.

(** [explicit list_view_array_impl(arrow_proxy proxy)]. *)
Definition list_view_array_of_proxy (big : bool) (proxy : arrow_proxy)
  : result layout_error list_view_array_impl :=
  flat ← make_flat_array array_factory proxy;
  offsets ← make_list_offsets proxy;
  sizes ← make_list_sizes proxy;
  Ok (mk_list_view_array big proxy flat offsets sizes).

(** [list_view_array_impl(const self_type& rhs)]. *)
Definition copy_list_view_array (rhs : list_view_array_impl) (h : store)
  : result layout_error (list_view_array_impl * store) :=
  let '(proxy, h') := copy_proxy (m_proxy rhs) h in
  flat ← make_flat_array array_factory proxy;
  offsets ← make_list_offsets proxy;
  sizes ← make_list_sizes proxy;
  Ok (mk_list_view_array (BIG rhs) proxy flat offsets sizes, h').

Definition size (a : list_view_array_impl) : Z := Arrow.length (m_proxy a).

(** [list_view_array_impl::offset_range]; the sum is computed in the offset
    type. *)
Definition offset_range (h : store) (a : list_view_array_impl) (i : Z)
  : result layout_error (Z * Z) :=
  match load_at h (p_list_offsets a) (offset_width (BIG a)) i,
        load_at h (p_list_sizes a) (offset_width (BIG a)) i with
  | Some offset, Some size_ =>
      Ok (offset, (offset + size_) mod 256 ^ Z.of_nat (offset_width (BIG a)))
  | _, _ => Err BadIndex
  end.

(** [list_array_crtp_base::value] on a list-view array. *)
Definition value (h : store) (a : list_view_array_impl) (i : Z)
  : result layout_error (@list_value array_wrapper) :=
  r ← offset_range h a i;
  Ok (mk_list_value (p_flat_array a) (r.1 mod 2 ^ 64) (r.2 mod 2 ^ 64)).

End Layouts.

(** [list_view_array_impl<BIG>::create_proxy]: the storage of the bitmap, of
    the offsets and of the sizes become buffers 0, 1 and 2. *)
Definition create_proxy (big : bool) (flat_values : arrow_proxy)
    (list_offsets list_sizes : list Z) (input : validity_input) (h : store)
  : result create_error (arrow_proxy * store) :=
  if (List.length list_offsets =? List.length list_sizes)%nat then
    let size := Z.of_nat (List.length list_sizes) in
    vbitmap ← ensure_validity size input;
    let null_count := Bitset.null_count vbitmap in
    let '(validity, h1) := allocate h (Bitset.m_buffer vbitmap) in
    let '(offsets, h2) := allocate h1 (encode_all (offset_width big) list_offsets) in
    let '(sizes, h3) := allocate h2 (encode_all (offset_width big) list_sizes) in
    Ok (Arrow.ArrowProxy (if big then "+vL" else "+vl")
          (to_int64 size) (to_int64 null_count) 0
          [validity; offsets; sizes] [flat_values], h3)
  else Err CreateAssertionFailed.

(** A list-view array in memory: two lists, [4, 7) and [0, 6), over the
    flat values of the layout test.  Buffers 20, 21 and 22 are the bitmap,
    the offsets and the sizes. *)
Definition sample_proxy : arrow_proxy :=
  Arrow.ArrowProxy "+vl" 2 0 0 [20%nat; 21%nat; 22%nat] [Sample.flat_proxy].

Definition sample_memory : store :=
  <[20%nat := [255]]>
    (<[21%nat := encode_all 4 [4; 0]]>
       (<[22%nat := encode_all 4 [3; 6]]> Sample.memory)).

Definition sample_array : @list_view_array_impl Factory.array_base :=
  mk_list_view_array false sample_proxy Sample.flat_array
    (mk_pointer 21%nat 0) (mk_pointer 22%nat 0).

End ListView.

(** ** The null array (include/sparrow/any_data_utils.hpp) *)

Module NullArray.
Import ListArray.

(** The proxy of a null array with what [Arrow.arrow_proxy] leaves out: the
    optional name and metadata of the schema. *)
Record named_proxy : Type := mk_named_proxy {
  descriptors : arrow_proxy;
  proxy_name : option string;
  proxy_metadata : option string
}.

Record null_array : Type := mk_null_array { m_proxy : named_proxy }.

Inductive null_error : Type := AssertionFailed.

(** The element of a null array: a nullable without a value. *)
Inductive null_value : Type := null.

(** [null_array::create_proxy]: format ["n"], the length as length and as
    null count, no buffer and no child. *)
Definition create_proxy (length : Z) (name metadata : option string)
  : named_proxy :=
  mk_named_proxy
    (Arrow.ArrowProxy "n" (to_int64 length) (to_int64 length) 0 [] [])
    name metadata.

(** [null_array(size_t length, name, metadata)]. *)
Definition null_array_of_length (length : Z) (name metadata : option string)
  : null_array :=
  mk_null_array (create_proxy length name metadata).

(** Modelled from the spec: [arrow_proxy::data_type] is not among the
    sources; the format ["n"] is the null type, [data_type::NA]. *)
Definition is_NA (proxy : named_proxy) : bool :=
  String.eqb (Arrow.format (descriptors proxy)) "n".

(** [null_array(arrow_proxy proxy)]. *)
Definition null_array_of_proxy (proxy : named_proxy)
  : result null_error null_array :=
  if is_NA proxy then Ok (mk_null_array proxy) else Err AssertionFailed.

Definition name (a : null_array) : option string := proxy_name (m_proxy a).
Definition metadata (a : null_array) : option string := proxy_metadata (m_proxy a).

(** [null_array::size]: the length of the proxy, as a [std::size_t]. *)
Definition size (a : null_array) : Z :=
  Arrow.length (descriptors (m_proxy a)) mod 2 ^ 64.

(** [null_array::ssize]. *)
Definition ssize (a : null_array) : Z := to_int64 (size a).

(** [null_array::operator[]]: the element at [begin()], whatever [i]. *)
Definition subscript (a : null_array) (i : Z) : result null_error null_value :=
  if i <? size a then Ok null else Err AssertionFailed.

(** The positions of the iterators [begin()] and [end()]. *)
Definition begin_ (a : null_array) : Z := 0.
Definition end_ (a : null_array) : Z := ssize a.

(** [operator==(const null_array&, const null_array&)]. *)
Definition eq_null_array (lhs rhs : null_array) : bool := size lhs =? size rhs.

End NullArray.

(** ** The schema descriptor (include/sparrow/arrow_interface/arrow_schema.hpp) *)

Module Schema.

(** What the [release] member points to: [release_arrow_schema], or the
    callback of another producer. *)
Inductive release_callback : Type :=
| release_arrow_schema_callback
| foreign_callback (id : nat).

(** [arrow_schema_private_data]: the owner of the format, of the name and
    of the metadata. *)
Record arrow_schema_private_data : Type := mk_private_data {
  pd_format : string;
  pd_name : option string;
  pd_metadata : option string
}.

(** [ArrowSchema]; a pointer member is an [option], [None] for [nullptr],
    and the array of children holds one pointer per child. *)
Record ArrowSchema : Type := mk_schema {
  format : option string;
  name : option string;
  metadata : option string;
  flags : Z;
  n_children : Z;
  children : option (list (option addr));
  dictionary : option addr;
  release : option release_callback;
  private_data : option arrow_schema_private_data
}.

Inductive schema_error : Type := AssertionFailed | OutOfBounds.

(** [ArrowSchema{}], which [default_arrow_schema_unique_ptr] allocates:
    integers 0, pointers null. *)
Definition default_arrow_schema : ArrowSchema :=
  mk_schema None None None 0 0 None None None None.

(** The loop of [make_arrow_schema_unique_ptr] over the children: child [i]
    must not be null, for every [i] below [n_children]. *)
Fixpoint check_children (children : list (option addr)) (i : nat) (count : nat)
  : result schema_error unit :=
  match count with
  | O => Ok tt
  | S count' =>
      match children !! i with
      | Some (Some _) => check_children children (S i) count'
      | Some None => Err AssertionFailed
      | None => Err OutOfBounds
      end
  end.

(** [make_arrow_schema_unique_ptr]. *)
Definition make_arrow_schema_unique_ptr (format_ : string)
    (name_ metadata_ : option string) (flags_ : option Z) (n_children_ : Z)
    (children_ : option (list (option addr))) (dictionary_ : option addr)
  : result schema_error ArrowSchema :=
  if String.eqb format_ "" then Err AssertionFailed
  else
    _ ← match children_ with
        | Some l => check_children l 0 (Z.to_nat n_children_)
        | None => Ok tt
        end;
    Ok {| format := Some format_;
          name := name_;
          metadata := metadata_;
          flags := default 0 flags_;
          n_children := n_children_;
          children := children_;
          dictionary := dictionary_;
          release := Some release_arrow_schema_callback;
          private_data := Some (mk_private_data format_ name_ metadata_) |}.

(** [release_arrow_schema]: under its two assertions the private data is
    deleted, the children are released by [release_common_arrow], which
    leaves the structure itself to its caller, and the structure is reset
    to [ArrowSchema{}]. *)
Definition release_arrow_schema (schema : option ArrowSchema)
  : result schema_error ArrowSchema :=
  match schema with
  | None => Err AssertionFailed
  | Some s =>
      match release s with
      | Some release_arrow_schema_callback => Ok default_arrow_schema
      | _ => Err AssertionFailed
      end
  end.

End Schema.
(** * Properties *)

(** ** The array factory *)

Module FactoryFacts.
Import Memory ListArray Factory.

(** A format of two characters or more never equals a one-character tag. *)
Lemma eqb_long_short (c1 c2 k : ascii) (rest : string) :
  String.eqb (String c1 (String c2 rest)) (String k EmptyString) = false.
Proof. simpl. destruct (Ascii.eqb c1 k); reflexivity. Qed.

(** The scalar rows. *)
Lemma array_factory_scalar (proxy : arrow_proxy) (make : arrow_proxy -> array_base) :
  table_lookup (Arrow.format proxy) dispatch_table = Some make ->
  array_factory proxy = Ok (make proxy).
Proof.
  destruct proxy as [format n c o buffers children].
  cbn [Arrow.format array_factory]. unfold dispatch_table.
  destruct format as [|c1 [|c2 rest]].
  - discriminate.
  - destruct c1 as [[] [] [] [] [] [] [] []]; cbn;
      first [discriminate | intros [= <-]; reflexivity].
  - cbn [table_lookup]. rewrite !eqb_long_short. discriminate.
Qed.

(** The two list rows: the steps of the constructor of the list layout. *)
Lemma array_factory_list (proxy : arrow_proxy) (big : bool) :
  Arrow.format proxy = list_format big ->
  array_factory proxy
  = match Arrow.children proxy with
    | child :: _ =>
        match array_factory child with
        | Ok flat =>
            match make_list_offsets proxy with
            | Ok offsets =>
                Ok (list_handle big (mk_list_array big proxy flat offsets))
            | Err e => Err (LayoutFailed e)
            end
        | Err e => Err e
        end
    | [] => Err (LayoutFailed BadIndex)
    end.
Proof.
  destruct proxy as [format n c o buffers children].
  cbn [Arrow.format]. intros ->.
  destruct big; cbn [list_format array_factory Arrow.format
                       String.length Nat.eqb String.eqb Ascii.eqb Bool.eqb
                       list_handle];
    unfold list_layout; cbn [Arrow.children mbind result_bind];
    destruct children as [|child rest]; try reflexivity;
    destruct (array_factory child) as [flat|e]; try reflexivity;
    destruct (make_list_offsets (Arrow.ArrowProxy _ n c o buffers (child :: rest)))
      as [offsets|e]; reflexivity.
Qed.

(** Every other format is refused. *)
Lemma array_factory_other (proxy : arrow_proxy) :
  table_lookup (Arrow.format proxy) dispatch_table = None ->
  Arrow.format proxy <> "+l"%string -> Arrow.format proxy <> "+L"%string ->
  array_factory proxy = Err UnsupportedFormat.
Proof.
  destruct proxy as [format n c o buffers children].
  cbn [Arrow.format array_factory]. unfold dispatch_table.
  intros Hscalar Hlist Hbig.
  destruct format as [|c1 [|c2 rest]].
  - reflexivity.
  - destruct c1 as [[] [] [] [] [] [] [] []]; cbn in Hscalar |- *;
      first [discriminate | reflexivity].
  - cbn [String.length Nat.eqb].
    destruct (String.eqb_spec (String c1 (String c2 rest)) "+l"); [contradiction|].
    destruct (String.eqb_spec (String c1 (String c2 rest)) "+L"); [contradiction|].
    reflexivity.
Qed.

(** The handle that the factory returns holds the proxy it was given. *)
Lemma array_factory_proxy_of (proxy : arrow_proxy) (a : array_base) :
  array_factory proxy = Ok a -> proxy_of a = proxy.
Proof.
  destruct (table_lookup (Arrow.format proxy) dispatch_table) as [make|] eqn:Hscalar.
  - rewrite (array_factory_scalar proxy make Hscalar). intros [= <-].
    revert Hscalar. unfold dispatch_table. cbn [table_lookup].
    repeat match goal with
           | |- (if ?c then _ else _) = _ -> _ =>
               destruct c; [intros [= <-]; reflexivity|]
           end.
    discriminate.
  - destruct (String.eqb_spec (Arrow.format proxy) "+l") as [Hl|Hl];
      [|destruct (String.eqb_spec (Arrow.format proxy) "+L") as [HL|HL]].
    + rewrite (array_factory_list proxy false Hl).
      destruct (Arrow.children proxy) as [|child rest]; [discriminate|].
      destruct (array_factory child); [|discriminate].
      destruct (make_list_offsets proxy); [|discriminate].
      intros [= <-]. reflexivity.
    + rewrite (array_factory_list proxy true HL).
      destruct (Arrow.children proxy) as [|child rest]; [discriminate|].
      destruct (array_factory child); [|discriminate].
      destruct (make_list_offsets proxy); [|discriminate].
      intros [= <-]. reflexivity.
    + rewrite (array_factory_other proxy Hscalar Hl HL). discriminate.
Qed.

(** What [factory_v01] returns is what [array_factory] returns. *)
Lemma factory_v01_Some (proxy : arrow_proxy) (a : array_base) :
  factory_v01 proxy = Some a <-> array_factory proxy = Ok a.
Proof.
  unfold factory_v01. destruct (array_factory proxy); split; congruence.
Qed.

(** A list row serves exactly the proxies over which the constructor of the
    list layout succeeds with this factory for the child. *)
Lemma array_factory_list_layout (proxy : arrow_proxy) (big : bool)
    (layout : @list_array_impl array_base) :
  Arrow.format proxy = list_format big ->
  list_array_of_proxy factory_v01 big proxy = Ok layout
  <-> array_factory proxy = Ok (list_handle big layout).
Proof.
  intros Hformat. rewrite (array_factory_list proxy big Hformat).
  unfold list_array_of_proxy, make_flat_array, factory_v01.
  destruct (Arrow.children proxy) as [|child rest]; [split; discriminate|].
  destruct (array_factory child) as [flat|e]; cbn [mbind result_bind].
  - destruct (make_list_offsets proxy) as [offsets|e]; cbn [mbind result_bind].
    + split; intros [= E]; [rewrite <- E; reflexivity|].
      f_equal. destruct big; cbn in E; congruence.
    + split; discriminate.
  - split; [discriminate|]. intros E. exfalso. clear -E.
    destruct e; discriminate.
Qed.

(** C1, as stated, fails: the list-view and fixed-size-list tags are not
    served, the factory throws for them. *)
Lemma array_factory_list_view_unsupported :
  array_factory (Arrow.proxy_with_format "+vl") = Err UnsupportedFormat
  /\ array_factory (Arrow.proxy_with_format "+vL") = Err UnsupportedFormat
  /\ array_factory (Arrow.proxy_with_format "+w:3") = Err UnsupportedFormat.
Proof. repeat split. Qed.

(** C1 (amended): for every proxy, [array_factory] maps each of the twelve
    single-character format codes to its scalar layout (["i"] to the layout
    of 32-bit signed integers, ["n"] to the null layout).  It maps exactly
    ["+l"] to [list_array] and exactly ["+L"] to [big_list_array], over
    every proxy over which the list layout can be constructed: the layout
    obtains its flat child from the factory, so the proxy needs a child 0
    that the factory serves in turn, and an offsets buffer; what the
    factory throws for the child, it throws for the list.  It fails with
    [UnsupportedFormat] for every other format, the list-view tags ["+vl"],
    ["+vL"], the fixed-size-list tags ["+w:N"] and ["+q"] among them. *)
Theorem array_factory_dispatch :
  (forall proxy make,
      table_lookup (Arrow.format proxy) dispatch_table = Some make ->
      array_factory proxy = Ok (make proxy))
  /\ (forall proxy, Arrow.format proxy = "i"%string ->
        array_factory proxy = Ok (primitive_array int32_t proxy))
  /\ (forall proxy, Arrow.format proxy = "n"%string ->
        array_factory proxy = Ok (null_array proxy))
  /\ (forall (proxy : arrow_proxy) (big : bool),
        Arrow.format proxy = (if big then "+L" else "+l")%string ->
        (forall layout,
            list_array_of_proxy factory_v01 big proxy = Ok layout
            <-> array_factory proxy
                = Ok (if big then big_list_array layout else list_array layout))
        /\ (forall child rest flat offsets,
              Arrow.children proxy = child :: rest ->
              array_factory child = Ok flat ->
              Arrow.buffers proxy !! 1%nat = Some offsets ->
              array_factory proxy
              = Ok ((if big then big_list_array else list_array)
                      (mk_list_array big proxy flat
                         (mk_pointer offsets (Arrow.offset proxy)))))
        /\ (forall handle,
              array_factory proxy = Ok handle ->
              exists layout,
                handle = (if big then big_list_array layout else list_array layout)
                /\ BIG layout = big /\ m_proxy layout = proxy
                /\ exists child,
                     Arrow.children proxy !! 0%nat = Some child
                     /\ array_factory child = Ok (p_flat_array layout))
        /\ (forall child rest e,
              Arrow.children proxy = child :: rest ->
              array_factory child = Err e -> array_factory proxy = Err e)
        /\ (Arrow.children proxy = [] -> ~ is_Ok (array_factory proxy)))
  /\ (forall proxy,
        table_lookup (Arrow.format proxy) dispatch_table = None ->
        Arrow.format proxy <> "+l"%string -> Arrow.format proxy <> "+L"%string ->
        array_factory proxy = Err UnsupportedFormat)
  /\ (forall proxy rest,
        Arrow.format proxy = ("+q" ++ rest)%string
        \/ Arrow.format proxy = ("+v" ++ rest)%string
        \/ Arrow.format proxy = ("+w" ++ rest)%string ->
        array_factory proxy = Err UnsupportedFormat).
Proof.
  split; [exact array_factory_scalar|].
  split; [intros proxy H; apply array_factory_scalar; rewrite H; reflexivity|].
  split; [intros proxy H; apply array_factory_scalar; rewrite H; reflexivity|].
  split; [|split; [exact array_factory_other|]].
  - intros proxy big Hformat.
    assert (Hformat' : Arrow.format proxy = list_format big)
      by (destruct big; exact Hformat).
    pose proof (array_factory_list proxy big Hformat') as Hlist.
    split; [|split; [|split; [|split]]].
    + intros layout.
      destruct (array_factory_list_layout proxy big layout Hformat') as [H1 H2].
      destruct big; split; [apply H1|apply H2|apply H1|apply H2].
    + intros child rest flat offsets Hchildren Hflat Hbuf.
      rewrite Hlist, Hchildren, Hflat. unfold make_list_offsets, OFFSET_BUFFER_INDEX.
      rewrite Hbuf. destruct big; reflexivity.
    + intros handle. rewrite Hlist.
      destruct (Arrow.children proxy) as [|child rest]; [discriminate|].
      destruct (array_factory child) as [flat|e] eqn:Hflat; [|discriminate].
      destruct (make_list_offsets proxy) as [offsets|e]; [|discriminate].
      intros [= <-]. exists (mk_list_array big proxy flat offsets).
      split; [destruct big; reflexivity|]. split; [reflexivity|].
      split; [reflexivity|]. exists child. split; [reflexivity|exact Hflat].
    + intros child rest e Hchildren Hchild.
      rewrite Hlist, Hchildren, Hchild. reflexivity.
    + intros Hchildren. rewrite Hlist, Hchildren. cbn. tauto.
  - intros proxy rest H. apply array_factory_other.
    + destruct H as [H|[H|H]]; rewrite H; destruct rest; reflexivity.
    + destruct H as [H|[H|H]]; rewrite H; discriminate.
    + destruct H as [H|[H|H]]; rewrite H; discriminate.
Qed.

(** The proxies of the layout test, and a tag that is not served. *)
Lemma array_factory_dispatch_witness :
  array_factory Sample.flat_proxy = Ok (primitive_array int32_t Sample.flat_proxy)
  /\ array_factory Sample.list_proxy = Ok (list_array Sample.list_array)
  /\ array_factory (Arrow.proxy_with_format "+q") = Err UnsupportedFormat.
Proof.
  split; [|split].
  - apply (proj1 (proj2 array_factory_dispatch)). reflexivity.
  - apply (proj1 (proj2 (proj1 (proj2 (proj2 (proj2 array_factory_dispatch)))
                           Sample.list_proxy false eq_refl))
             Sample.flat_proxy [] Sample.flat_array 11%nat);
      reflexivity.
  - apply (proj2 (proj2 (proj2 (proj2 (proj2 array_factory_dispatch)))))
      with (rest := ""%string).
    left. reflexivity.
Defined.

End FactoryFacts.


(** ** The validity bitmap *)

Module BitsetFacts.
Import Bitset.

(** *** Block arithmetic *)

Lemma bit_index_range (pos : Z) : 0 <= bit_index pos < 8.
Proof. unfold bit_index, s_bits_per_block. apply Z.mod_pos_bound. lia. Qed.

Lemma block_index_nonneg (pos : Z) : 0 <= pos -> 0 <= block_index pos.
Proof. intros H. unfold block_index, s_bits_per_block. apply Z.div_pos; lia. Qed.

Lemma block_index_lt (pos n : Z) :
  0 <= pos < n -> block_index pos < compute_block_count n.
Proof.
  intros H. unfold block_index, compute_block_count, s_bits_per_block.
  pose proof (Z.div_mod pos 8 ltac:(lia)) as Hp.
  pose proof (Z.div_mod n 8 ltac:(lia)) as Hn.
  pose proof (Z.mod_pos_bound pos 8 ltac:(lia)).
  pose proof (Z.mod_pos_bound n 8 ltac:(lia)).
  destruct (Z.eqb_spec (n mod 8) 0); lia.
Qed.

Lemma pos_decompose (pos : Z) : pos = 8 * block_index pos + bit_index pos.
Proof. unfold block_index, bit_index, s_bits_per_block. apply Z.div_mod. lia. Qed.

Lemma same_block_same_bit (i j : Z) :
  block_index i = block_index j -> bit_index i = bit_index j -> i = j.
Proof. intros Hb Hi. rewrite (pos_decompose i), (pos_decompose j). lia. Qed.

(** Masking with [bit_mask] reads one bit of the block. *)
Lemma land_mask_testbit (block pos : Z) :
  negb (Z.land block (bit_mask pos) =? 0) = Z.testbit block (bit_index pos).
Proof.
  unfold bit_mask. pose proof (bit_index_range pos) as Hk.
  set (k := bit_index pos) in *.
  rewrite Z.shiftl_1_l.
  destruct (Z.testbit block k) eqn:Hb.
  - replace (Z.land block (2 ^ k)) with (2 ^ k).
    + destruct (Z.eqb_spec (2 ^ k) 0) as [E|]; [|reflexivity].
      pose proof (Z.pow_pos_nonneg 2 k ltac:(lia) ltac:(lia)). lia.
    + apply Z.bits_inj'. intros n Hn.
      rewrite Z.land_spec, Z.pow2_bits_eqb by lia.
      destruct (Z.eqb_spec k n); subst; [rewrite Hb|rewrite andb_false_r]; reflexivity.
  - replace (Z.land block (2 ^ k)) with 0; [reflexivity|].
    apply Z.bits_inj'. intros n Hn.
    rewrite Z.land_spec, Z.pow2_bits_eqb, Z.bits_0 by lia.
    destruct (Z.eqb_spec k n); subst; [rewrite Hb|rewrite andb_false_r]; reflexivity.
Qed.

Lemma testbit_set_mask (block pos k : Z) (value : bool) :
  0 <= k ->
  Z.testbit (if value then Z.lor block (bit_mask pos)
             else Z.land block (Z.lnot (bit_mask pos))) k
  = if k =? bit_index pos then value else Z.testbit block k.
Proof.
  intros Hk. unfold bit_mask. pose proof (bit_index_range pos) as Hp.
  rewrite Z.shiftl_1_l. destruct value.
  - rewrite Z.lor_spec, Z.pow2_bits_eqb by lia.
    rewrite (Z.eqb_sym (bit_index pos) k).
    destruct (k =? bit_index pos); [apply orb_true_r|apply orb_false_r].
  - rewrite Z.land_spec, Z.lnot_spec, Z.pow2_bits_eqb by lia.
    rewrite (Z.eqb_sym (bit_index pos) k).
    destruct (k =? bit_index pos); [apply andb_false_r|apply andb_true_r].
Qed.

(** *** Reading the bits of a storage *)

Lemma bit_of_insert (buffer : list Z) (pos j block : Z) (value : bool) :
  0 <= pos -> 0 <= j ->
  buffer !! Z.to_nat (block_index pos) = Some block ->
  bit_of (<[Z.to_nat (block_index pos) :=
            if value then Z.lor block (bit_mask pos)
            else Z.land block (Z.lnot (bit_mask pos))]> buffer) j
  = if j =? pos then value else bit_of buffer j.
Proof.
  intros Hpos Hj Hblock. unfold bit_of.
  pose proof (block_index_nonneg pos Hpos). pose proof (block_index_nonneg j Hj).
  destruct (Z.eq_dec (block_index j) (block_index pos)) as [Eb|Nb].
  - rewrite Eb, list_lookup_insert_eq by (eapply lookup_lt_Some; eauto).
    rewrite Hblock, !land_mask_testbit.
    rewrite testbit_set_mask by apply bit_index_range.
    destruct (Z.eqb_spec (bit_index j) (bit_index pos)) as [Ei|Ni].
    + rewrite (same_block_same_bit j pos Eb Ei), Z.eqb_refl. reflexivity.
    + destruct (Z.eqb_spec j pos); [subst; contradiction|reflexivity].
  - rewrite list_lookup_insert_ne by lia.
    destruct (Z.eqb_spec j pos); [subst; contradiction|reflexivity].
Qed.

Lemma bit_of_replicate (k : nat) (value : bool) (pos : Z) :
  0 <= pos -> block_index pos < Z.of_nat k ->
  bit_of (replicate k (if value then 255 else 0)) pos = value.
Proof.
  intros Hpos Hlt. unfold bit_of.
  pose proof (block_index_nonneg pos Hpos).
  rewrite lookup_replicate_2 by lia.
  rewrite land_mask_testbit. pose proof (bit_index_range pos) as Hk.
  destruct value.
  - assert (Hc : bit_index pos = 0 \/ bit_index pos = 1 \/ bit_index pos = 2
                 \/ bit_index pos = 3 \/ bit_index pos = 4 \/ bit_index pos = 5
                 \/ bit_index pos = 6 \/ bit_index pos = 7) by lia.
    destruct Hc as [E|[E|[E|[E|[E|[E|[E|E]]]]]]]; rewrite E; reflexivity.
  - apply Z.bits_0.
Qed.

Lemma bits_length (b : dynamic_bitset) :
  List.length (bits b) = Z.to_nat (size b).
Proof. unfold bits. rewrite length_map, length_seq. reflexivity. Qed.

Lemma bits_lookup (b : dynamic_bitset) (i : nat) :
  (i < Z.to_nat (size b))%nat ->
  bits b !! i = Some (bit_of (m_buffer b) (Z.of_nat i)).
Proof.
  intros Hi. unfold bits. rewrite list_lookup_fmap.
  rewrite lookup_seq_lt by lia. reflexivity.
Qed.

(** *** Counting *)

Lemma count_of_nonneg (v : bool) (bs : list bool) : 0 <= count_of v bs.
Proof. induction bs as [|x bs IH]; simpl; [lia|]. destruct (Bool.eqb x v); lia. Qed.

Lemma count_of_split (bs : list bool) :
  count_of true bs + count_of false bs = Z.of_nat (List.length bs).
Proof.
  induction bs as [|x bs IH]; [reflexivity|].
  cbn [count_of List.length]. destruct x; simpl Bool.eqb; lia.
Qed.

Lemma count_of_replicate (v w : bool) (n : nat) :
  count_of v (replicate n w) = if Bool.eqb w v then Z.of_nat n else 0.
Proof.
  induction n as [|n IH]; [destruct (Bool.eqb w v); reflexivity|].
  cbn [replicate count_of]. rewrite IH. destruct (Bool.eqb w v); lia.
Qed.

Lemma count_of_insert (bs : list bool) (i : nat) (old new : bool) :
  bs !! i = Some old ->
  count_of true (<[i := new]> bs)
  = count_of true bs + (if new then 1 else 0) - (if old then 1 else 0).
Proof.
  revert i. induction bs as [|x bs IH]; intros i Hi; [discriminate|].
  destruct i as [|i].
  - injection Hi as ->. cbn. destruct new, old; simpl; lia.
  - cbn in Hi. specialize (IH i Hi).
    change (<[S i := new]> (x :: bs)) with (x :: <[i := new]> bs).
    cbn [count_of]. lia.
Qed.

(** *** [set] *)

Lemma set_Ok (b : dynamic_bitset) (pos : Z) (value : bool) :
  wf b -> 0 <= pos < size b ->
  exists block,
    block_at b (block_index pos) = Some block
    /\ set b pos value
       = Ok {| m_buffer := <[Z.to_nat (block_index pos) :=
                              if value then Z.lor block (bit_mask pos)
                              else Z.land block (Z.lnot (bit_mask pos))]> (m_buffer b);
               m_size := m_size b;
               m_null_count :=
                 update_null_count (bit_of (m_buffer b) pos) value (m_null_count b) |}.
Proof.
  intros [Hs Hst Hnc] Hpos. unfold size in Hpos.
  pose proof (block_index_lt pos (m_size b) Hpos) as Hlt.
  pose proof (block_index_nonneg pos ltac:(lia)) as Hge.
  destruct (m_buffer b !! Z.to_nat (block_index pos)) as [block|] eqn:Hblock.
  2: { apply lookup_ge_None in Hblock. lia. }
  exists block. split; [exact Hblock|].
  unfold set, block_at, size, bit_of. rewrite Hblock.
  destruct (Z.leb_spec 0 pos); [|lia]. destruct (Z.ltb_spec pos (m_size b)); [|lia].
  reflexivity.
Qed.

Lemma set_bits (b b' : dynamic_bitset) (pos : Z) (value : bool) :
  wf b -> 0 <= pos < size b -> set b pos value = Ok b' ->
  size b' = size b
  /\ List.length (m_buffer b') = List.length (m_buffer b)
  /\ bits b' = <[Z.to_nat pos := value]> (bits b)
  /\ null_count b'
     = update_null_count (bit_of (m_buffer b) pos) value (null_count b).
Proof.
  intros Hwf Hpos Hset.
  destruct (set_Ok b pos value Hwf Hpos) as (block & Hblock & E).
  rewrite E in Hset. injection Hset as <-. cbn.
  split; [reflexivity|]. split; [apply length_insert|]. split; [|reflexivity].
  apply list_eq. intros j.
  destruct (decide (j < Z.to_nat (size b))%nat) as [Hj|Hj].
  - rewrite bits_lookup by (cbn; exact Hj). cbn [m_buffer].
    rewrite (bit_of_insert (m_buffer b) pos (Z.of_nat j) block value)
      by (try exact Hblock; lia).
    destruct (Z.eqb_spec (Z.of_nat j) pos) as [Ej|Nj].
    + replace (Z.to_nat pos) with j by lia.
      rewrite list_lookup_insert_eq by (rewrite bits_length; lia). reflexivity.
    + rewrite list_lookup_insert_ne by lia.
      rewrite bits_lookup by exact Hj. reflexivity.
  - rewrite !lookup_ge_None_2; [reflexivity| |].
    + rewrite length_insert, bits_length. lia.
    + rewrite bits_length. cbn. unfold size in Hj. lia.
Qed.

Lemma set_wf (b b' : dynamic_bitset) (pos : Z) (value : bool) :
  wf b -> 0 <= pos < size b -> set b pos value = Ok b' -> wf b'.
Proof.
  intros Hwf Hpos Hset.
  destruct (set_bits b b' pos value Hwf Hpos Hset) as (Hsz & Hlen & Hbits & Hnc).
  destruct Hwf as [Hs Hst Hinv]. unfold size in *.
  split.
  - lia.
  - rewrite Hlen, Hsz. exact Hst.
  - rewrite Hnc, Hinv. unfold size, popcount, count_non_null. rewrite Hsz, Hbits.
    assert (Hold : bits b !! Z.to_nat pos = Some (bit_of (m_buffer b) pos)).
    { rewrite bits_lookup by (unfold size; lia). f_equal. f_equal. lia. }
    rewrite (count_of_insert _ _ _ value Hold).
    unfold update_null_count.
    destruct value, (bit_of (m_buffer b) pos); simpl; lia.
Qed.

(** *** The constructors *)

Lemma compute_block_count_nonneg (n : Z) : 0 <= n -> 0 <= compute_block_count n.
Proof.
  intros H. unfold compute_block_count, s_bits_per_block.
  pose proof (Z.div_pos n 8 H ltac:(lia)).
  destruct (n mod 8 =? 0); lia.
Qed.

Lemma make_bits (n : Z) (value : bool) :
  bits (make n value) = replicate (Z.to_nat n) value.
Proof.
  apply list_eq. intros j.
  destruct (decide (j < Z.to_nat n)%nat) as [Hj|Hj].
  - rewrite bits_lookup by exact Hj. cbn [make m_buffer].
    rewrite lookup_replicate_2 by exact Hj. f_equal.
    apply bit_of_replicate; [lia|].
    pose proof (block_index_lt (Z.of_nat j) n ltac:(lia)).
    pose proof (compute_block_count_nonneg n ltac:(lia)). lia.
  - rewrite !lookup_ge_None_2; [reflexivity| |].
    + rewrite length_replicate. lia.
    + rewrite bits_length. cbn. lia.
Qed.

Lemma make_wf (n : Z) (value : bool) : 0 <= n -> wf (make n value).
Proof.
  intros Hn. split.
  - exact Hn.
  - cbn. rewrite length_replicate.
    pose proof (compute_block_count_nonneg n Hn). lia.
  - unfold popcount, count_non_null. rewrite make_bits, count_of_replicate.
    cbn. destruct value; simpl; lia.
Qed.

(** *** The loop over a range *)

Lemma clear_nulls_spec {A} (is_null : A -> bool) (r : list A) (i : nat)
    (b : dynamic_bitset) :
  wf b -> Z.of_nat i + Z.of_nat (List.length r) <= size b ->
  exists b', clear_nulls is_null r (Z.of_nat i) b = Ok b'
             /\ wf b' /\ size b' = size b
             /\ bits b' = cleared is_null r i (bits b).
Proof.
  revert i b. induction r as [|value r IH]; intros i b Hwf Hlen.
  - exists b. repeat split; try reflexivity; apply Hwf.
  - cbn [List.length] in Hlen. cbn [clear_nulls cleared].
    destruct (is_null value).
    + assert (Hpos : 0 <= Z.of_nat i < size b) by lia.
      destruct (set_Ok b (Z.of_nat i) false Hwf Hpos) as (block & _ & E).
      match type of E with _ = Ok ?x => set (b1 := x) in E end.
      destruct (set_bits b b1 _ false Hwf Hpos E) as (Hsz & _ & Hbits & _).
      pose proof (set_wf b b1 _ false Hwf Hpos E) as Hwf1.
      destruct (IH (S i) b1 Hwf1 ltac:(lia)) as (b' & Hb' & Hwf' & Hsz' & Hbits').
      exists b'. rewrite E. cbn [mbind result_bind].
      replace (Z.of_nat i + 1) with (Z.of_nat (S i)) by lia.
      rewrite Hb'. repeat split; try apply Hwf'; [congruence|].
      rewrite Hbits', Hbits, Nat2Z.id. reflexivity.
    + cbn [mbind result_bind].
      replace (Z.of_nat i + 1) with (Z.of_nat (S i)) by lia.
      apply IH; [exact Hwf|lia].
Qed.

Lemma clear_nulls_map {A B} (g : A -> B) (is_null : B -> bool) (r : list A)
    (i : Z) (b : dynamic_bitset) :
  clear_nulls is_null (map g r) i b = clear_nulls (fun x => is_null (g x)) r i b.
Proof.
  revert i b. induction r as [|x r IH]; intros i b; [reflexivity|].
  cbn [map clear_nulls]. destruct (if is_null (g x) then _ else _); cbn; auto.
Qed.

Lemma clear_nulls_ext {A} (f g : A -> bool) (r : list A) (i : Z)
    (b : dynamic_bitset) :
  (forall x, f x = g x) -> clear_nulls f r i b = clear_nulls g r i b.
Proof.
  intros Hfg. revert i b. induction r as [|x r IH]; intros i b; [reflexivity|].
  cbn [clear_nulls]. rewrite Hfg. destruct (if g x then _ else _); cbn; auto.
Qed.

(** Clearing the positions of the [false] entries of [bs] in an all-true
    sequence gives back [bs]. *)
Lemma cleared_all_true (bs pre : list bool) :
  cleared negb bs (List.length pre) (pre ++ replicate (List.length bs) true)
  = pre ++ bs.
Proof.
  revert pre. induction bs as [|x bs IH]; intros pre.
  - reflexivity.
  - cbn [cleared List.length replicate].
    replace (if negb x then <[List.length pre := false]> (pre ++ true :: replicate (List.length bs) true)
             else pre ++ true :: replicate (List.length bs) true)
      with ((pre ++ [x]) ++ replicate (List.length bs) true).
    + replace (S (List.length pre)) with (List.length (pre ++ [x]))
        by (rewrite length_app; simpl; lia).
      rewrite IH, <- app_assoc. reflexivity.
    + rewrite <- app_assoc. destruct x; cbn [negb]; [reflexivity|].
      rewrite insert_app_r_alt by lia. rewrite Nat.sub_diag. reflexivity.
Qed.

Lemma of_range_spec (bs : list bool) :
  exists b, of_range bs = Ok b /\ wf b
            /\ size b = Z.of_nat (List.length bs) /\ bits b = bs.
Proof.
  unfold of_range.
  destruct (clear_nulls_spec negb bs 0 (make (Z.of_nat (List.length bs)) true))
    as (b & Hb & Hwf & Hsz & Hbits).
  - apply make_wf. lia.
  - cbn. lia.
  - exists b. split; [exact Hb|]. split; [exact Hwf|]. split; [exact Hsz|].
    rewrite Hbits, make_bits, Nat2Z.id. apply (cleared_all_true bs []).
Qed.

Lemma set_all_spec (calls : list (Z * bool)) (b : dynamic_bitset) :
  wf b -> Forall (fun c => 0 <= c.1 < size b) calls ->
  exists b', set_all calls b = Ok b' /\ wf b' /\ size b' = size b.
Proof.
  revert b. induction calls as [|[i v] calls IH]; intros b Hwf Hall.
  - exists b. auto.
  - apply Forall_cons in Hall as [Hi Hall]. cbn in Hi.
    destruct (set_Ok b i v Hwf Hi) as (block & _ & E).
    match type of E with _ = Ok ?x => set (b1 := x) in E end.
    pose proof (set_wf b b1 i v Hwf Hi E) as Hwf1.
    assert (Hsz : size b1 = size b) by reflexivity.
    destruct (IH b1 Hwf1) as (b' & Hb' & Hwf' & Hsz').
    { rewrite Hsz. exact Hall. }
    exists b'. cbn [set_all]. rewrite E. cbn [mbind result_bind].
    rewrite Hb'. repeat split; try apply Hwf'. congruence.
Qed.

Lemma wf_null_count_scan (b : dynamic_bitset) :
  wf b -> null_count b = count_of false (bits b).
Proof.
  intros [Hs _ Hnc]. rewrite Hnc. unfold popcount, count_non_null.
  pose proof (count_of_split (bits b)) as H. rewrite bits_length in H.
  unfold size in *. lia.
Qed.

Lemma resize_empty (b : dynamic_bitset) (n : Z) (value : bool) :
  wf b -> size b = 0 ->
  m_buffer (resize b n value) = m_buffer (make n value)
  /\ m_size (resize b n value) = n.
Proof.
  intros [Hs Hst _] Hsz. unfold size in Hsz. rewrite Hsz in Hst.
  assert (Hnil : m_buffer b = []).
  { destruct (m_buffer b); [reflexivity|discriminate]. }
  unfold resize. rewrite Hsz, Hnil. cbn [m_buffer m_size make].
  replace (bit_index 0) with 0 by reflexivity.
  rewrite andb_false_r, resize_nil. split; reflexivity.
Qed.

(** *** The claims about validity bitmaps *)

(** C3: the bitmap built from a boolean sequence [bs] caches as its null
    count the number of [false] entries of [bs], and after any sequence of
    [set(i, v)] calls at positions below the size the cached count is still
    [size() - popcount(bits)], which is what a scan of the bits counts. *)
Theorem null_count_maintained (bs : list bool) (calls : list (Z * bool)) :
  Forall (fun c => 0 <= c.1 < Z.of_nat (List.length bs)) calls ->
  exists b0 b,
    of_range bs = Ok b0
    /\ size b0 = Z.of_nat (List.length bs)
    /\ bits b0 = bs
    /\ null_count b0 = count_of false bs
    /\ set_all calls b0 = Ok b
    /\ size b = size b0
    /\ null_count b = size b - popcount b
    /\ null_count b = count_of false (bits b).
Proof.
  intros Hcalls.
  destruct (of_range_spec bs) as (b0 & Hb0 & Hwf0 & Hsz0 & Hbits0).
  destruct (set_all_spec calls b0 Hwf0) as (b & Hb & Hwf & Hsz).
  { rewrite Hsz0. exact Hcalls. }
  exists b0, b. repeat split; try assumption.
  - rewrite (wf_null_count_scan b0 Hwf0), Hbits0. reflexivity.
  - apply Hwf.
  - apply wf_null_count_scan, Hwf.
Qed.

Lemma null_count_maintained_witness :
  exists b0 b,
    of_range [true; false; true; false] = Ok b0
    /\ size b0 = 4
    /\ bits b0 = [true; false; true; false]
    /\ null_count b0 = 2
    /\ set_all [(1, true); (0, false); (0, false); (3, true)] b0 = Ok b
    /\ size b = size b0
    /\ null_count b = size b - popcount b
    /\ null_count b = count_of false (bits b).
Proof.
  apply (null_count_maintained [true; false; true; false]
           [(1, true); (0, false); (0, false); (3, true)]).
  repeat constructor; simpl; lia.
Defined.

(** C6: for every length [n], [ensure_validity_bitmap(n, bitmap)] applied to
    a bitmap of size 0 gives a bitmap of size [n] whose bits are all [true]
    and whose null count is 0, through the copying overload and, for a
    bitmap whose storage matches its size, through the overload that
    resizes the moved-from bitmap. *)
Theorem ensure_validity_bitmap_empty (n : Z) (bitmap : validity_bitmap) :
  0 <= n -> size bitmap = 0 ->
  (size (ensure_validity_bitmap n bitmap) = n
   /\ bits (ensure_validity_bitmap n bitmap) = replicate (Z.to_nat n) true
   /\ null_count (ensure_validity_bitmap n bitmap) = 0)
  /\ (wf bitmap ->
      size (ensure_validity_bitmap_rvalue n bitmap) = n
      /\ bits (ensure_validity_bitmap_rvalue n bitmap) = replicate (Z.to_nat n) true
      /\ null_count (ensure_validity_bitmap_rvalue n bitmap) = 0).
Proof.
  intros Hn Hsz.
  unfold ensure_validity_bitmap, ensure_validity_bitmap_rvalue.
  rewrite Hsz. cbn [Z.eqb]. split.
  - split; [reflexivity|]. split; [apply make_bits|reflexivity].
  - intros Hwf. destruct (resize_empty bitmap n true Hwf Hsz) as [Hbuf Hsize].
    assert (Hbits : bits (resize bitmap n true) = replicate (Z.to_nat n) true).
    { unfold bits at 1. unfold size. rewrite Hbuf, Hsize.
      apply (make_bits n true). }
    split; [exact Hsize|]. split; [exact Hbits|].
    unfold null_count, resize at 1. cbn [m_null_count].
    unfold count_non_null.
    match goal with |- context [bits ?x] =>
      replace (bits x) with (bits (resize bitmap n true)) by reflexivity end.
    rewrite Hbits, count_of_replicate. cbn. lia.
Qed.

Lemma ensure_validity_bitmap_empty_witness :
  (size (ensure_validity_bitmap 11 empty) = 11
   /\ bits (ensure_validity_bitmap 11 empty) = replicate 11%nat true
   /\ null_count (ensure_validity_bitmap 11 empty) = 0)
  /\ (size (ensure_validity_bitmap_rvalue 11 empty) = 11
      /\ bits (ensure_validity_bitmap_rvalue 11 empty) = replicate 11%nat true
      /\ null_count (ensure_validity_bitmap_rvalue 11 empty) = 0).
Proof.
  destruct (ensure_validity_bitmap_empty 11 empty) as [Hcopy Hmove];
    [lia|reflexivity|].
  split; [exact Hcopy|]. apply Hmove.
  split; [simpl; lia|reflexivity|reflexivity].
Defined.

(** The unsigned marker of a boolean: 1 for [true], 0 for [false]. *)
Lemma marker_is_null (x : bool) : ((if x then 1 else 0) =? 0) = negb x.
Proof. destruct x; reflexivity. Qed.

(** C8: for a boolean sequence [bs] of length [n], the overload for ranges of
    booleans on [bs] and the overload for ranges of unsigned markers on the
    markers of [bs] (1 for [true], 0 for [false]) return the same bitmap:
    size [n], bits [bs], null count the number of [false] entries. *)
Theorem ensure_validity_bitmap_bools_markers (n : Z) (bs : list bool) :
  n = Z.of_nat (List.length bs) ->
  exists b,
    ensure_validity_bitmap_bools n bs = Ok b
    /\ ensure_validity_bitmap_indices n (map (fun x : bool => if x then 1 else 0) bs)
       = Ok b
    /\ size b = n /\ bits b = bs /\ null_count b = count_of false bs.
Proof.
  intros ->. destruct (of_range_spec bs) as (b & Hb & Hwf & Hsz & Hbits).
  unfold of_range in Hb. exists b.
  unfold ensure_validity_bitmap_bools, ensure_validity_bitmap_indices.
  rewrite Z.eqb_refl. cbn [orb].
  rewrite clear_nulls_map.
  rewrite (clear_nulls_ext (fun x : bool => (if x then 1 else 0) =? 0) negb)
    by apply marker_is_null.
  repeat split; try assumption.
  rewrite (wf_null_count_scan b Hwf), Hbits. reflexivity.
Qed.

Lemma ensure_validity_bitmap_bools_markers_witness :
  exists b,
    ensure_validity_bitmap_bools 3 [true; false; true] = Ok b
    /\ ensure_validity_bitmap_indices 3 [1; 0; 1] = Ok b
    /\ size b = 3 /\ bits b = [true; false; true] /\ null_count b = 1.
Proof.
  apply (ensure_validity_bitmap_bools_markers 3 [true; false; true]).
  reflexivity.
Defined.




(** *** More on the constructors and on the overloads *)

(** X2: [dynamic_bitset(n, value)] has size [n], every bit equal to [value],
    and a null count of 0 for [true] and of [n] for [false], which is the
    number of unset bits; [dynamic_bitset(n)] has every bit unset and a null
    count of [n]. *)
Theorem make_all_bits (n : Z) (value : bool) :
  0 <= n ->
  size (make n value) = n
  /\ bits (make n value) = replicate (Z.to_nat n) value
  /\ null_count (make n value) = (if value then 0 else n)
  /\ null_count (make n value) = count_of false (bits (make n value))
  /\ wf (make n value)
  /\ bits (make_unset n) = replicate (Z.to_nat n) false
  /\ null_count (make_unset n) = n.
Proof.
  intros Hn. split; [reflexivity|]. split; [apply make_bits|].
  split; [reflexivity|]. split; [apply wf_null_count_scan, make_wf, Hn|].
  split; [apply make_wf, Hn|]. split; [apply make_bits|reflexivity].
Qed.

Lemma make_all_bits_witness :
  bits (make 10 false) = replicate 10%nat false /\ null_count (make 10 false) = 10.
Proof.
  destruct (make_all_bits 10 false) as (_ & Hbits & Hnull & _); [lia|].
  split; [exact Hbits|exact Hnull].
Defined.

(** X3: the overload for ranges of booleans accepts an empty range for any
    size [n] and returns the all-valid bitmap of size [n]; a range that is
    not empty and whose length is not [n] fails the assertion. *)
Theorem ensure_validity_bitmap_bools_edges (n : Z) (range : list bool) :
  ensure_validity_bitmap_bools n [] = Ok (make n true)
  /\ (range <> [] -> Z.of_nat (List.length range) <> n ->
      ensure_validity_bitmap_bools n range = Err AssertionFailed).
Proof.
  split.
  - unfold ensure_validity_bitmap_bools. cbn. rewrite orb_true_r. reflexivity.
  - intros Hne Hlen. unfold ensure_validity_bitmap_bools.
    destruct (Z.eqb_spec n (Z.of_nat (List.length range))) as [E|_]; [lia|].
    destruct (Z.eqb_spec (Z.of_nat (List.length range)) 0) as [E|_].
    + destruct range; [contradiction|cbn in E; lia].
    + reflexivity.
Qed.

Lemma ensure_validity_bitmap_bools_edges_witness :
  ensure_validity_bitmap_bools 3 [true; false] = Err AssertionFailed.
Proof.
  apply (proj2 (ensure_validity_bitmap_bools_edges 3 [true; false]));
    [discriminate|simpl; lia].
Defined.

(** When [clear_nulls] fails, and what it leaves: it fails exactly when a
    null lies at a position at or beyond the size. *)
Lemma clear_nulls_result {A} (is_null : A -> bool) (r : list A) (i : nat)
    (b : dynamic_bitset) :
  wf b ->
  (Forall (fun x => x = false)
          (drop (Z.to_nat (size b) - i) (map is_null r)) ->
   exists b', clear_nulls is_null r (Z.of_nat i) b = Ok b'
              /\ wf b' /\ size b' = size b
              /\ bits b' = cleared is_null r i (bits b))
  /\ (~ Forall (fun x => x = false)
               (drop (Z.to_nat (size b) - i) (map is_null r)) ->
      clear_nulls is_null r (Z.of_nat i) b = Err AssertionFailed).
Proof.
  revert i b. induction r as [|value r IH]; intros i b Hwf.
  - split.
    + intros _. exists b. repeat split; try reflexivity; apply Hwf.
    + intros H. exfalso. apply H. cbn [map]. rewrite drop_nil. constructor.
  - cbn [clear_nulls cleared map].
    destruct (decide (Z.of_nat i < size b)) as [Hlt|Hge].
    + replace (Z.to_nat (size b) - i)%nat with (S (Z.to_nat (size b) - S i))%nat
        by lia.
      cbn [drop].
      destruct (is_null value) eqn:Hnull.
      * assert (Hpos : 0 <= Z.of_nat i < size b) by lia.
        destruct (set_Ok b (Z.of_nat i) false Hwf Hpos) as (block & _ & E).
        match type of E with _ = Ok ?x => set (b1 := x) in E end.
        destruct (set_bits b b1 _ false Hwf Hpos E) as (Hsz & _ & Hbits & _).
        pose proof (set_wf b b1 _ false Hwf Hpos E) as Hwf1.
        rewrite E. cbn [mbind result_bind].
        replace (Z.of_nat i + 1) with (Z.of_nat (S i)) by lia.
        destruct (IH (S i) b1 Hwf1) as [Hok Herr]. rewrite Hsz in Hok, Herr.
        split.
        -- intros Hall. destruct (Hok Hall) as (b' & Hb' & Hwf' & Hsz' & Hbits').
           exists b'. split; [exact Hb'|]. split; [exact Hwf'|].
           split; [congruence|]. rewrite Hbits', Hbits, Nat2Z.id. reflexivity.
        -- exact Herr.
      * cbn [mbind result_bind].
        replace (Z.of_nat i + 1) with (Z.of_nat (S i)) by lia.
        apply IH. exact Hwf.
    + replace (Z.to_nat (size b) - i)%nat with 0%nat by lia. cbn [drop].
      destruct (is_null value) eqn:Hnull.
      * split.
        -- intros Hall. apply Forall_cons in Hall as [Hv _]. discriminate.
        -- intros _. unfold set.
           destruct (Z.ltb_spec (Z.of_nat i) (size b)); [lia|].
           rewrite andb_false_r. reflexivity.
      * cbn [mbind result_bind].
        replace (Z.of_nat i + 1) with (Z.of_nat (S i)) by lia.
        destruct (IH (S i) b Hwf) as [Hok Herr].
        replace (Z.to_nat (size b) - S i)%nat with 0%nat in Hok, Herr by lia.
        cbn [drop] in Hok, Herr. split.
        -- intros Hall. apply Forall_cons in Hall as [_ Hall]. apply Hok, Hall.
        -- intros Hnot. apply Herr. intros Hall. apply Hnot.
           constructor; [reflexivity|exact Hall].
Qed.

Lemma cleared_length {A} (is_null : A -> bool) (r : list A) (i : nat)
    (old : list bool) :
  List.length (cleared is_null r i old) = List.length old.
Proof.
  revert i old. induction r as [|x r IH]; intros i old; [reflexivity|].
  cbn [cleared]. rewrite IH. destruct (is_null x); [apply length_insert|reflexivity].
Qed.

Lemma cleared_lookup {A} (is_null : A -> bool) (r : list A) (i j : nat)
    (old : list bool) :
  (j < List.length old)%nat ->
  cleared is_null r i old !! j
  = match (if decide (i <= j)%nat then r !! (j - i)%nat else None) with
    | Some x => if is_null x then Some false else old !! j
    | None => old !! j
    end.
Proof.
  revert i old. induction r as [|x r IH]; intros i old Hj.
  - cbn [cleared]. destruct (decide (i <= j)%nat); reflexivity.
  - cbn [cleared]. rewrite IH by (destruct (is_null x); [rewrite length_insert|]; exact Hj).
    destruct (decide (S i <= j)%nat) as [Hle|Hgt].
    + destruct (decide (i <= j)%nat) as [_|]; [|lia].
      replace (j - i)%nat with (S (j - S i))%nat by lia. cbn [lookup list_lookup].
      change (list_lookup (j - S i)%nat r) with (r !! (j - S i)%nat).
      assert (Hold : (if is_null x then <[i := false]> old else old) !! j = old !! j).
      { destruct (is_null x); [|reflexivity]. apply list_lookup_insert_ne. lia. }
      rewrite Hold. reflexivity.
    + destruct (decide (i <= j)%nat) as [Hle|Hlt].
      * assert (j = i) by lia. subst j. rewrite Nat.sub_diag. cbn [lookup list_lookup].
        destruct (is_null x); [|reflexivity].
        apply list_lookup_insert_eq. exact Hj.
      * destruct (is_null x); [|reflexivity]. apply list_lookup_insert_ne. lia.
Qed.

(** X4: the overload for ranges of unsigned markers does not compare the
    length of the range with the size [n].  When every zero marker lies at a
    position below [n], it returns a bitmap of size [n] in which bit [j] is
    unset exactly when marker [j] is zero, positions without a marker being
    valid, with the number of unset bits as null count; when a zero marker
    lies at position [n] or beyond, it fails the assertion of [set]. *)
Theorem ensure_validity_bitmap_indices_result (n : Z) (markers : list Z) :
  0 <= n ->
  (Forall (fun m => m <> 0) (drop (Z.to_nat n) markers) ->
   exists b,
     ensure_validity_bitmap_indices n markers = Ok b
     /\ size b = n
     /\ null_count b = count_of false (bits b)
     /\ forall j : nat,
          (j < Z.to_nat n)%nat ->
          bits b !! j = Some (match markers !! j with
                              | Some m => negb (m =? 0)
                              | None => true
                              end))
  /\ (~ Forall (fun m => m <> 0) (drop (Z.to_nat n) markers) ->
      ensure_validity_bitmap_indices n markers = Err AssertionFailed).
Proof.
  intros Hn. unfold ensure_validity_bitmap_indices.
  destruct (clear_nulls_result (fun value => value =? 0) markers 0
              (make n true) (make_wf n true Hn)) as [Hok Herr].
  cbn [size make m_size] in Hok, Herr. rewrite Nat.sub_0_r in Hok, Herr.
  assert (Hcond : Forall (fun x => x = false)
                    (drop (Z.to_nat n) (map (fun value => value =? 0) markers))
                  <-> Forall (fun m => m <> 0) (drop (Z.to_nat n) markers)).
  { rewrite <- fmap_drop. change (map ?f ?l) with (f <$> l).
    rewrite Forall_fmap. apply Forall_iff. intros m. cbn.
    destruct (Z.eqb_spec m 0); split; congruence. }
  split.
  - intros Hall. destruct (Hok (proj2 Hcond Hall)) as (b & Hb & Hwf & Hsz & Hbits).
    exists b. split; [exact Hb|]. split; [exact Hsz|].
    split; [apply wf_null_count_scan, Hwf|].
    intros j Hj. rewrite Hbits, make_bits, cleared_lookup
      by (rewrite length_replicate; exact Hj).
    destruct (decide (0 <= j)%nat) as [_|]; [|lia]. rewrite Nat.sub_0_r.
    rewrite lookup_replicate_2 by exact Hj.
    destruct (markers !! j) as [m|]; [|reflexivity].
    destruct (m =? 0); reflexivity.
  - intros Hnot. apply Herr. intros Hall. apply Hnot, Hcond, Hall.
Qed.

Lemma ensure_validity_bitmap_indices_result_witness :
  (exists b, ensure_validity_bitmap_indices 4 [1; 0; 7] = Ok b /\ size b = 4)
  /\ ensure_validity_bitmap_indices 2 [1; 1; 0] = Err AssertionFailed.
Proof.
  split.
  - destruct (ensure_validity_bitmap_indices_result 4 [1; 0; 7]) as [Hok _]; [lia|].
    destruct Hok as (b & Hb & Hsz & _); [constructor|].
    exists b. split; [exact Hb|exact Hsz].
  - destruct (ensure_validity_bitmap_indices_result 2 [1; 1; 0]) as [_ Herr]; [lia|].
    apply Herr. intros H. apply Forall_cons in H as [H _]. apply H. reflexivity.
Defined.

(** X6: normalising twice is normalising once, and validity given as
    booleans may as well be given as the bitmap constructed from them: for
    a range [bs] of length [n], the overload for ranges of booleans returns
    what [ensure_validity_bitmap] returns on [dynamic_bitset(bs)]. *)
Theorem ensure_validity_bitmap_idempotent (n : Z) (bitmap : validity_bitmap)
    (bs : list bool) :
  ensure_validity_bitmap n (ensure_validity_bitmap n bitmap)
  = ensure_validity_bitmap n bitmap
  /\ (n = Z.of_nat (List.length bs) ->
      exists b, of_range bs = Ok b
                /\ ensure_validity_bitmap_bools n bs
                   = Ok (ensure_validity_bitmap n b)).
Proof.
  split.
  - unfold ensure_validity_bitmap.
    destruct (Z.eqb_spec (size bitmap) 0) as [Hsz|Hsz].
    + cbn [size make m_size]. destruct (Z.eqb_spec n 0); reflexivity.
    + destruct (Z.eqb_spec (size bitmap) 0); [contradiction|reflexivity].
  - intros ->. destruct (of_range_spec bs) as (b & Hb & _ & Hsz & _).
    exists b. split; [exact Hb|].
    unfold ensure_validity_bitmap_bools. rewrite Z.eqb_refl. cbn [orb].
    unfold of_range in Hb. rewrite Hb. f_equal.
    unfold ensure_validity_bitmap.
    destruct (Z.eqb_spec (size b) 0) as [E|]; [|reflexivity].
    rewrite Hsz in E. destruct bs; [|cbn in E; lia].
    cbn in Hb. injection Hb as <-. reflexivity.
Qed.

Lemma ensure_validity_bitmap_idempotent_witness :
  exists b, of_range [true; false] = Ok b
            /\ ensure_validity_bitmap_bools 2 [true; false]
               = Ok (ensure_validity_bitmap 2 b).
Proof.
  apply (proj2 (ensure_validity_bitmap_idempotent 2 empty [true; false])).
  reflexivity.
Defined.

End BitsetFacts.

(** ** Buffers in memory *)

Module MemoryFacts.
Import Memory.

(** *** Typed reads *)

Lemma encode_le_length (width : nat) (x : Z) :
  List.length (encode_le width x) = width.
Proof.
  revert x. induction width as [|w IH]; intros x; [reflexivity|].
  cbn [encode_le List.length]. rewrite IH. reflexivity.
Qed.

Lemma encode_all_length (width : nat) (xs : list Z) :
  List.length (encode_all width xs) = (List.length xs * width)%nat.
Proof.
  unfold encode_all. induction xs as [|x xs IH]; [reflexivity|].
  cbn [map concat List.length]. rewrite length_app, encode_le_length, IH. lia.
Qed.

Lemma decode_encode_le (width : nat) (x : Z) :
  0 <= x < 256 ^ Z.of_nat width -> decode_le (encode_le width x) = x.
Proof.
  revert x. induction width as [|w IH]; intros x Hx.
  - cbn in *. lia.
  - cbn [encode_le decode_le]. rewrite IH.
    + pose proof (Z.div_mod x 256 ltac:(lia)). lia.
    + rewrite Nat2Z.inj_succ, Z.pow_succ_r in Hx by lia.
      split; [apply Z.div_pos; lia|].
      apply Z.div_lt_upper_bound; lia.
Qed.

Lemma load_le_decode (h : store) (a : addr) (pre bytes post : list Z) :
  contents h a = pre ++ bytes ++ post ->
  load_le h a (Z.of_nat (List.length pre)) (List.length bytes)
  = Some (decode_le bytes).
Proof.
  revert pre. induction bytes as [|b bytes IH]; intros pre Hc; [reflexivity|].
  cbn [List.length load_le decode_le].
  unfold load_byte. destruct (Z.leb_spec 0 (Z.of_nat (List.length pre))); [|lia].
  rewrite Hc, Nat2Z.id, lookup_app_r by lia.
  rewrite Nat.sub_diag. cbn [lookup list_lookup app mbind option_bind].
  replace (Z.of_nat (List.length pre) + 1)
    with (Z.of_nat (List.length (pre ++ [b])))
    by (rewrite length_app; cbn; lia).
  rewrite (IH (pre ++ [b])) by (rewrite Hc, <- app_assoc; reflexivity).
  reflexivity.
Qed.

(** Element [i] of a sequence of integers encoded at the pointer. *)
Lemma load_at_encoded (h : store) (p : pointer) (width : nat)
    (pre post : list Z) (xs : list Z) (i : nat) (x : Z) :
  contents h (ptr_base p) = pre ++ encode_all width xs ++ post ->
  Z.of_nat (List.length pre) = ptr_byte p ->
  xs !! i = Some x -> 0 <= x < 256 ^ Z.of_nat width ->
  load_at h p width (Z.of_nat i) = Some x.
Proof.
  intros Hc Hpre Hi Hx. unfold load_at.
  pose proof (take_drop_middle xs i x Hi) as Hsplit.
  assert (Hlen : List.length (take i xs) = i).
  { apply length_take_le. apply lookup_lt_Some in Hi. lia. }
  rewrite <- Hsplit in Hc. unfold encode_all in Hc.
  rewrite map_app, concat_app in Hc. cbn [map concat] in Hc.
  rewrite <- !app_assoc in Hc. rewrite app_assoc in Hc.
  replace (ptr_byte p + Z.of_nat i * Z.of_nat width)
    with (Z.of_nat (List.length (pre ++ concat (map (encode_le width) (take i xs))))).
  - rewrite <- (encode_le_length width x) at 2.
    rewrite (load_le_decode _ _ _ _ _ Hc), decode_encode_le by exact Hx.
    reflexivity.
  - rewrite length_app. fold (encode_all width (take i xs)).
    rewrite encode_all_length, Hlen. lia.
Qed.

(** *** Allocation and deep copies *)

Lemma contents_subseteq (h h' : store) (a : addr) :
  h ⊆ h' -> a ∈ dom h -> contents h' a = contents h a.
Proof.
  intros Hsub Ha. apply elem_of_dom in Ha as [bytes Hbytes].
  unfold contents. rewrite Hbytes.
  rewrite (lookup_weaken _ _ _ _ Hbytes Hsub). reflexivity.
Qed.

Lemma allocate_spec (h h' : store) (bytes : list Z) (a : addr) :
  allocate h bytes = (a, h') ->
  (a ∉ dom h) /\ (a ∈ dom h') /\ (h ⊆ h') /\ contents h' a = bytes.
Proof.
  unfold allocate. intros [= <- <-].
  pose proof (is_fresh (dom h)) as Hfresh.
  split; [exact Hfresh|]. split; [|split].
  - apply elem_of_dom. rewrite lookup_insert_eq. eauto.
  - apply insert_subseteq. apply not_elem_of_dom. exact Hfresh.
  - unfold contents. rewrite lookup_insert_eq. reflexivity.
Qed.

Lemma fresh_in_weaken (h0 h h' h'' : store) (addrs : list addr) :
  h0 ⊆ h -> h' ⊆ h'' -> fresh_in h h' addrs -> fresh_in h0 h'' addrs.
Proof.
  intros H0 H1 Hf. unfold fresh_in in *.
  eapply Forall_impl; [exact Hf|]. cbn. intros a [Hn Hi]. split.
  - intros Ha. apply Hn. eapply subseteq_dom; eauto.
  - eapply subseteq_dom; eauto.
Qed.

Lemma copy_buffers_spec (buffers : list addr) (h : store)
    (copies : list addr) (h' : store) :
  copy_buffers buffers h = (copies, h') ->
  (h ⊆ h') /\ fresh_in h h' copies
  /\ List.length copies = List.length buffers
  /\ (Forall (fun a => a ∈ dom h) buffers ->
      map (contents h') copies = map (contents h) buffers).
Proof.
  revert h copies h'. induction buffers as [|a buffers IH]; intros h copies h' Hc.
  - injection Hc as <- <-.
    split; [reflexivity|]. split; [constructor|]. split; reflexivity.
  - cbn [copy_buffers] in Hc.
    destruct (allocate h (contents h a)) as [a' h1] eqn:Halloc.
    destruct (copy_buffers buffers h1) as [copies' h2] eqn:Hrest.
    injection Hc as <- <-.
    destruct (allocate_spec _ _ _ _ Halloc) as (Hnew & Hin & Hsub & Hbytes).
    destruct (IH _ _ _ Hrest) as (Hsub' & Hfresh & Hlen & Hsame).
    split; [etrans; eauto|]. split; [|split].
    + constructor.
      * split; [exact Hnew|]. eapply subseteq_dom; eauto.
      * eapply fresh_in_weaken; [exact Hsub|reflexivity|exact Hfresh].
    + cbn. rewrite Hlen. reflexivity.
    + intros Hlive. apply Forall_cons in Hlive as [Ha Hlive]. cbn [map]. f_equal.
      * rewrite (contents_subseteq h1 h2 a' Hsub' Hin). exact Hbytes.
      * rewrite Hsame.
        -- apply map_ext_in. intros x Hx. apply contents_subseteq; [exact Hsub|].
           apply (proj1 (Forall_forall _ _) Hlive). apply list_elem_of_In. exact Hx.
        -- eapply Forall_impl; [exact Hlive|]. cbn. intros x Hx.
           eapply subseteq_dom; eauto.
Qed.

Lemma fresh_in_app (h h' : store) (l1 l2 : list addr) :
  fresh_in h h' l1 -> fresh_in h h' l2 -> fresh_in h h' (l1 ++ l2).
Proof. unfold fresh_in. intros H1 H2. apply Forall_app. split; assumption. Qed.

Lemma map_contents_subseteq (h h' : store) (addrs : list addr) :
  h ⊆ h' -> Forall (fun a => a ∈ dom h) addrs ->
  map (contents h') addrs = map (contents h) addrs.
Proof.
  intros Hsub Hlive. apply map_ext_in. intros x Hx.
  apply contents_subseteq; [exact Hsub|].
  apply (proj1 (Forall_forall _ _) Hlive). apply list_elem_of_In. exact Hx.
Qed.

Lemma live_weaken (h h' : store) (addrs : list addr) :
  h ⊆ h' -> Forall (fun a => a ∈ dom h) addrs -> Forall (fun a => a ∈ dom h') addrs.
Proof.
  intros Hsub Hlive. eapply Forall_impl; [exact Hlive|]. cbn. intros x Hx.
  eapply subseteq_dom; eauto.
Qed.

Lemma fresh_in_live (h h' : store) (addrs : list addr) :
  fresh_in h h' addrs -> Forall (fun a => a ∈ dom h') addrs.
Proof.
  intros Hf. eapply Forall_impl; [exact Hf|]. cbn. intros x [_ Hx]. exact Hx.
Qed.

Lemma copy_children_spec (children : list arrow_proxy) :
  Forall copies_well children ->
  forall (h : store) (children' : list arrow_proxy) (h' : store),
    copy_children children h = (children', h') ->
    (h ⊆ h')
    /\ fresh_in h h' (concat (map Arrow.proxy_addrs children'))
    /\ List.length children' = List.length children
    /\ (Forall (fun a => a ∈ dom h) (concat (map Arrow.proxy_addrs children)) ->
        map (contents h') (concat (map Arrow.proxy_addrs children'))
        = map (contents h) (concat (map Arrow.proxy_addrs children))).
Proof.
  induction 1 as [|x children Hx Hchildren IH]; intros h children' h' Hc.
  - injection Hc as <- <-.
    split; [reflexivity|]. split; [constructor|]. split; reflexivity.
  - cbn [copy_children] in Hc.
    destruct (copy_proxy x h) as [x' h1] eqn:Hcopy.
    destruct (copy_children children h1) as [rest h2] eqn:Hrest.
    injection Hc as <- <-.
    destruct (Hx _ _ _ Hcopy) as (Hsub & Hfresh & _ & _ & _ & _ & _ & Hsame).
    destruct (IH _ _ _ Hrest) as (Hsub' & Hfresh' & Hlen & Hsame').
    split; [etrans; eauto|]. split; [|split].
    + cbn [map concat]. apply fresh_in_app.
      * eapply fresh_in_weaken; [reflexivity|exact Hsub'|exact Hfresh].
      * eapply fresh_in_weaken; [exact Hsub|reflexivity|exact Hfresh'].
    + cbn. rewrite Hlen. reflexivity.
    + cbn [map concat]. intros Hlive. apply Forall_app in Hlive as [Hlx Hlr].
      rewrite !map_app. f_equal.
      * rewrite (map_contents_subseteq h1 h2) by
          (try exact Hsub'; eapply fresh_in_live; exact Hfresh).
        apply Hsame. exact Hlx.
      * rewrite Hsame' by (eapply live_weaken; eauto).
        apply map_contents_subseteq; assumption.
Qed.

Lemma copy_proxy_unfold (f : string) (n c o : Z) (buffers : list addr)
    (children : list arrow_proxy) (h : store) :
  copy_proxy (Arrow.ArrowProxy f n c o buffers children) h
  = let '(buffers', h1) := copy_buffers buffers h in
    let '(children', h2) := copy_children children h1 in
    (Arrow.ArrowProxy f n c o buffers' children', h2).
Proof. reflexivity. Qed.

Lemma copy_proxy_spec (p : arrow_proxy) : copies_well p.
Proof.
  induction p as [f n c o buffers children IH] using Arrow.arrow_proxy_ind.
  intros h p' h' Hc. rewrite copy_proxy_unfold in Hc.
  destruct (copy_buffers buffers h) as [buffers' h1] eqn:Hbuffers.
  destruct (copy_children children h1) as [children' h2] eqn:Hchildren.
  injection Hc as <- <-.
  destruct (copy_buffers_spec _ _ _ _ Hbuffers) as (Hsub & Hfresh & Hlen & Hsame).
  destruct (copy_children_spec children IH _ _ _ Hchildren)
    as (Hsub' & Hfresh' & Hlen' & Hsame').
  split; [etrans; eauto|]. split; [|repeat split; try assumption].
  - cbn [Arrow.proxy_addrs]. apply fresh_in_app.
    + eapply fresh_in_weaken; [reflexivity|exact Hsub'|exact Hfresh].
    + eapply fresh_in_weaken; [exact Hsub|reflexivity|exact Hfresh'].
  - unfold snapshot_of. cbn [Arrow.proxy_addrs]. intros Hlive.
    apply Forall_app in Hlive as [Hlb Hlc]. rewrite !map_app. f_equal.
    + rewrite (map_contents_subseteq h1 h2) by
        (try exact Hsub'; eapply fresh_in_live; exact Hfresh).
      apply Hsame. exact Hlb.
    + rewrite Hsame' by (eapply live_weaken; eauto).
      apply map_contents_subseteq; assumption.
Qed.

(** Child 0 of a proxy: its buffers are among those of the proxy, and
    child 0 of a deep copy reads what child 0 of the original reads. *)
Lemma child_addrs (p child : arrow_proxy) (rest : list arrow_proxy) (x : addr) :
  Arrow.children p = child :: rest ->
  x ∈ Arrow.proxy_addrs child -> x ∈ Arrow.proxy_addrs p.
Proof.
  destruct p as [f n c o buffers children]. cbn [Arrow.children Arrow.proxy_addrs].
  intros -> Hx. cbn [map concat]. rewrite !elem_of_app. right. left. exact Hx.
Qed.

Lemma copy_proxy_child (p p' : arrow_proxy) (h h' : store)
    (child : arrow_proxy) (rest : list arrow_proxy) :
  copy_proxy p h = (p', h') ->
  Forall (fun x => x ∈ dom h) (Arrow.proxy_addrs p) ->
  Arrow.children p = child :: rest ->
  exists child' rest',
    Arrow.children p' = child' :: rest'
    /\ snapshot_of h' child' = snapshot_of h child.
Proof.
  destruct p as [f n c o buffers children]. cbn [Arrow.children].
  intros Hc Hlive ->. rewrite copy_proxy_unfold in Hc.
  destruct (copy_buffers buffers h) as [buffers' h1] eqn:Hbuffers.
  destruct (copy_children (child :: rest) h1) as [children' h2] eqn:Hchildren.
  injection Hc as <- <-.
  cbn [copy_children] in Hchildren.
  destruct (copy_proxy child h1) as [child' ha] eqn:Hchild.
  fold copy_children in Hchildren.
  destruct (copy_children rest ha) as [rest' hb] eqn:Hrest.
  injection Hchildren as <- <-.
  exists child', rest'. split; [reflexivity|].
  destruct (copy_buffers_spec _ _ _ _ Hbuffers) as (Hsub & _).
  destruct (copy_proxy_spec child _ _ _ Hchild) as (_ & Hfresh & _ & _ & _ & _ & _ & Hsnap).
  destruct (copy_children_spec rest
              (proj2 (Forall_forall _ _) (fun x _ => copy_proxy_spec x)) _ _ _ Hrest)
    as (Hsub' & _).
  cbn [Arrow.proxy_addrs map concat] in Hlive.
  apply Forall_app in Hlive as [_ Hlive]. apply Forall_app in Hlive as [Hlive _].
  unfold snapshot_of in *.
  rewrite (map_contents_subseteq ha hb) by
    (try exact Hsub'; eapply fresh_in_live; exact Hfresh).
  rewrite Hsnap by (eapply live_weaken; eauto).
  apply map_contents_subseteq; assumption.
Qed.

(** *** Writing into a store *)

Lemma store_byte_other (h : store) (a x : addr) (pos : nat) (byte : Z) :
  x <> a -> store_byte h a pos byte !! x = h !! x.
Proof. intros Hne. unfold store_byte. apply lookup_alter_ne. congruence. Qed.

(** Two stores that agree on the addresses of a proxy read the same through
    it. *)
Lemma snapshot_agree (h h' : store) (p : arrow_proxy) :
  (forall x, x ∈ Arrow.proxy_addrs p -> h' !! x = h !! x) ->
  snapshot_of h' p = snapshot_of h p.
Proof.
  intros Hagree. unfold snapshot_of. apply map_ext_in. intros x Hx.
  unfold contents. rewrite Hagree; [reflexivity|]. apply list_elem_of_In. exact Hx.
Qed.

Lemma store_bytes_other (writes : list (addr * nat * Z)) (h : store) (x : addr) :
  Forall (fun w => w.1.1 <> x) writes -> store_bytes writes h !! x = h !! x.
Proof.
  revert h. induction writes as [|[[a pos] byte] writes IH]; intros h Hall.
  - reflexivity.
  - apply Forall_cons in Hall as [Hne Hall]. cbn in Hne.
    cbn [store_bytes fold_left]. fold (store_bytes writes (store_byte h a pos byte)).
    rewrite IH by exact Hall. apply store_byte_other.
    intros E. apply Hne. symmetry. exact E.
Qed.

Lemma load_le_agree (h h' : store) (a a' : addr) (pos : Z) (width : nat) :
  contents h' a' = contents h a ->
  load_le h' a' pos width = load_le h a pos width.
Proof.
  intros Ha. revert pos. induction width as [|w IH]; intros pos; [reflexivity|].
  cbn [load_le]. unfold load_byte. rewrite Ha, IH. reflexivity.
Qed.

Lemma contents_agree (h h' : store) (a : addr) :
  h' !! a = h !! a -> contents h' a = contents h a.
Proof. intros Ha. unfold contents. rewrite Ha. reflexivity. Qed.

(** Equal snapshots of proxies of one shape: buffer by buffer, the same
    bytes. *)
Lemma snapshot_buffer (h h' : store) (p p' : arrow_proxy) (k : nat) (a a' : addr) :
  snapshot_of h' p' = snapshot_of h p ->
  List.length (Arrow.buffers p') = List.length (Arrow.buffers p) ->
  Arrow.buffers p !! k = Some a -> Arrow.buffers p' !! k = Some a' ->
  contents h' a' = contents h a.
Proof.
  unfold snapshot_of. destruct p as [f n c o bs cs], p' as [f' n' c' o' bs' cs'].
  cbn [Arrow.proxy_addrs Arrow.buffers]. rewrite !map_app.
  intros Hsnap Hlen Ha Ha'.
  apply app_inj_1 in Hsnap as [Hbuffers _]; [|rewrite !length_map; exact Hlen].
  assert (Hk : map (contents h') bs' !! k = map (contents h) bs !! k)
    by (rewrite Hbuffers; reflexivity).
  rewrite !list_lookup_fmap, Ha, Ha' in Hk. cbn in Hk. congruence.
Qed.

End MemoryFacts.

(** ** The list layouts *)

Module ListArrayFacts.
Import Memory ListArray Factory.

(** *** Offsets from sizes *)

Lemma prefix_sums_length (first : Z) (sizes : list Z) :
  List.length (prefix_sums first sizes) = S (List.length sizes).
Proof.
  revert first. induction sizes as [|s sizes IH]; intros first; [reflexivity|].
  cbn [prefix_sums List.length]. rewrite IH. reflexivity.
Qed.

Lemma prefix_sums_head (first : Z) (sizes : list Z) :
  prefix_sums first sizes !! 0%nat = Some first.
Proof. destruct sizes; reflexivity. Qed.

Lemma prefix_sums_step (first : Z) (sizes : list Z) (k : nat) (s : Z) :
  sizes !! k = Some s ->
  exists o, prefix_sums first sizes !! k = Some o
            /\ prefix_sums first sizes !! S k = Some (o + s).
Proof.
  revert first k. induction sizes as [|x sizes IH]; intros first k Hk.
  - discriminate.
  - destruct k as [|k].
    + injection Hk as ->. exists first. split; [reflexivity|].
      cbn [prefix_sums]. apply (prefix_sums_head (first + s) sizes).
    + cbn in Hk. destruct (IH (first + x) k Hk) as (o & Ho & Ho').
      exists o. split; assumption.
Qed.

(** Offsets of sizes that are not negative grow, and stay below any bound
    that their sum stays below: they fit the offset type when the total
    does. *)
Lemma prefix_sums_bounded (first bound : Z) (sizes : list Z) :
  Forall (fun s => 0 <= s) sizes -> 0 <= first ->
  first + foldr Z.add 0 sizes < bound ->
  Forall (fun o => 0 <= o < bound) (prefix_sums first sizes).
Proof.
  intros Hs. revert first. induction Hs as [|s sizes Hs0 Hs IH]; intros first H0 Hb.
  - cbn in *. constructor; [lia|constructor].
  - cbn [prefix_sums foldr] in *.
    assert (0 <= foldr Z.add 0 sizes).
    { clear -Hs. induction Hs; cbn; lia. }
    constructor; [lia|]. apply IH; lia.
Qed.

Lemma offsets_from_length (width : nat) (first : Z) (sizes : list Z) :
  List.length (offsets_from width first sizes) = S (List.length sizes).
Proof.
  revert first. induction sizes as [|s sizes IH]; intros first; [reflexivity|].
  cbn [offsets_from List.length]. rewrite IH. reflexivity.
Qed.

Lemma offsets_from_head (width : nat) (first : Z) (sizes : list Z) :
  offsets_from width first sizes !! 0%nat = Some first.
Proof. destruct sizes; reflexivity. Qed.

(** Each offset is the one before it plus the size, in the offset type. *)
Lemma offsets_from_step (width : nat) (first : Z) (sizes : list Z) (k : nat) (s : Z) :
  sizes !! k = Some s ->
  exists o, offsets_from width first sizes !! k = Some o
            /\ offsets_from width first sizes !! S k
               = Some ((o + s) mod 256 ^ Z.of_nat width).
Proof.
  revert first k. induction sizes as [|x sizes IH]; intros first k Hk.
  - discriminate.
  - destruct k as [|k].
    + injection Hk as ->. exists first. split; [reflexivity|].
      cbn [offsets_from]. apply (offsets_from_head width _ sizes).
    + cbn in Hk.
      destruct (IH ((first + x) mod 256 ^ Z.of_nat width) k Hk) as (o & Ho & Ho').
      exists o. split; assumption.
Qed.

Lemma offsets_from_range (width : nat) (first : Z) (sizes : list Z) :
  0 <= first < 256 ^ Z.of_nat width ->
  Forall (fun o => 0 <= o < 256 ^ Z.of_nat width) (offsets_from width first sizes).
Proof.
  revert first. induction sizes as [|s sizes IH]; intros first Hfirst.
  - constructor; [exact Hfirst|constructor].
  - cbn [offsets_from]. constructor; [exact Hfirst|].
    apply IH. apply Z.mod_pos_bound. lia.
Qed.

(** As long as the sum of the sizes fits the offset type, no sum wraps. *)
Lemma offsets_from_fits (width : nat) (first : Z) (sizes : list Z) :
  Forall (fun s => 0 <= s) sizes -> 0 <= first ->
  first + foldr Z.add 0 sizes < 256 ^ Z.of_nat width ->
  offsets_from width first sizes = prefix_sums first sizes.
Proof.
  intros Hs. revert first.
  induction Hs as [|s sizes Hs0 Hs IH]; intros first H0 Hb; [reflexivity|].
  cbn [offsets_from prefix_sums foldr] in *.
  assert (0 <= foldr Z.add 0 sizes) by (clear -Hs; induction Hs; cbn; lia).
  rewrite Z.mod_small by lia. rewrite IH by lia. reflexivity.
Qed.

Lemma offset_from_sizes_fits (big : bool) (sizes : list Z) :
  Forall (fun s => 0 <= s) sizes ->
  foldr Z.add 0 sizes < 256 ^ Z.of_nat (offset_width big) ->
  offset_from_sizes big sizes = prefix_sums 0 sizes.
Proof.
  intros Hs Hfits. unfold offset_from_sizes, offset_buffer_from_sizes.
  apply offsets_from_fits; [exact Hs|lia|lia].
Qed.

(** C2, as stated, fails: the offsets are 32-bit integers, 64-bit ones for
    big lists, and the sizes 4294967295, 1 and 5 sum past [2^32]: the
    offset after 4294967295 wraps to 0, so that the second difference is
    not the second size.  No buffer of 32-bit offsets that starts at 0 has
    these sizes as its differences. *)
Lemma offset_from_sizes_wraps :
  Forall (fun s => 0 <= s) [4294967295; 1; 5]
  /\ offset_from_sizes false [4294967295; 1; 5] = [0; 4294967295; 0; 5]
  /\ ~ (forall (k : nat) (s : Z),
          [4294967295; 1; 5] !! k = Some s ->
          exists o o',
            offset_from_sizes false [4294967295; 1; 5] !! k = Some o
            /\ offset_from_sizes false [4294967295; 1; 5] !! (k + 1)%nat = Some o'
            /\ o' - o = s)
  /\ forall offsets : list Z,
       Forall (fun o => 0 <= o < 256 ^ Z.of_nat (offset_width false)) offsets ->
       offsets !! 0%nat = Some 0 ->
       ~ (forall (k : nat) (s : Z),
            [4294967295; 1; 5] !! k = Some s ->
            exists o o',
              offsets !! k = Some o /\ offsets !! (k + 1)%nat = Some o'
              /\ o' - o = s).
Proof.
  split; [repeat constructor; lia|]. split; [reflexivity|]. split.
  - intros H. destruct (H 1%nat 1 eq_refl) as (o & o' & Ho & Ho' & Hd).
    vm_compute in Ho, Ho'. injection Ho as <-. injection Ho' as <-. lia.
  - intros offsets Hrange H0 H.
    destruct (H 0%nat 4294967295 eq_refl) as (o0 & o1 & Ho0 & Ho1 & Hd0).
    destruct (H 1%nat 1 eq_refl) as (o1' & o2 & Ho1' & Ho2 & Hd1).
    cbn in Ho1, Ho1', Ho2.
    rewrite H0 in Ho0. injection Ho0 as <-.
    rewrite Ho1 in Ho1'. injection Ho1' as <-.
    pose proof (proj1 (Forall_lookup _ _) Hrange _ _ Ho2) as Hb.
    cbn in Hb. lia.
Qed.

(** C2 (amended): for every sequence of sizes that are not negative, the
    offsets returned by [offset_from_sizes] start at 0, have one element
    more than the sizes and are integers of the offset type, each the one
    before it plus the size in that type: [offsets[k+1] - offsets[k]] is
    [sizes[k]] modulo [2^32], [2^64] for big lists.  When the sum of the
    sizes fits the offset type, [offsets[k+1] - offsets[k]] is [sizes[k]]
    for every [k] in range. *)
Theorem offset_from_sizes_prefix_sum (big : bool) (sizes : list Z) :
  Forall (fun s => 0 <= s) sizes ->
  offset_from_sizes big sizes !! 0%nat = Some 0
  /\ List.length (offset_from_sizes big sizes) = (List.length sizes + 1)%nat
  /\ Forall (fun o => 0 <= o < 256 ^ Z.of_nat (offset_width big))
            (offset_from_sizes big sizes)
  /\ (forall (k : nat) (s : Z),
        sizes !! k = Some s ->
        exists o o',
          offset_from_sizes big sizes !! k = Some o
          /\ offset_from_sizes big sizes !! (k + 1)%nat = Some o'
          /\ o' = (o + s) mod 256 ^ Z.of_nat (offset_width big)
          /\ (o' - o) mod 256 ^ Z.of_nat (offset_width big)
             = s mod 256 ^ Z.of_nat (offset_width big))
  /\ (foldr Z.add 0 sizes < 256 ^ Z.of_nat (offset_width big) ->
      forall (k : nat) (s : Z),
        sizes !! k = Some s ->
        exists o o',
          offset_from_sizes big sizes !! k = Some o
          /\ offset_from_sizes big sizes !! (k + 1)%nat = Some o'
          /\ o' - o = s).
Proof.
  intros Hsizes.
  split; [apply offsets_from_head|].
  split; [unfold offset_from_sizes, offset_buffer_from_sizes;
          rewrite offsets_from_length; lia|].
  split; [apply offsets_from_range; split; [lia|apply Z.pow_pos_nonneg; lia]|].
  split.
  - intros k s Hk. unfold offset_from_sizes, offset_buffer_from_sizes.
    destruct (offsets_from_step (offset_width big) 0 sizes k s Hk) as (o & Ho & Ho').
    exists o, ((o + s) mod 256 ^ Z.of_nat (offset_width big)).
    rewrite Nat.add_1_r. split; [exact Ho|]. split; [exact Ho'|].
    split; [reflexivity|].
    rewrite Zminus_mod_idemp_l. f_equal. lia.
  - intros Hfits k s Hk. rewrite (offset_from_sizes_fits big sizes Hsizes Hfits).
    destruct (prefix_sums_step 0 sizes k s Hk) as (o & Ho & Ho').
    exists o, (o + s). rewrite Nat.add_1_r. repeat split; try assumption. lia.
Qed.

(** The sizes of the list layout test: offsets [0; 1; 3; 6; 10]. *)
Lemma offset_from_sizes_prefix_sum_witness :
  offset_from_sizes false [1; 2; 3; 4] = [0; 1; 3; 6; 10]
  /\ (foldr Z.add 0 [1; 2; 3; 4] < 256 ^ Z.of_nat (offset_width false) ->
      forall (k : nat) (s : Z),
        [1; 2; 3; 4] !! k = Some s ->
        exists o o',
          offset_from_sizes false [1; 2; 3; 4] !! k = Some o
          /\ offset_from_sizes false [1; 2; 3; 4] !! (k + 1)%nat = Some o'
          /\ o' - o = s).
Proof.
  split; [reflexivity|].
  apply (offset_from_sizes_prefix_sum false [1; 2; 3; 4]).
  repeat constructor; lia.
Defined.

(** *** Parsing the list size *)

Lemma read_digits_Some (s : string) (v : Z) :
  exists w, read_digits s (Some v) = Some w.
Proof.
  revert v. induction s as [|c s IH]; intros v; cbn [read_digits].
  - exists v. reflexivity.
  - destruct (digit_of c); [apply IH|exists v; reflexivity].
Qed.

Lemma read_digits_None (s : string) :
  read_digits s None = None
  <-> match s with String c _ => is_digit c | EmptyString => false end = false.
Proof.
  destruct s as [|c s]; cbn [read_digits]; [tauto|].
  unfold is_digit. destruct (digit_of c) as [d|].
  - destruct (read_digits_Some s (10 * default 0 None + d)) as [w ->].
    split; discriminate.
  - tauto.
Qed.

Lemma stoull_invalid_argument (str : string) :
  stoull str = Err invalid_argument <-> has_leading_number str = false.
Proof.
  unfold stoull, has_leading_number.
  destruct (skip_sign (skip_spaces str)) as [negative digits]. cbn [snd].
  rewrite <- read_digits_None.
  destruct (read_digits digits None) as [v|]; [|tauto].
  destruct (v <? 2 ^ 64); split; discriminate.
Qed.

(** C5, as stated, fails: the suffix ["3x"] is not a valid non-negative
    integer, yet the list size is parsed as 3 and the layout is built; so
    it is with a sign or with leading white space. *)
Lemma list_size_from_format_trailing_garbage :
  valid_list_size (format_suffix "+w:3x") = false
  /\ list_size_from_format "+w:3x" = Ok 3
  /\ fixed_sized_list_array_of_proxy factory_v01
       (Arrow.ArrowProxy "+w:3x" 2 0 0 [0%nat] [Arrow.proxy_with_format "i"])
     = Ok (mk_fixed_sized_list_array
             (Arrow.ArrowProxy "+w:3x" 2 0 0 [0%nat] [Arrow.proxy_with_format "i"])
             (Factory.primitive_array Factory.int32_t (Arrow.proxy_with_format "i"))
             3)
  /\ valid_list_size (format_suffix "+w:-1") = false
  /\ list_size_from_format "+w:-1" = Ok 18446744073709551615
  /\ valid_list_size (format_suffix "+w: 7") = false
  /\ list_size_from_format "+w: 7" = Ok 7.
Proof. repeat split. Qed.

(** C5 (amended): constructing a [fixed_sized_list_array] from a proxy whose
    format suffix after the three-character tag does not start, after
    optional white space and an optional sign, with a decimal digit fails:
    the list size is not parsed ([std::invalid_argument] of [std::stoull]),
    and this is the only way in which parsing reports an invalid number. *)
Theorem list_size_from_format_invalid {array_wrapper : Type}
    (array_factory : arrow_proxy -> option array_wrapper) (proxy : arrow_proxy) :
  (3 <= String.length (Arrow.format proxy))%nat ->
  (has_leading_number (format_suffix (Arrow.format proxy)) = false ->
   list_size_from_format (Arrow.format proxy) = Err invalid_argument
   /\ ~ is_Ok (fixed_sized_list_array_of_proxy array_factory proxy)
   /\ forall flat, make_flat_array array_factory proxy = Ok flat ->
       fixed_sized_list_array_of_proxy array_factory proxy = Err invalid_argument)
  /\ (list_size_from_format (Arrow.format proxy) = Err invalid_argument ->
      has_leading_number (format_suffix (Arrow.format proxy)) = false).
Proof.
  intros Hlen.
  assert (Hparse : list_size_from_format (Arrow.format proxy)
                   = stoull (format_suffix (Arrow.format proxy))).
  { unfold list_size_from_format, format_suffix.
    destruct (Nat.leb_spec 3 (String.length (Arrow.format proxy))); [reflexivity|lia]. }
  split.
  - intros Hno. apply stoull_invalid_argument in Hno. rewrite <- Hparse in Hno.
    split; [exact Hno|].
    unfold fixed_sized_list_array_of_proxy. split.
    + destruct (make_flat_array array_factory proxy); cbn; [|tauto].
      rewrite Hno. cbn. tauto.
    + intros flat ->. cbn. rewrite Hno. reflexivity.
  - rewrite Hparse. apply stoull_invalid_argument.
Qed.

Lemma list_size_from_format_invalid_witness :
  list_size_from_format "+w:x3" = Err invalid_argument
  /\ fixed_sized_list_array_of_proxy factory_v01
       (Arrow.ArrowProxy "+w:x3" 2 0 0 [0%nat] [Arrow.proxy_with_format "i"])
     = Err invalid_argument.
Proof.
  destruct (list_size_from_format_invalid factory_v01
              (Arrow.ArrowProxy "+w:x3" 2 0 0 [0%nat] [Arrow.proxy_with_format "i"]))
    as [Hfail _]; [simpl; lia|].
  destruct (Hfail eq_refl) as (Hparse & _ & Hctor).
  split; [exact Hparse|]. eapply Hctor. reflexivity.
Defined.

(** *** Values of a list array *)

Lemma list_array_of_proxy_fields {array_wrapper : Type}
    (array_factory : arrow_proxy -> option array_wrapper)
    (big : bool) (proxy : arrow_proxy) (a : list_array_impl) :
  list_array_of_proxy array_factory big proxy = Ok a ->
  BIG a = big /\ m_proxy a = proxy
  /\ make_flat_array array_factory proxy = Ok (p_flat_array a)
  /\ make_list_offsets proxy = Ok (p_list_offsets a).
Proof.
  unfold list_array_of_proxy.
  destruct (make_flat_array array_factory proxy) as [flat|] eqn:Hflat; [|discriminate].
  destruct (make_list_offsets proxy) as [offsets|] eqn:Hptr; [|discriminate].
  cbn. intros [= <-]. cbn. repeat split; assumption.
Qed.

Lemma offset_width_range (big : bool) (x : Z) :
  0 <= x < 256 ^ Z.of_nat (offset_width big) -> x mod 2 ^ 64 = x.
Proof.
  intros Hx. apply Z.mod_small. destruct big; cbn in Hx; lia.
Qed.

(** The values at the raw pointer: for a [list_array] or [big_list_array]
    over a proxy and every index [i < size()], [value(i)] is the
    [list_value] over the flat child layout, made by the factory from child
    0, and over the range [offsets[i], offsets[i+1]), where [offsets] are
    the [size() + 1] words that lie in the offsets buffer from the byte
    position [proxy.offset()] on. *)
Theorem list_array_value {array_wrapper : Type}
    (array_factory : arrow_proxy -> option array_wrapper)
    (big : bool) (proxy : arrow_proxy) (a : list_array_impl) (h : store)
    (buffer : addr) (pre post offsets : list Z) (i : Z) :
  list_array_of_proxy array_factory big proxy = Ok a ->
  Arrow.buffers proxy !! 1%nat = Some buffer ->
  contents h buffer = pre ++ encode_all (offset_width big) offsets ++ post ->
  Z.of_nat (List.length pre) = Arrow.offset proxy ->
  Forall (fun o => 0 <= o < 256 ^ Z.of_nat (offset_width big)) offsets ->
  Z.of_nat (List.length offsets) = size a + 1 ->
  0 <= i < size a ->
  exists child first second,
    Arrow.children proxy !! 0%nat = Some child
    /\ array_factory child = Some (p_flat_array a)
    /\ offsets !! Z.to_nat i = Some first
    /\ offsets !! Z.to_nat (i + 1) = Some second
    /\ offset_range h a i = Ok (first, second)
    /\ value h a i = Ok (mk_list_value (p_flat_array a) first second).
Proof.
  intros Hctor Hbuf Hcontents Hpre Hrange Hlen Hi.
  destruct (list_array_of_proxy_fields _ _ _ _ Hctor) as (Hbig & Hproxy & Hflat & Hptr).
  unfold make_flat_array in Hflat.
  destruct (Arrow.children proxy) as [|child rest] eqn:Hchildren; [discriminate|].
  destruct (array_factory child) as [flat|] eqn:Hfactory; [|discriminate].
  injection Hflat as Hflat.
  unfold make_list_offsets, OFFSET_BUFFER_INDEX in Hptr. rewrite Hbuf in Hptr.
  injection Hptr as Hptr.
  destruct (offsets !! Z.to_nat i) as [first|] eqn:Hfirst.
  2: { apply lookup_ge_None in Hfirst. lia. }
  destruct (offsets !! Z.to_nat (i + 1)) as [second|] eqn:Hsecond.
  2: { apply lookup_ge_None in Hsecond. lia. }
  pose proof (proj1 (Forall_lookup _ _) Hrange _ _ Hfirst) as Hf.
  pose proof (proj1 (Forall_lookup _ _) Hrange _ _ Hsecond) as Hs.
  assert (Hrange_i : offset_range h a i = Ok (first, second)).
  { unfold offset_range. rewrite Hbig, <- Hptr.
    rewrite <- (Z2Nat.id i) at 1 by lia.
    rewrite (MemoryFacts.load_at_encoded h _ _ pre post offsets _ first)
      by (cbn; assumption).
    rewrite <- (Z2Nat.id (i + 1)) by lia.
    rewrite (MemoryFacts.load_at_encoded h _ _ pre post offsets _ second)
      by (cbn; assumption).
    reflexivity. }
  exists child, first, second.
  split; [reflexivity|]. split; [congruence|].
  split; [reflexivity|]. split; [reflexivity|]. split; [exact Hrange_i|].
  unfold value. rewrite Hrange_i. cbn.
  rewrite (offset_width_range big first Hf), (offset_width_range big second Hs).
  reflexivity.
Qed.

(** C4: the claim holds of a list array whose proxy has offset 0, and fails
    on a slice.  The list array of the layout test has the offsets 0, 1, 3,
    6, 10, and its list 1 is the range [1, 3) of the flat child.  Seen
    through a proxy of offset 1 and length 3, that list is list 0, and
    [value(0)] is to be the range [1, 3).  But [make_list_offsets] adds the
    offset to the address of the bytes of the buffer before the cast to a
    pointer to offsets: the pointer is advanced by one byte, not by one
    offset, and [value(0)] is made of the four bytes from byte 1 on and of
    the four bytes from byte 5 on, the range [16777216, 50331648). *)
Theorem list_array_value_sliced :
  list_array_of_proxy factory_v01 false Sample.list_proxy = Ok Sample.list_array
  /\ list_array_of_proxy factory_v01 false Sample.sliced_proxy
     = Ok Sample.sliced_array
  /\ contents Sample.memory 11%nat = encode_all 4 [0; 1; 3; 6; 10]
  /\ value Sample.memory Sample.list_array 1
     = Ok (mk_list_value Sample.flat_array 1 3)
  /\ size Sample.sliced_array = 3
  /\ Arrow.offset Sample.sliced_proxy = 1
  /\ value Sample.memory Sample.sliced_array 0
     = Ok (mk_list_value Sample.flat_array 16777216 50331648).
Proof. repeat split; vm_compute; reflexivity. Qed.

(** *** Copies of a list array *)

Lemma make_list_offsets_base (proxy : arrow_proxy) (p : pointer) :
  make_list_offsets proxy = Ok p ->
  Arrow.buffers proxy !! 1%nat = Some (ptr_base p)
  /\ ptr_byte p = Arrow.offset proxy
  /\ ptr_base p ∈ Arrow.proxy_addrs proxy.
Proof.
  unfold make_list_offsets, OFFSET_BUFFER_INDEX.
  destruct (Arrow.buffers proxy !! 1%nat) as [a|] eqn:Hbuf; [|discriminate].
  intros [= <-]. cbn. split; [reflexivity|]. split; [reflexivity|].
  destruct proxy as [f n c o buffers children]. cbn in *.
  apply elem_of_app. left. eapply list_elem_of_lookup_2. exact Hbuf.
Qed.

Lemma copy_list_array_fields {array_wrapper : Type}
    (array_factory : arrow_proxy -> option array_wrapper)
    (a b : list_array_impl) (h h' : store) :
  copy_list_array array_factory a h = Ok (b, h') ->
  copy_proxy (m_proxy a) h = (m_proxy b, h')
  /\ BIG b = BIG a
  /\ make_flat_array array_factory (m_proxy b) = Ok (p_flat_array b)
  /\ make_list_offsets (m_proxy b) = Ok (p_list_offsets b).
Proof.
  unfold copy_list_array.
  destruct (copy_proxy (m_proxy a) h) as [proxy h1].
  destruct (make_flat_array array_factory proxy) as [flat|] eqn:Hflat; [|discriminate].
  destruct (make_list_offsets proxy) as [offsets|] eqn:Hptr; [|discriminate].
  cbn. intros [= <- <-]. cbn. repeat split; assumption.
Qed.

(** Copying succeeds whenever the factory accepts the copied child. *)
Lemma copy_list_array_Ok {array_wrapper : Type}
    (array_factory : arrow_proxy -> option array_wrapper)
    (big : bool) (proxy : arrow_proxy) (a : list_array_impl) (h : store) :
  list_array_of_proxy array_factory big proxy = Ok a ->
  (forall child, is_Some (array_factory child)) ->
  is_Ok (copy_list_array array_factory a h).
Proof.
  intros Hctor Hfactory.
  destruct (list_array_of_proxy_fields _ _ _ _ Hctor) as (_ & Hproxy & Hflat & Hptr).
  unfold copy_list_array. rewrite Hproxy.
  destruct (copy_proxy proxy h) as [proxy' h'] eqn:Hcopy.
  destruct (MemoryFacts.copy_proxy_spec proxy _ _ _ Hcopy)
    as (_ & _ & _ & _ & _ & Hbuffers & Hchildren & _).
  unfold make_flat_array in *.
  destruct (Arrow.children proxy) as [|child rest]; [discriminate|].
  destruct (Arrow.children proxy') as [|child' rest']; [discriminate|].
  destruct (Hfactory child') as [flat' ->]. cbn.
  unfold make_list_offsets, OFFSET_BUFFER_INDEX in *.
  destruct (Arrow.buffers proxy !! 1%nat) eqn:H1; [|discriminate].
  apply lookup_lt_Some in H1. rewrite <- Hbuffers in H1.
  apply lookup_lt_is_Some_2 in H1 as [a' ->]. exact I.
Qed.

Lemma fresh_not_live (h h' : store) (fresh live : list addr) :
  fresh_in h h' fresh -> Forall (fun x => x ∈ dom h) live ->
  Forall (fun x => x ∉ live) fresh.
Proof.
  intros Hfresh Hlive. eapply Forall_impl; [exact Hfresh|]. cbn.
  intros x [Hnew _] Hx. apply Hnew.
  apply (proj1 (Forall_forall _ _) Hlive). exact Hx.
Qed.

(** Whatever layout holds a proxy: after a deep copy of the proxy, writes
    into the buffers of the copy leave everything that is read through the
    original. *)
Lemma copy_proxy_independent (p p' : arrow_proxy) (h h' : store)
    (writes : list (addr * nat * Z)) :
  Forall (fun x => x ∈ dom h) (Arrow.proxy_addrs p) ->
  copy_proxy p h = (p', h') ->
  Forall (fun w => w.1.1 ∈ Arrow.proxy_addrs p') writes ->
  snapshot_of h' p' = snapshot_of h p
  /\ snapshot_of (store_bytes writes h') p = snapshot_of h p.
Proof.
  intros Hlive Hcopy Hwrites.
  destruct (MemoryFacts.copy_proxy_spec _ _ _ _ Hcopy)
    as (Hsub & Hfresh & _ & _ & _ & _ & _ & Hsnap).
  split; [exact (Hsnap Hlive)|].
  pose proof (fresh_not_live _ _ _ _ Hfresh Hlive) as Hdisjoint.
  apply MemoryFacts.snapshot_agree. intros x Hx.
  rewrite MemoryFacts.store_bytes_other.
  - pose proof (proj1 (Forall_forall _ _) Hlive x Hx) as Hdom.
    apply elem_of_dom in Hdom as [bytes Hbytes]. rewrite Hbytes.
    apply (lookup_weaken _ _ _ _ Hbytes Hsub).
  - eapply Forall_impl; [exact Hwrites|]. cbn. intros w Hw E.
    apply (proj1 (Forall_forall _ _) Hdisjoint _ Hw). rewrite E. exact Hx.
Qed.

(** The flat child layout of a list array holds child 0 of the proxy,
    whenever a wrapper holds the proxy that the factory made it from. *)
Lemma make_flat_array_child {array_wrapper : Type}
    (array_factory : arrow_proxy -> option array_wrapper)
    (get_arrow_proxy : array_wrapper -> arrow_proxy)
    (proxy : arrow_proxy) (flat : array_wrapper) :
  (forall p w, array_factory p = Some w -> get_arrow_proxy w = p) ->
  make_flat_array array_factory proxy = Ok flat ->
  exists rest, Arrow.children proxy = get_arrow_proxy flat :: rest.
Proof.
  intros Hholds. unfold make_flat_array.
  destruct (Arrow.children proxy) as [|child rest]; [discriminate|].
  destruct (array_factory child) as [w|] eqn:Hw; [|discriminate].
  intros [= <-]. exists rest. rewrite (Hholds child w Hw). reflexivity.
Qed.

(** C7: let [b] be the copy of a list array [a] whose buffers live in the
    store.  The offsets pointer of [b] and its flat child layout are made
    from the proxy of [b], which is a deep copy: no buffer that [b]
    reaches, through its proxy or through its flat child layout, is a
    buffer that [a] reaches.  The copy reads what [a] reads, and whatever
    is then written into buffers that [b] reaches, a validity bit, an
    offset or a value of the flat child, everything observed through [a]
    is what it was: the bytes of its buffers and of those of its flat
    child, every range and every validity bit.  So it is for any layout,
    whose elements are read from the buffers of its proxy: writes into the
    buffers of a deep copy leave what is read through the original. *)
Theorem copy_list_array_independent {array_wrapper : Type}
    (array_factory : arrow_proxy -> option array_wrapper)
    (get_arrow_proxy : array_wrapper -> arrow_proxy)
    (big : bool) (proxy : arrow_proxy) (a b : list_array_impl) (h h' : store) :
  (forall p w, array_factory p = Some w -> get_arrow_proxy w = p) ->
  list_array_of_proxy array_factory big proxy = Ok a ->
  Forall (fun x => x ∈ dom h) (Arrow.proxy_addrs proxy) ->
  copy_list_array array_factory a h = Ok (b, h') ->
  (make_list_offsets (m_proxy b) = Ok (p_list_offsets b)
   /\ make_flat_array array_factory (m_proxy b) = Ok (p_flat_array b)
   /\ (exists rest, Arrow.children (m_proxy b)
                    = get_arrow_proxy (p_flat_array b) :: rest)
   /\ (ptr_base (p_list_offsets b) ∈ Arrow.proxy_addrs (m_proxy b))
   /\ ptr_base (p_list_offsets b) <> ptr_base (p_list_offsets a)
   /\ Forall (fun x => x ∉ reached get_arrow_proxy a) (reached get_arrow_proxy b))
  /\ observed get_arrow_proxy h' b = observed get_arrow_proxy h a
  /\ (forall i, offset_range h' b i = offset_range h a i
                /\ has_value h' b i = has_value h a i)
  /\ (forall writes : list (addr * nat * Z),
       Forall (fun w => w.1.1 ∈ reached get_arrow_proxy b) writes ->
       observed get_arrow_proxy (store_bytes writes h') a
       = observed get_arrow_proxy h a
       /\ forall i,
            value (store_bytes writes h') a i = value h a i
            /\ has_value (store_bytes writes h') a i = has_value h a i)
  /\ (forall (p p' : arrow_proxy) (h0 h1 : store) (writes : list (addr * nat * Z)),
       Forall (fun x => x ∈ dom h0) (Arrow.proxy_addrs p) ->
       copy_proxy p h0 = (p', h1) ->
       Forall (fun w => w.1.1 ∈ Arrow.proxy_addrs p') writes ->
       snapshot_of (store_bytes writes h1) p = snapshot_of h0 p).
Proof.
  intros Hholds Hctor Hlive Hcopy.
  destruct (list_array_of_proxy_fields _ _ _ _ Hctor) as (Hbig & Hproxy & Hflat & Hptr).
  destruct (copy_list_array_fields _ _ _ _ _ Hcopy) as (Hcp & Hbig' & Hflat' & Hptr').
  rewrite <- Hproxy in Hlive, Hptr, Hflat.
  destruct (MemoryFacts.copy_proxy_spec _ _ _ _ Hcp)
    as (Hsub & Hfresh & _ & _ & Hoffset & Hbuffers & _ & Hsnap).
  specialize (Hsnap Hlive).
  destruct (make_list_offsets_base _ _ Hptr) as (Hbase & Hbyte & Hin).
  destruct (make_list_offsets_base _ _ Hptr') as (Hbase' & Hbyte' & Hin').
  pose proof (fresh_not_live _ _ _ _ Hfresh Hlive) as Hdisjoint.
  destruct (make_flat_array_child _ _ _ _ Hholds Hflat) as [rest Hchild].
  destruct (make_flat_array_child _ _ _ _ Hholds Hflat') as [rest' Hchild'].
  assert (Hreach : forall x, x ∈ reached get_arrow_proxy a ->
                             x ∈ Arrow.proxy_addrs (m_proxy a)).
  { intros x Hx. unfold reached in Hx. apply elem_of_app in Hx as [Hx|Hx];
      [exact Hx|exact (MemoryFacts.child_addrs _ _ _ x Hchild Hx)]. }
  assert (Hreach' : forall x, x ∈ reached get_arrow_proxy b ->
                              x ∈ Arrow.proxy_addrs (m_proxy b)).
  { intros x Hx. unfold reached in Hx. apply elem_of_app in Hx as [Hx|Hx];
      [exact Hx|exact (MemoryFacts.child_addrs _ _ _ x Hchild' Hx)]. }
  assert (Hapart : Forall (fun x => x ∉ reached get_arrow_proxy a)
                     (reached get_arrow_proxy b)).
  { apply Forall_forall. intros x Hx Hxa.
    apply (proj1 (Forall_forall _ _) Hdisjoint x (Hreach' x Hx)).
    exact (Hreach x Hxa). }
  assert (Hagree : forall writes : list (addr * nat * Z),
             Forall (fun w => w.1.1 ∈ reached get_arrow_proxy b) writes ->
             forall x, x ∈ Arrow.proxy_addrs (m_proxy a) ->
                       store_bytes writes h' !! x = h !! x).
  { intros writes Hwrites x Hx.
    rewrite MemoryFacts.store_bytes_other.
    - pose proof (proj1 (Forall_forall _ _) Hlive x Hx) as Hdom.
      apply elem_of_dom in Hdom as [bytes Hbytes]. rewrite Hbytes.
      apply (lookup_weaken _ _ _ _ Hbytes Hsub).
    - eapply Forall_impl; [exact Hwrites|]. cbn. intros w Hw E.
      apply (proj1 (Forall_forall _ _) Hdisjoint _ (Hreach' _ Hw)).
      rewrite E. exact Hx. }
  split; [|split; [|split; [|split]]].
  - split; [exact Hptr'|]. split; [exact Hflat'|].
    split; [exists rest'; exact Hchild'|]. split; [exact Hin'|].
    split; [|exact Hapart].
    intros E. apply (proj1 (Forall_forall _ _) Hdisjoint _ Hin').
    rewrite E. exact Hin.
  - unfold observed, reached. rewrite !map_app. f_equal; [exact Hsnap|].
    destruct (MemoryFacts.copy_proxy_child _ _ _ _ _ _ Hcp Hlive Hchild)
      as (child' & rest'' & Hchild'' & Hsnap').
    rewrite Hchild' in Hchild''. injection Hchild'' as <- _. exact Hsnap'.
  - intros i. split.
    + unfold offset_range, load_at. rewrite Hbig', Hbyte, Hbyte', Hoffset.
      rewrite !(MemoryFacts.load_le_agree h h' (ptr_base (p_list_offsets a))
                  (ptr_base (p_list_offsets b)))
        by (eapply MemoryFacts.snapshot_buffer; eauto).
      reflexivity.
    + unfold has_value. rewrite Hoffset.
      destruct (Arrow.buffers (m_proxy a) !! 0%nat) as [v|] eqn:Hv.
      * assert (Hlt : (0 < List.length (Arrow.buffers (m_proxy b)))%nat)
          by (rewrite Hbuffers; apply lookup_lt_Some in Hv; exact Hv).
        apply lookup_lt_is_Some_2 in Hlt as [v' Hv']. rewrite Hv'.
        rewrite (MemoryFacts.snapshot_buffer h h' _ _ 0 v v' Hsnap Hbuffers Hv Hv').
        reflexivity.
      * apply lookup_ge_None in Hv. rewrite <- Hbuffers in Hv.
        apply lookup_ge_None in Hv. rewrite Hv. reflexivity.
  - intros writes Hwrites. specialize (Hagree writes Hwrites).
    split.
    { unfold observed. apply map_ext_in. intros x Hx.
      apply MemoryFacts.contents_agree, Hagree, Hreach.
      apply list_elem_of_In. exact Hx. }
    intros i. split.
    + unfold value, offset_range, load_at.
      rewrite !(MemoryFacts.load_le_agree h (store_bytes writes h')
                  (ptr_base (p_list_offsets a)) (ptr_base (p_list_offsets a)))
        by (apply MemoryFacts.contents_agree, Hagree, Hin).
      reflexivity.
    + unfold has_value.
      destruct (Arrow.buffers (m_proxy a) !! 0%nat) as [v|] eqn:Hv; [|reflexivity].
      rewrite (MemoryFacts.contents_agree h (store_bytes writes h') v); [reflexivity|].
      apply Hagree. destruct (m_proxy a) as [f n c o bs cs]. cbn in *.
      apply elem_of_app. left. eapply list_elem_of_lookup_2. exact Hv.
  - intros p p' h0 h1 writes H0 H1 H2.
    apply (copy_proxy_independent p p' h0 h1 writes H0 H1 H2).
Qed.

(** The list array of the layout test and its copy: the copy has a flat
    child of its own, and writing a value of that child, or an offset of
    the copy, leaves everything observed through the original. *)
Lemma copy_list_array_independent_witness :
  exists b h',
    copy_list_array factory_v01 Sample.list_array Sample.memory = Ok (b, h')
    /\ ptr_base (p_list_offsets b) <> ptr_base (p_list_offsets Sample.list_array)
    /\ Forall (fun x => x ∉ reached proxy_of Sample.list_array) (reached proxy_of b)
    /\ forall (x : addr) (pos : nat) (byte : Z),
         x ∈ Arrow.buffers (proxy_of (p_flat_array b))
         \/ x = ptr_base (p_list_offsets b) ->
         observed proxy_of (store_bytes [(x, pos, byte)] h') Sample.list_array
         = observed proxy_of Sample.memory Sample.list_array
         /\ forall i,
              value (store_bytes [(x, pos, byte)] h') Sample.list_array i
              = value Sample.memory Sample.list_array i.
Proof.
  destruct (copy_list_array factory_v01 Sample.list_array Sample.memory)
    as [[b h']|e] eqn:E.
  2: { exfalso. vm_compute in E. discriminate. }
  exists b, h'. split; [reflexivity|].
  destruct (copy_list_array_independent factory_v01 proxy_of false Sample.list_proxy
              Sample.list_array b Sample.memory h')
    as ((_ & _ & _ & Hin & Hne & Hapart) & _ & _ & Hframe & _).
  - intros p w Hw. apply FactoryFacts.array_factory_proxy_of.
    apply FactoryFacts.factory_v01_Some. exact Hw.
  - reflexivity.
  - repeat constructor; apply elem_of_dom; eexists; vm_compute; reflexivity.
  - exact E.
  - split; [exact Hne|]. split; [exact Hapart|].
    intros x pos byte Hx.
    destruct (Hframe [(x, pos, byte)]) as [Hobserved Hvalues].
    + constructor; [|constructor]. cbn [fst]. unfold reached.
      apply elem_of_app. destruct Hx as [Hx| ->]; [right|left; exact Hin].
      destruct (proxy_of (p_flat_array b)) as [f n c o bs cs].
      cbn [Arrow.proxy_addrs Arrow.buffers] in *. apply elem_of_app. left. exact Hx.
    + split; [exact Hobserved|]. intros i. apply (Hvalues i).
Defined.

(** *** Printing and parsing the list size *)

Lemma digit_char_cases (d : Z) (P : ascii -> Prop) :
  0 <= d < 10 ->
  P "0"%char -> P "1"%char -> P "2"%char -> P "3"%char -> P "4"%char ->
  P "5"%char -> P "6"%char -> P "7"%char -> P "8"%char -> P "9"%char ->
  P (digit_char d).
Proof.
  intros Hd. assert (Hc : d = 0 \/ d = 1 \/ d = 2 \/ d = 3 \/ d = 4 \/ d = 5
                          \/ d = 6 \/ d = 7 \/ d = 8 \/ d = 9) by lia.
  destruct Hc as [->|[->|[->|[->|[->|[->|[->|[->|[->| ->]]]]]]]]]; intros; assumption.
Qed.

Lemma digit_of_digit_char (d : Z) :
  0 <= d < 10 -> digit_of (digit_char d) = Some d.
Proof.
  intros Hd. assert (Hc : d = 0 \/ d = 1 \/ d = 2 \/ d = 3 \/ d = 4 \/ d = 5
                          \/ d = 6 \/ d = 7 \/ d = 8 \/ d = 9) by lia.
  destruct Hc as [->|[->|[->|[->|[->|[->|[->|[->|[->| ->]]]]]]]]]; reflexivity.
Qed.

(** Reading the digits that [to_digits] writes gives the number back, after
    what was read before. *)
Lemma read_digits_to_digits (fuel : nat) (n : Z) (rest : string) (acc : option Z) :
  (0 < fuel)%nat -> 0 <= n < 10 ^ Z.of_nat fuel ->
  exists k : Z,
    0 < k
    /\ read_digits (to_digits fuel n rest) acc
       = read_digits rest (Some (10 ^ k * default 0 acc + n)).
Proof.
  revert n rest acc. induction fuel as [|fuel IH]; intros n rest acc Hf Hn.
  - lia.
  - cbn [to_digits].
    pose proof (Z.mod_pos_bound n 10 ltac:(lia)) as Hd.
    pose proof (Z.div_mod n 10 ltac:(lia)) as Hdm.
    destruct (Z.eqb_spec (n / 10) 0) as [Hz|Hnz].
    + exists 1. split; [lia|]. cbn [read_digits].
      rewrite digit_of_digit_char by exact Hd. f_equal. f_equal. lia.
    + rewrite Nat2Z.inj_succ, Z.pow_succ_r in Hn by lia.
      assert (Hq : 0 <= n / 10 < 10 ^ Z.of_nat fuel).
      { split; [apply Z.div_pos; lia|]. apply Z.div_lt_upper_bound; lia. }
      assert (Hfuel : (0 < fuel)%nat).
      { destruct fuel; [cbn in Hq; lia|lia]. }
      destruct (IH (n / 10) (String (digit_char (n mod 10)) rest) acc Hfuel Hq)
        as (k & Hk & E).
      exists (k + 1). split; [lia|]. rewrite E. cbn [read_digits].
      rewrite digit_of_digit_char by exact Hd. cbn [default].
      f_equal. f_equal. rewrite Z.pow_add_r, Z.pow_1_r by lia.
      unfold id. generalize (10 ^ k). intros p. lia.
Qed.

Lemma to_digits_head (fuel : nat) (n : Z) (rest : string) :
  0 <= n -> (0 < fuel)%nat ->
  exists (d : Z) (tail : string),
    0 <= d < 10 /\ to_digits fuel n rest = String (digit_char d) tail.
Proof.
  revert n rest. induction fuel as [|fuel IH]; intros n rest Hn Hf; [lia|].
  cbn [to_digits]. pose proof (Z.mod_pos_bound n 10 ltac:(lia)) as Hd.
  destruct (Z.eqb_spec (n / 10) 0) as [Hz|Hnz].
  - exists (n mod 10), rest. split; [exact Hd|reflexivity].
  - destruct fuel as [|fuel].
    + exists (n mod 10), rest. split; [exact Hd|reflexivity].
    + apply IH; [apply Z.div_pos; lia|lia].
Qed.

Lemma stoull_to_string (n : Z) :
  0 <= n < 2 ^ 64 -> stoull (to_string n) = Ok n.
Proof.
  intros Hn. unfold stoull, to_string.
  destruct (to_digits_head 20 n "" ltac:(lia) ltac:(lia)) as (d & tail & Hd & E).
  assert (Hskip : skip_sign (skip_spaces (to_digits 20 n "")) = (false, to_digits 20 n "")).
  { rewrite E. revert Hd. generalize tail. clear.
    intros tail Hd. apply (digit_char_cases d (fun c =>
      skip_sign (skip_spaces (String c tail)) = (false, String c tail)) Hd);
      reflexivity. }
  rewrite Hskip.
  destruct (read_digits_to_digits 20 n "" None) as (k & _ & Hread); [lia| |].
  { split; [lia|]. change (10 ^ Z.of_nat 20) with 100000000000000000000. lia. }
  rewrite Hread. cbn [read_digits default]. rewrite Z.mul_0_r, Z.add_0_l.
  destruct (Z.ltb_spec n (2 ^ 64)); [reflexivity|lia].
Qed.

Lemma substring_all (s : string) : String.substring 0 (String.length s) s = s.
Proof. induction s as [|c s IH]; [reflexivity|]. cbn. rewrite IH. reflexivity. Qed.

Lemma list_size_from_format_suffix (s : string) :
  list_size_from_format ("+w:" ++ s) = stoull s.
Proof.
  unfold list_size_from_format.
  change ("+w:" ++ s)%string with (String "+" (String "w" (String ":" s))).
  change (String.length (String "+" (String "w" (String ":" s))))
    with (S (S (S (String.length s)))).
  change (3 <=? S (S (S (String.length s))))%nat with true.
  replace (S (S (S (String.length s))) - 3)%nat with (String.length s) by lia.
  change (String.substring 3 (String.length s) (String "+" (String "w" (String ":" s))))
    with (String.substring 0 (String.length s) s).
  rewrite substring_all. reflexivity.
Qed.

(** X7: the format that [create_proxy] writes for a fixed-size list is read
    back by the constructor: for every list size [n] of 64 bits,
    [list_size_from_format("+w:" + std::to_string(n))] is [n]. *)
Theorem list_size_format_round_trip (n : Z) :
  0 <= n < 2 ^ 64 ->
  list_size_from_format ("+w:" ++ to_string n) = Ok n.
Proof.
  intros Hn. rewrite list_size_from_format_suffix.
  apply stoull_to_string. exact Hn.
Qed.

Lemma list_size_format_round_trip_witness :
  list_size_from_format ("+w:" ++ to_string 18446744073709551615)
  = Ok 18446744073709551615.
Proof. apply (list_size_format_round_trip 18446744073709551615). lia. Defined.

(** *** Layouts over the proxies that [create_proxy] builds *)

Lemma to_int64_small (x : Z) : 0 <= x < 2 ^ 63 -> to_int64 x = x.
Proof. intros H. unfold to_int64. rewrite Z.mod_small by lia. lia. Qed.

(** X8: a fixed-size list array built by [create_proxy] from a list size
    [N > 0] and flat values of length [L], then opened by the constructor,
    has list size [N] and length [L / N]; list [i] is the range
    [i * N, i * N + N) of the flat values, which lies within them, and the
    ranges of two lists do not overlap.  A list size of 0 divides by
    zero. *)
Theorem fixed_sized_list_build {array_wrapper : Type}
    (array_factory : arrow_proxy -> option array_wrapper)
    (list_size : Z) (flat_values : arrow_proxy) (input : validity_input)
    (vbitmap : Bitset.validity_bitmap) (h : store) :
  fixed_sized_create_proxy 0 flat_values input h = Err DivisionByZero
  /\ (0 < list_size < 2 ^ 64 ->
      0 <= Arrow.length flat_values < 2 ^ 63 ->
      is_Some (array_factory flat_values) ->
      ensure_validity (Arrow.length flat_values / list_size) input = Ok vbitmap ->
      exists proxy h' a,
        fixed_sized_create_proxy list_size flat_values input h = Ok (proxy, h')
        /\ fixed_sized_list_array_of_proxy array_factory proxy = Ok a
        /\ m_list_size a = list_size
        /\ Arrow.length (fs_proxy a) = Arrow.length flat_values / list_size
        /\ Arrow.children (fs_proxy a) = [flat_values]
        /\ forall i : Z,
             0 <= i < Arrow.length flat_values / list_size ->
             fixed_sized_offset_range a i
             = (i * list_size, i * list_size + list_size)
             /\ i * list_size + list_size <= Arrow.length flat_values
             /\ forall j : Z,
                  i < j -> i * list_size + list_size <= j * list_size).
Proof.
  split; [reflexivity|].
  intros HN HL [flat Hflat] Hvalid.
  set (L := Arrow.length flat_values) in *.
  pose proof (Z.div_pos L list_size ltac:(lia) ltac:(lia)) as Hq0.
  pose proof (Z.mul_div_le L list_size ltac:(lia)) as Hq1.
  assert (Hq2 : L / list_size < 2 ^ 63).
  { apply Z.div_lt_upper_bound; [lia|]. nia. }
  unfold fixed_sized_create_proxy.
  rewrite (Z.mod_small list_size) by lia.
  destruct (Z.eqb_spec list_size 0) as [|_]; [lia|].
  fold L. rewrite (Z.mod_small L) by lia. rewrite Hvalid. cbn [mbind result_bind].
  destruct (allocate h (Bitset.m_buffer vbitmap)) as [validity h1].
  eexists _, h1, (mk_fixed_sized_list_array _ flat list_size).
  split; [reflexivity|].
  split.
  { unfold fixed_sized_list_array_of_proxy, make_flat_array.
    cbn [Arrow.children Arrow.format]. rewrite Hflat. cbn [mbind result_bind].
    rewrite list_size_from_format_suffix, stoull_to_string by lia. reflexivity. }
  cbn [m_list_size fs_proxy Arrow.length Arrow.children].
  split; [reflexivity|]. split; [apply to_int64_small; lia|].
  split; [reflexivity|].
  intros i Hi.
  assert (Hend : i * list_size + list_size <= L) by nia.
  split; [|split; [exact Hend|intros j Hj; nia]].
  unfold fixed_sized_offset_range. cbn [m_list_size].
  rewrite (Z.mod_small (i * list_size)) by nia.
  rewrite Z.mod_small by nia. reflexivity.
Qed.

(** Nine flat values in lists of three, opened with the factory of the
    sources. *)
Lemma fixed_sized_list_build_witness :
  exists proxy h' a,
    fixed_sized_create_proxy 3 (Arrow.ArrowProxy "i" 9 0 0 [] [])
      (moved_bitmap Bitset.empty) ∅ = Ok (proxy, h')
    /\ fixed_sized_list_array_of_proxy factory_v01 proxy = Ok a
    /\ m_list_size a = 3
    /\ fixed_sized_offset_range a 2 = (6, 9).
Proof.
  destruct (fixed_sized_list_build factory_v01 3 (Arrow.ArrowProxy "i" 9 0 0 [] [])
              (moved_bitmap Bitset.empty)
              (Bitset.ensure_validity_bitmap_rvalue 3 Bitset.empty) ∅)
    as [_ Hbuild].
  destruct Hbuild as (proxy & h' & a & Hcreate & Hopen & Hsize & _ & _ & Hrange).
  - lia.
  - simpl. lia.
  - eexists. reflexivity.
  - reflexivity.
  - exists proxy, h', a. split; [exact Hcreate|]. split; [exact Hopen|].
    split; [exact Hsize|]. apply (Hrange 2). split; [lia|reflexivity].
Defined.

Lemma prefix_sums_lookup (first : Z) (sizes : list Z) (i : nat) :
  (i <= List.length sizes)%nat ->
  prefix_sums first sizes !! i = Some (first + foldr Z.add 0 (take i sizes)).
Proof.
  revert first i. induction sizes as [|s sizes IH]; intros first i Hi.
  - cbn in Hi. replace i with 0%nat by lia. cbn. f_equal. lia.
  - destruct i as [|i].
    + cbn. f_equal. lia.
    + cbn [prefix_sums take foldr]. cbn [lookup list_lookup].
      change (list_lookup i (prefix_sums (first + s) sizes))
        with (prefix_sums (first + s) sizes !! i).
      rewrite IH by (cbn in Hi; lia). f_equal. lia.
Qed.

Lemma sum_app (l1 l2 : list Z) :
  foldr Z.add 0 (l1 ++ l2) = foldr Z.add 0 l1 + foldr Z.add 0 l2.
Proof. induction l1 as [|x l1 IH]; cbn; [reflexivity|]. rewrite IH. lia. Qed.

Lemma sum_nonneg (l : list Z) :
  Forall (fun s => 0 <= s) l -> 0 <= foldr Z.add 0 l.
Proof. induction 1; cbn; lia. Qed.

Lemma sum_take_le (sizes : list Z) (i : nat) (s : Z) :
  Forall (fun s => 0 <= s) sizes -> sizes !! i = Some s ->
  0 <= foldr Z.add 0 (take i sizes)
  /\ foldr Z.add 0 (take (S i) sizes) = foldr Z.add 0 (take i sizes) + s
  /\ foldr Z.add 0 (take i sizes) + s <= foldr Z.add 0 sizes.
Proof.
  intros Hsizes Hi.
  assert (H0 : 0 <= foldr Z.add 0 (take i sizes))
    by (apply sum_nonneg, Forall_take, Hsizes).
  assert (H1 : 0 <= foldr Z.add 0 (drop (S i) sizes))
    by (apply sum_nonneg, Forall_drop, Hsizes).
  assert (E : foldr Z.add 0 sizes
              = foldr Z.add 0 (take i sizes ++ s :: drop (S i) sizes))
    by (rewrite take_drop_middle; [reflexivity|exact Hi]).
  rewrite sum_app in E. cbn [foldr] in E.
  split; [exact H0|]. split; [|lia].
  rewrite (take_S_r _ _ _ Hi), sum_app. cbn. lia.
Qed.

Lemma offset_range_encoded {array_wrapper : Type} (h : store)
    (a : @list_array_impl array_wrapper) (offsets : list Z) (i : nat) (first second : Z) :
  contents h (ptr_base (p_list_offsets a))
  = encode_all (offset_width (BIG a)) offsets ->
  ptr_byte (p_list_offsets a) = 0 ->
  Forall (fun o => 0 <= o < 256 ^ Z.of_nat (offset_width (BIG a))) offsets ->
  offsets !! i = Some first -> offsets !! S i = Some second ->
  offset_range h a (Z.of_nat i) = Ok (first, second).
Proof.
  intros Hc Hbyte Hrange Hfirst Hsecond. unfold offset_range.
  assert (Hc' : contents h (ptr_base (p_list_offsets a))
                = [] ++ encode_all (offset_width (BIG a)) offsets ++ [])
    by (rewrite app_nil_r; exact Hc).
  assert (Hpre : Z.of_nat (List.length (@nil Z)) = ptr_byte (p_list_offsets a))
    by (rewrite Hbyte; reflexivity).
  rewrite (MemoryFacts.load_at_encoded h _ _ [] [] offsets i first Hc' Hpre Hfirst
             (proj1 (Forall_lookup _ _) Hrange _ _ Hfirst)).
  replace (Z.of_nat i + 1) with (Z.of_nat (S i)) by lia.
  rewrite (MemoryFacts.load_at_encoded h _ _ [] [] offsets (S i) second Hc' Hpre
             Hsecond (proj1 (Forall_lookup _ _) Hrange _ _ Hsecond)).
  reflexivity.
Qed.

(** X9: building and reading back a list array.  The proxy that
    [create_proxy] builds from flat values, from the offsets of [sizes]
    and from a validity input is opened by the constructor; the array has
    as many lists as there are sizes, list [i] starts at the sum of the
    sizes before it and has [sizes[i]] elements, and its validity bit is
    bit [i] of the normalised bitmap, whose null count is the null count of
    the proxy. *)
Theorem list_array_build {array_wrapper : Type}
    (array_factory : arrow_proxy -> option array_wrapper)
    (big : bool) (flat_values : arrow_proxy) (sizes : list Z)
    (input : validity_input) (vbitmap : Bitset.validity_bitmap) (h : store) :
  Forall (fun s => 0 <= s) sizes ->
  foldr Z.add 0 sizes < 256 ^ Z.of_nat (offset_width big) ->
  Z.of_nat (List.length sizes) < 2 ^ 63 ->
  is_Some (array_factory flat_values) ->
  ensure_validity (Z.of_nat (List.length sizes)) input = Ok vbitmap ->
  0 <= Bitset.null_count vbitmap < 2 ^ 63 ->
  exists proxy h' a,
    list_create_proxy big flat_values (offset_from_sizes big sizes) input h
    = Ok (proxy, h')
    /\ list_array_of_proxy array_factory big proxy = Ok a
    /\ size a = Z.of_nat (List.length sizes)
    /\ Arrow.null_count proxy = Bitset.null_count vbitmap
    /\ Arrow.format proxy = (if big then "+L" else "+l")%string
    /\ forall (i : nat) (s : Z),
         sizes !! i = Some s ->
         value h' a (Z.of_nat i)
         = Ok (mk_list_value (p_flat_array a)
                 (foldr Z.add 0 (take i sizes))
                 (foldr Z.add 0 (take i sizes) + s))
         /\ has_value h' a (Z.of_nat i)
            = Ok (Bitset.bit_of (Bitset.m_buffer vbitmap) (Z.of_nat i)).
Proof.
  intros Hsizes Hfits Hlen [flat Hflat] Hvalid Hnull.
  assert (Hrange : Forall (fun o => 0 <= o < 256 ^ Z.of_nat (offset_width big))
                     (prefix_sums 0 sizes))
    by (apply prefix_sums_bounded; [exact Hsizes|lia|lia]).
  rewrite (offset_from_sizes_fits big sizes Hsizes Hfits).
  unfold list_create_proxy. rewrite prefix_sums_length.
  replace (Z.of_nat (S (List.length sizes)) - 1) with (Z.of_nat (List.length sizes))
    by lia.
  rewrite (Z.mod_small (Z.of_nat (List.length sizes))) by lia.
  rewrite Hvalid. cbn [mbind result_bind].
  destruct (allocate h (Bitset.m_buffer vbitmap)) as [validity h1] eqn:Ha0.
  destruct (allocate h1 (encode_all (offset_width big) (prefix_sums 0 sizes)))
    as [offsets h2] eqn:Ha1.
  destruct (MemoryFacts.allocate_spec _ _ _ _ Ha0) as (_ & Hin0 & _ & Hc0).
  destruct (MemoryFacts.allocate_spec _ _ _ _ Ha1) as (_ & _ & Hsub1 & Hc1).
  set (proxy := Arrow.ArrowProxy (if big then "+L" else "+l")%string
                  (to_int64 (Z.of_nat (List.length sizes)))
                  (to_int64 (Bitset.null_count vbitmap)) 0
                  [validity; offsets] [flat_values]).
  exists proxy, h2, (mk_list_array big proxy flat (mk_pointer offsets 0)).
  split; [reflexivity|].
  split.
  { unfold list_array_of_proxy, make_flat_array. cbn. rewrite Hflat. reflexivity. }
  split; [cbn; apply to_int64_small; lia|].
  split; [cbn; apply to_int64_small; lia|].
  split; [reflexivity|].
  intros i s Hi. pose proof (lookup_lt_Some _ _ _ Hi) as Hlt.
  split.
  - unfold value.
    rewrite (offset_range_encoded h2 _ (prefix_sums 0 sizes) i
               (foldr Z.add 0 (take i sizes))
               (foldr Z.add 0 (take i sizes) + s)).
    + cbn [mbind result_bind fst snd p_flat_array].
      assert (Hb : forall o, 0 <= o < 256 ^ Z.of_nat (offset_width big) ->
                             o mod 2 ^ 64 = o)
        by (intros o Ho; apply (offset_width_range big o Ho)).
      destruct (sum_take_le sizes i s Hsizes Hi) as (H0 & _ & H1).
      pose proof (proj1 (Forall_lookup _ _) Hsizes _ _ Hi) as Hs. cbn in Hs.
      cbn [fst snd].
      rewrite (Hb (foldr Z.add 0 (take i sizes))) by lia.
      rewrite (Hb (foldr Z.add 0 (take i sizes) + s)) by lia.
      reflexivity.
    + exact Hc1.
    + reflexivity.
    + exact Hrange.
    + rewrite prefix_sums_lookup by lia. f_equal.
    + rewrite prefix_sums_lookup by lia. f_equal.
      destruct (sum_take_le sizes i s Hsizes Hi) as (_ & -> & _). lia.
  - unfold has_value. cbn.
    rewrite (MemoryFacts.contents_subseteq h1 h2 validity Hsub1 Hin0), Hc0.
    rewrite Z.add_0_r. reflexivity.
Qed.

(** The list array of the layout test, built with one null list. *)
Lemma list_array_build_witness :
  exists proxy h' a,
    list_create_proxy false Sample.flat_proxy (offset_from_sizes false [1; 2; 3; 4])
      (range_of_bools [true; false; true; true]) ∅ = Ok (proxy, h')
    /\ list_array_of_proxy factory_v01 false proxy = Ok a
    /\ value h' a 2 = Ok (mk_list_value (p_flat_array a) 3 6)
    /\ has_value h' a 1 = Ok false.
Proof.
  destruct (list_array_build factory_v01 false Sample.flat_proxy [1; 2; 3; 4]
              (range_of_bools [true; false; true; true])
              (Bitset.mk_bitset [253] 4 1) ∅)
    as (proxy & h' & a & Hcreate & Hopen & _ & _ & _ & Hread).
  - repeat constructor; lia.
  - reflexivity.
  - reflexivity.
  - eexists. reflexivity.
  - reflexivity.
  - simpl. lia.
  - exists proxy, h', a. split; [exact Hcreate|]. split; [exact Hopen|].
    split.
    + apply (proj1 (Hread 2%nat 3 eq_refl)).
    + apply (proj2 (Hread 1%nat 2 eq_refl)).
Defined.

(** *** What the parser lets through *)

Lemma append_assoc (s1 s2 s3 : string) :
  ((s1 ++ s2) ++ s3 = s1 ++ (s2 ++ s3))%string.
Proof.
  induction s1 as [|c s1 IH]; [reflexivity|].
  change (String c ((s1 ++ s2) ++ s3) = String c (s1 ++ (s2 ++ s3)))%string.
  f_equal. exact IH.
Qed.

Lemma to_digits_app (fuel : nat) (n : Z) (rest : string) :
  to_digits fuel n rest = (to_digits fuel n "" ++ rest)%string.
Proof.
  revert n rest. induction fuel as [|fuel IH]; intros n rest; [reflexivity|].
  cbn [to_digits]. destruct (n / 10 =? 0); [reflexivity|].
  rewrite (IH _ (String _ rest)), (IH _ (String _ "")).
  rewrite append_assoc. reflexivity.
Qed.

Lemma read_digits_stop (rest : string) (acc : option Z) :
  starts_with_digit rest = false -> read_digits rest acc = acc.
Proof.
  destruct rest as [|c rest]; [reflexivity|]. cbn. unfold is_digit.
  destruct (digit_of c); [discriminate|reflexivity].
Qed.

Lemma stoull_to_string_rest (n : Z) (rest : string) :
  0 <= n < 10 ^ 20 -> starts_with_digit rest = false ->
  stoull (to_string n ++ rest)
  = if n <? 2 ^ 64 then Ok n else Err out_of_range.
Proof.
  intros Hn Hrest. unfold stoull, to_string. rewrite <- to_digits_app.
  destruct (to_digits_head 20 n rest ltac:(lia) ltac:(lia)) as (d & tail & Hd & E).
  assert (Hskip : skip_sign (skip_spaces (to_digits 20 n rest))
                  = (false, to_digits 20 n rest)).
  { rewrite E. revert Hd. generalize tail. clear.
    intros tail Hd. apply (digit_char_cases d (fun c =>
      skip_sign (skip_spaces (String c tail)) = (false, String c tail)) Hd);
      reflexivity. }
  rewrite Hskip.
  destruct (read_digits_to_digits 20 n rest None) as (k & _ & Hread); [lia| |].
  { split; [lia|]. change (10 ^ Z.of_nat 20) with (10 ^ 20). lia. }
  rewrite Hread, read_digits_stop by exact Hrest.
  cbn [default]. rewrite Z.mul_0_r, Z.add_0_l. reflexivity.
Qed.

(** X10: what the parser of the list size lets through.  After the decimal
    digits of a number [n] below [2^64], anything that does not start with
    a digit is ignored: the list size is [n]; digits that make a number of
    [2^64] or more are [std::out_of_range]; and a format of fewer than
    three characters fails the assertion. *)
Theorem list_size_from_format_lenient (n : Z) (rest format : string) :
  (0 <= n < 2 ^ 64 -> starts_with_digit rest = false ->
   list_size_from_format ("+w:" ++ to_string n ++ rest) = Ok n)
  /\ (2 ^ 64 <= n < 10 ^ 20 -> starts_with_digit rest = false ->
      list_size_from_format ("+w:" ++ to_string n ++ rest) = Err out_of_range)
  /\ ((String.length format < 3)%nat ->
      list_size_from_format format = Err AssertionFailed).
Proof.
  split; [|split].
  - intros Hn Hrest. rewrite list_size_from_format_suffix.
    rewrite stoull_to_string_rest by (try exact Hrest; lia).
    destruct (Z.ltb_spec n (2 ^ 64)); [reflexivity|lia].
  - intros Hn Hrest. rewrite list_size_from_format_suffix.
    rewrite stoull_to_string_rest by (try exact Hrest; lia).
    destruct (Z.ltb_spec n (2 ^ 64)); [lia|reflexivity].
  - intros Hlen. unfold list_size_from_format.
    destruct (Nat.leb_spec 3 (String.length format)); [lia|reflexivity].
Qed.

Lemma list_size_from_format_lenient_witness :
  list_size_from_format ("+w:" ++ to_string 12 ++ " lists") = Ok 12
  /\ list_size_from_format ("+w:" ++ to_string 18446744073709551616 ++ "")
     = Err out_of_range
  /\ list_size_from_format "+w" = Err AssertionFailed.
Proof.
  destruct (list_size_from_format_lenient 12 " lists" "+w") as (Hok & _ & Hshort).
  destruct (list_size_from_format_lenient 18446744073709551616 "" "+w")
    as (_ & Hbig & _).
  split; [apply Hok; [lia|reflexivity]|].
  split; [apply Hbig; [lia|reflexivity]|].
  apply Hshort. simpl. lia.
Defined.

Lemma stoull_signed (n : Z) (negative : bool) :
  0 <= n < 2 ^ 64 ->
  stoull (String (if negative then "-" else "+")%char (to_string n))
  = Ok (if negative then (- n) mod 2 ^ 64 else n).
Proof.
  intros Hn. unfold stoull, to_string.
  assert (Hskip : skip_sign (skip_spaces
                    (String (if negative then "-" else "+")%char (to_digits 20 n "")))
                  = (negative, to_digits 20 n "")).
  { destruct negative; reflexivity. }
  rewrite Hskip.
  destruct (read_digits_to_digits 20 n "" None) as (k & _ & Hread); [lia| |].
  { split; [lia|]. change (10 ^ Z.of_nat 20) with (10 ^ 20). lia. }
  rewrite Hread. cbn [read_digits default]. rewrite Z.mul_0_r, Z.add_0_l.
  destruct (Z.ltb_spec n (2 ^ 64)); [reflexivity|lia].
Qed.

(** X11: signs and white space in the list size.  A plus sign before the
    digits is accepted; a minus sign is accepted too and negates in 64
    bits, so that ["+w:-1"] has list size [2^64 - 1]; and a white space
    character before the number is skipped. *)
Theorem list_size_from_format_signed (n : Z) (c : ascii) (s : string) :
  (0 <= n < 2 ^ 64 ->
   list_size_from_format ("+w:+" ++ to_string n) = Ok n
   /\ list_size_from_format ("+w:-" ++ to_string n) = Ok ((- n) mod 2 ^ 64))
  /\ (isspace c = true ->
      list_size_from_format ("+w:" ++ String c s)
      = list_size_from_format ("+w:" ++ s)).
Proof.
  split.
  - intros Hn. split.
    + change ("+w:+" ++ to_string n)%string
        with ("+w:" ++ String "+" (to_string n))%string.
      rewrite list_size_from_format_suffix. apply (stoull_signed n false Hn).
    + change ("+w:-" ++ to_string n)%string
        with ("+w:" ++ String "-" (to_string n))%string.
      rewrite list_size_from_format_suffix. apply (stoull_signed n true Hn).
  - intros Hc. rewrite !list_size_from_format_suffix.
    unfold stoull. cbn [skip_spaces]. rewrite Hc. reflexivity.
Qed.

Lemma list_size_from_format_signed_witness :
  list_size_from_format ("+w:-" ++ to_string 1) = Ok 18446744073709551615
  /\ list_size_from_format ("+w:" ++ String " " "3") = list_size_from_format "+w:3".
Proof.
  destruct (list_size_from_format_signed 1 " "%char "3") as [Hsign Hspace].
  split.
  - apply (proj2 (Hsign ltac:(lia))).
  - apply Hspace. reflexivity.
Defined.

(** X12: the offset of the proxy advances the offsets pointer by bytes.
    When the offset of the proxy is [m] times the width of an offset, the
    pointer skips [m] offsets: list [i] of the array is the range
    [offsets[i + m], offsets[i + m + 1]) of the offsets buffer. *)
Theorem list_array_offset_in_bytes {array_wrapper : Type}
    (array_factory : arrow_proxy -> option array_wrapper)
    (big : bool) (proxy : arrow_proxy) (a : list_array_impl) (h : store)
    (buffer : addr) (offsets : list Z) (m i : nat) (first second : Z) :
  list_array_of_proxy array_factory big proxy = Ok a ->
  Arrow.buffers proxy !! 1%nat = Some buffer ->
  contents h buffer = encode_all (offset_width big) offsets ->
  Arrow.offset proxy = Z.of_nat (m * offset_width big) ->
  Forall (fun o => 0 <= o < 256 ^ Z.of_nat (offset_width big)) offsets ->
  offsets !! (i + m)%nat = Some first ->
  offsets !! (i + m + 1)%nat = Some second ->
  value h a (Z.of_nat i) = Ok (mk_list_value (p_flat_array a) first second).
Proof.
  intros Hctor Hbuf Hcontents Hoffset Hrange Hfirst Hsecond.
  destruct (list_array_of_proxy_fields _ _ _ _ Hctor) as (Hbig & Hproxy & _ & Hptr).
  unfold make_list_offsets, OFFSET_BUFFER_INDEX in Hptr. rewrite Hbuf in Hptr.
  injection Hptr as Hptr.
  assert (Hm : (m <= List.length offsets)%nat)
    by (apply lookup_lt_Some in Hfirst; lia).
  assert (Hc : contents h (ptr_base (p_list_offsets a))
               = encode_all (offset_width big) (take m offsets)
                 ++ encode_all (offset_width big) (drop m offsets) ++ []).
  { rewrite <- Hptr. cbn [ptr_base]. rewrite Hcontents, app_nil_r.
    unfold encode_all. rewrite <- concat_app, <- map_app, take_drop. reflexivity. }
  assert (Hpre : Z.of_nat (List.length (encode_all (offset_width big) (take m offsets)))
                 = ptr_byte (p_list_offsets a)).
  { rewrite <- Hptr. cbn [ptr_byte].
    rewrite MemoryFacts.encode_all_length, length_take_le, Hoffset by exact Hm.
    reflexivity. }
  assert (Hdrop : Forall (fun o => 0 <= o < 256 ^ Z.of_nat (offset_width big))
                    (drop m offsets)) by (apply Forall_drop; exact Hrange).
  unfold value, offset_range. rewrite Hbig.
  rewrite (MemoryFacts.load_at_encoded h _ _ _ [] (drop m offsets) i first Hc Hpre).
  - replace (Z.of_nat i + 1) with (Z.of_nat (i + 1)) by lia.
    rewrite (MemoryFacts.load_at_encoded h _ _ _ [] (drop m offsets) (i + 1) second
               Hc Hpre).
    + cbn [mbind result_bind fst snd].
      rewrite (offset_width_range big first),
        (offset_width_range big second); [reflexivity| |].
      * exact (proj1 (Forall_lookup _ _) Hrange _ _ Hsecond).
      * exact (proj1 (Forall_lookup _ _) Hrange _ _ Hfirst).
    + rewrite lookup_drop. rewrite <- Hsecond. f_equal. lia.
    + exact (proj1 (Forall_lookup _ _) Hrange _ _ Hsecond).
  - rewrite lookup_drop. rewrite <- Hfirst. f_equal. lia.
  - exact (proj1 (Forall_lookup _ _) Hrange _ _ Hfirst).
Qed.

(** The list array of the layout test behind a proxy offset of 4 bytes,
    the width of one offset: list 0 is the range [1, 3). *)
Lemma list_array_offset_in_bytes_witness :
  value Sample.memory
    (mk_list_array false (Arrow.ArrowProxy "+l" 3 0 4 [10%nat; 11%nat] [Sample.flat_proxy])
       Sample.flat_array (mk_pointer 11%nat 4)) 0
  = Ok (mk_list_value Sample.flat_array 1 3).
Proof.
  apply (list_array_offset_in_bytes factory_v01 false
           (Arrow.ArrowProxy "+l" 3 0 4 [10%nat; 11%nat] [Sample.flat_proxy])
           (mk_list_array false
              (Arrow.ArrowProxy "+l" 3 0 4 [10%nat; 11%nat] [Sample.flat_proxy])
              Sample.flat_array (mk_pointer 11%nat 4))
           Sample.memory 11%nat Sample.offsets 1 0 1 3).
  - reflexivity.
  - reflexivity.
  - vm_compute. reflexivity.
  - reflexivity.
  - repeat constructor; cbn; lia.
  - reflexivity.
  - reflexivity.
Defined.

End ListArrayFacts.

(** ** The contiguous layout of fixed size types *)

Module FixedSizeLayoutFacts.
Import FixedSizeLayout.

Lemma size_type_of_small (x : Z) : 0 <= x < 2 ^ 64 -> size_type_of x = x.
Proof. intros H. unfold size_type_of. apply Z.mod_small. exact H. Qed.

Lemma position_small {T} (p_data : array_data T) (i : Z) :
  0 <= offset p_data -> 0 <= i -> i + offset p_data < 2 ^ 63 ->
  position p_data i = i + offset p_data.
Proof.
  intros Ho Hi Hlt. unfold position.
  rewrite (size_type_of_small (offset p_data)) by lia.
  apply size_type_of_small. lia.
Qed.

(** C10: over an [array_data] with [offset <= length] (both signed 64-bit),
    [size()] is [length - offset]; and, the offset being non-negative, for
    [i < size()] the element access reads position [i + offset] of buffer 0
    and bit [i + offset] of the bitmap. *)
Theorem fixed_size_layout_offset {T} (p_data : array_data T) :
  - 2 ^ 63 <= offset p_data -> offset p_data <= length p_data ->
  length p_data < 2 ^ 63 ->
  size p_data = Ok (length p_data - offset p_data)
  /\ forall (i : Z) (buffer : list T),
       0 <= offset p_data ->
       0 <= i < length p_data - offset p_data ->
       buffers p_data !! 0%nat = Some buffer ->
       length p_data <= Z.of_nat (List.length buffer) ->
       exists v,
         buffer !! Z.to_nat (i + offset p_data) = Some v
         /\ value p_data i = Ok v
         /\ (Bitset.wf (bitmap p_data) ->
             Bitset.size (bitmap p_data) = length p_data ->
             subscript p_data i
             = Ok (v, Bitset.bit_of (Bitset.m_buffer (bitmap p_data))
                                    (i + offset p_data))).
Proof.
  intros Hmin Hoff Hlen.
  assert (Hsize : size p_data = Ok (length p_data - offset p_data)).
  { unfold size. destruct (Z.leb_spec (offset p_data) (length p_data)); [|lia].
    rewrite size_type_of_small by lia. reflexivity. }
  split; [exact Hsize|].
  intros i buffer Hnonneg Hi Hbuf Hfit.
  assert (Hpos : position p_data i = i + offset p_data)
    by (apply position_small; lia).
  destruct (buffer !! Z.to_nat (i + offset p_data)) as [v|] eqn:Hv.
  2: { apply lookup_ge_None in Hv. lia. }
  assert (Hdata : data p_data = Ok buffer).
  { unfold data. destruct (buffers p_data); [discriminate|].
    cbn in Hbuf. congruence. }
  assert (Hvalue : value p_data i = Ok v).
  { unfold value. rewrite Hsize. cbn [mbind result_bind].
    destruct (Z.ltb_spec i (length p_data - offset p_data)); [|lia].
    rewrite Hdata. cbn [mbind result_bind]. rewrite Hpos, Hv. reflexivity. }
  exists v. split; [reflexivity|]. split; [exact Hvalue|].
  intros Hwf Hbsize.
  unfold subscript. rewrite Hsize. cbn [mbind result_bind].
  destruct (Z.ltb_spec i (length p_data - offset p_data)); [|lia].
  rewrite Hvalue. cbn [mbind result_bind].
  unfold has_value. rewrite Hsize. cbn [mbind result_bind].
  destruct (Z.ltb_spec i (length p_data - offset p_data)); [|lia].
  rewrite Hpos. unfold Bitset.test.
  destruct (Z.leb_spec 0 (i + offset p_data)); [|lia].
  destruct (Z.ltb_spec (i + offset p_data) (Bitset.size (bitmap p_data))); [|lia].
  cbn [andb]. unfold Bitset.bit_of, Bitset.block_at.
  destruct (Bitset.m_buffer (bitmap p_data) !! _) eqn:Hblock; [reflexivity|].
  apply lookup_ge_None in Hblock.
  pose proof (BitsetFacts.block_index_lt (i + offset p_data)
                (Bitset.m_size (bitmap p_data))
                ltac:(unfold Bitset.size in *; lia)).
  pose proof (BitsetFacts.block_index_nonneg (i + offset p_data) ltac:(lia)).
  destruct Hwf as [_ Hst _]. lia.
Qed.

(** A view of five 32-bit values sliced at offset 2: three elements, and
    element 1 is the value at buffer position 3. *)
Lemma fixed_size_layout_offset_witness :
  size (mk_array_data Z 5 2 (Bitset.make 5 true) [[10; 20; 30; 40; 50]]) = Ok 3
  /\ value (mk_array_data Z 5 2 (Bitset.make 5 true) [[10; 20; 30; 40; 50]]) 1
     = Ok 40.
Proof.
  destruct (fixed_size_layout_offset
              (mk_array_data Z 5 2 (Bitset.make 5 true) [[10; 20; 30; 40; 50]]))
    as [Hsize Hat]; [simpl; lia..|].
  split; [exact Hsize|].
  destruct (Hat 1 [10; 20; 30; 40; 50]) as (v & Hv & Hvalue & _);
    [simpl; lia|simpl; lia|reflexivity|simpl; lia|].
  injection Hv as <-. exact Hvalue.
Defined.

(** *** Bounds and iteration *)

Lemma size_Ok {T} (p_data : array_data T) :
  - 2 ^ 63 <= offset p_data -> offset p_data <= length p_data ->
  length p_data < 2 ^ 63 ->
  size p_data = Ok (length p_data - offset p_data).
Proof.
  intros Hmin Hoff Hlen. unfold size.
  destruct (Z.leb_spec (offset p_data) (length p_data)); [|lia].
  rewrite size_type_of_small by lia. reflexivity.
Qed.

Lemma value_Ok {T} (p_data : array_data T) (buffer : list T) (i : Z) (v : T) :
  0 <= offset p_data -> offset p_data <= length p_data ->
  length p_data < 2 ^ 63 ->
  0 <= i < length p_data - offset p_data ->
  buffers p_data !! 0%nat = Some buffer ->
  buffer !! Z.to_nat (i + offset p_data) = Some v ->
  value p_data i = Ok v.
Proof.
  intros Ho Hoff Hlen Hi Hbuf Hv. unfold value.
  rewrite size_Ok by lia. cbn [mbind result_bind].
  destruct (Z.ltb_spec i (length p_data - offset p_data)); [|lia].
  unfold data. destruct (buffers p_data) as [|b rest]; [discriminate|].
  cbn in Hbuf. injection Hbuf as ->. cbn [mbind result_bind].
  rewrite position_small, Hv by lia. reflexivity.
Qed.

Lemma has_value_Ok {T} (p_data : array_data T) (i : Z) :
  0 <= offset p_data -> offset p_data <= length p_data ->
  length p_data < 2 ^ 63 ->
  0 <= i < length p_data - offset p_data ->
  Bitset.wf (bitmap p_data) -> Bitset.size (bitmap p_data) = length p_data ->
  has_value p_data i
  = Ok (Bitset.bit_of (Bitset.m_buffer (bitmap p_data)) (i + offset p_data)).
Proof.
  intros Ho Hoff Hlen Hi Hwf Hbsize. unfold has_value.
  rewrite size_Ok by lia. cbn [mbind result_bind].
  destruct (Z.ltb_spec i (length p_data - offset p_data)); [|lia].
  rewrite position_small by lia. unfold Bitset.test.
  destruct (Z.leb_spec 0 (i + offset p_data)); [|lia].
  destruct (Z.ltb_spec (i + offset p_data) (Bitset.size (bitmap p_data))); [|lia].
  cbn [andb]. unfold Bitset.bit_of, Bitset.block_at.
  destruct (Bitset.m_buffer (bitmap p_data) !! _) eqn:Hblock; [reflexivity|].
  apply lookup_ge_None in Hblock.
  pose proof (BitsetFacts.block_index_lt (i + offset p_data)
                (Bitset.m_size (bitmap p_data))
                ltac:(unfold Bitset.size in *; lia)).
  pose proof (BitsetFacts.block_index_nonneg (i + offset p_data) ltac:(lia)).
  destruct Hwf as [_ Hst _]. lia.
Qed.

(** X13: the assertions of the layout.  With [offset > length], [size()],
    and with it every element access, fails its assertion; with
    [offset <= length], an index at or beyond [size()] fails the assertion
    of [value], [has_value] and [operator[]]. *)
Theorem fixed_size_layout_assertions {T} (p_data : array_data T) (i : Z) :
  (length p_data < offset p_data ->
   size p_data = Err AssertionFailed
   /\ value p_data i = Err AssertionFailed
   /\ has_value p_data i = Err AssertionFailed
   /\ subscript p_data i = Err AssertionFailed
   /\ bitmap_range p_data = Err AssertionFailed)
  /\ (- 2 ^ 63 <= offset p_data -> offset p_data <= length p_data ->
      length p_data < 2 ^ 63 -> length p_data - offset p_data <= i ->
      value p_data i = Err AssertionFailed
      /\ has_value p_data i = Err AssertionFailed
      /\ subscript p_data i = Err AssertionFailed).
Proof.
  split.
  - intros Hlt.
    assert (Hsize : size p_data = Err AssertionFailed).
    { unfold size. destruct (Z.leb_spec (offset p_data) (length p_data)); [lia|].
      reflexivity. }
    unfold value, has_value, subscript, bitmap_range. rewrite Hsize.
    repeat split.
  - intros Hmin Hoff Hlen Hi.
    unfold value, has_value, subscript. rewrite size_Ok by lia.
    cbn [mbind result_bind].
    destruct (Z.ltb_spec i (length p_data - offset p_data)); [lia|].
    repeat split.
Qed.

Lemma fixed_size_layout_assertions_witness :
  size (mk_array_data Z 2 3 (Bitset.make 2 true) [[10; 20]]) = Err AssertionFailed
  /\ value (mk_array_data Z 5 2 (Bitset.make 5 true) [[10; 20; 30; 40; 50]]) 3
     = Err AssertionFailed.
Proof.
  split.
  - apply (proj1 (fixed_size_layout_assertions
                    (mk_array_data Z 2 3 (Bitset.make 2 true) [[10; 20]]) 0)).
    simpl. lia.
  - apply (proj2 (fixed_size_layout_assertions
                    (mk_array_data Z 5 2 (Bitset.make 5 true)
                       [[10; 20; 30; 40; 50]]) 3)); simpl; lia.
Defined.

(** X14: iterating is indexing.  Over a layout that its constructor accepts
    (a buffer 0, a bitmap of [length] bits), with [0 <= offset <= length]
    and buffer 0 holding [length] elements, [values()] and [bitmap()] run
    over [size()] elements each, and their elements at [i] are the value
    and the validity bit that [operator[](i)] gives. *)
Theorem fixed_size_layout_ranges {T} (data_ p_data : array_data T)
    (buffer : list T) :
  fixed_size_layout data_ = Ok p_data ->
  0 <= offset p_data -> offset p_data <= length p_data ->
  length p_data < 2 ^ 63 ->
  Bitset.wf (bitmap p_data) ->
  buffers p_data !! 0%nat = Some buffer ->
  length p_data <= Z.of_nat (List.length buffer) ->
  exists (vs : list T) (bs : list bool),
    values p_data = Ok vs
    /\ bitmap_range p_data = Ok bs
    /\ Z.of_nat (List.length vs) = length p_data - offset p_data
    /\ Z.of_nat (List.length bs) = length p_data - offset p_data
    /\ forall i : nat,
         Z.of_nat i < length p_data - offset p_data ->
         exists v bit,
           vs !! i = Some v /\ bs !! i = Some bit
           /\ subscript p_data (Z.of_nat i) = Ok (v, bit).
Proof.
  intros Hctor Ho Hoff Hlen Hwf Hbuf Hfit.
  assert (Hbsize : Bitset.size (bitmap p_data) = length p_data).
  { unfold fixed_size_layout in Hctor.
    destruct (0 <? Z.of_nat (List.length (buffers data_))); [|discriminate].
    destruct (Z.eqb_spec (size_type_of (length data_)) (Bitset.size (bitmap data_)))
      as [E|]; [|discriminate].
    cbn in Hctor. injection Hctor as <-.
    rewrite size_type_of_small in E by (destruct Hwf; unfold Bitset.size in *; lia).
    congruence. }
  set (n := length p_data - offset p_data).
  assert (Hvalues : values p_data
                    = Ok (take (Z.to_nat n) (drop (Z.to_nat (offset p_data)) buffer))).
  { unfold values, data. destruct (buffers p_data) as [|b rest]; [discriminate|].
    cbn in Hbuf. injection Hbuf as ->. cbn [mbind result_bind].
    rewrite size_Ok by lia. cbn [mbind result_bind]. fold n.
    destruct (Z.leb_spec 0 (offset p_data)); [|lia].
    destruct (Z.leb_spec (offset p_data + n) (Z.of_nat (List.length buffer)));
      [reflexivity|lia]. }
  assert (Hrange : bitmap_range p_data
                   = Ok (take (Z.to_nat n)
                           (drop (Z.to_nat (offset p_data))
                                 (Bitset.bits (bitmap p_data))))).
  { unfold bitmap_range. rewrite size_Ok by lia. cbn [mbind result_bind]. fold n.
    destruct (Z.leb_spec 0 (offset p_data)); [|lia].
    destruct (Z.leb_spec (offset p_data + n) (Bitset.size (bitmap p_data)));
      [reflexivity|lia]. }
  eexists _, _. split; [exact Hvalues|]. split; [exact Hrange|].
  split; [rewrite length_take, length_drop; lia|].
  split; [rewrite length_take, length_drop, BitsetFacts.bits_length; lia|].
  intros i Hi.
  destruct (buffer !! Z.to_nat (Z.of_nat i + offset p_data)) as [v|] eqn:Hv.
  2: { apply lookup_ge_None in Hv. lia. }
  exists v, (Bitset.bit_of (Bitset.m_buffer (bitmap p_data))
                           (Z.of_nat i + offset p_data)).
  split; [|split].
  - rewrite lookup_take_lt, lookup_drop by lia. rewrite <- Hv. f_equal. lia.
  - rewrite lookup_take_lt, lookup_drop by lia.
    rewrite BitsetFacts.bits_lookup by lia. f_equal. f_equal. lia.
  - unfold subscript. rewrite size_Ok by lia. cbn [mbind result_bind].
    destruct (Z.ltb_spec (Z.of_nat i) (length p_data - offset p_data)); [|lia].
    rewrite (value_Ok p_data buffer (Z.of_nat i) v) by (try assumption; lia).
    cbn [mbind result_bind].
    rewrite has_value_Ok by (try assumption; lia). reflexivity.
Qed.

Lemma fixed_size_layout_ranges_witness :
  exists (vs : list Z) (bs : list bool),
    values (mk_array_data Z 5 2 (Bitset.make 5 true) [[10; 20; 30; 40; 50]]) = Ok vs
    /\ bitmap_range (mk_array_data Z 5 2 (Bitset.make 5 true) [[10; 20; 30; 40; 50]])
       = Ok bs
    /\ Z.of_nat (List.length vs) = 3 /\ Z.of_nat (List.length bs) = 3.
Proof.
  destruct (fixed_size_layout_ranges
              (mk_array_data Z 5 2 (Bitset.make 5 true) [[10; 20; 30; 40; 50]])
              (mk_array_data Z 5 2 (Bitset.make 5 true) [[10; 20; 30; 40; 50]])
              [10; 20; 30; 40; 50])
    as (vs & bs & Hvs & Hbs & Hlv & Hlb & _).
  - reflexivity.
  - simpl. lia.
  - simpl. lia.
  - simpl. lia.
  - apply BitsetFacts.make_wf. lia.
  - reflexivity.
  - simpl. lia.
  - exists vs, bs. repeat split; assumption.
Defined.

End FixedSizeLayoutFacts.

(** ** Type lists *)

Module MplFacts.
Import Mpl.

Section Typelist.

Context {type : Type} {type_eq_dec : EqDecision type}.

Implicit Types (list : @typelist type) (predicate : @typelist type -> bool).

Lemma find_if_fold_spec list predicate (idx : nat) :
  exists k : nat,
    (find_if_fold list predicate idx).2 = (idx + k)%nat
    /\ (k <= size list)%nat
    /\ (forall (j : nat) (T : type),
          (j < k)%nat -> list !! j = Some T -> predicate [T] = false)
    /\ (find_if_fold list predicate idx).1 = bool_decide (k < size list)%nat
    /\ ((k < size list)%nat ->
        exists T, list !! k = Some T /\ predicate [T] = true).
Proof.
  revert idx. induction list as [|T list IH]; intros idx.
  - exists 0%nat. cbn. split; [lia|]. split; [lia|]. split; [intros; lia|].
    split; [reflexivity|]. intros; lia.
  - cbn [find_if_fold check]. destruct (predicate [T]) eqn:HT.
    + exists 0%nat. cbn. split; [lia|]. split; [lia|]. split; [intros; lia|].
      split; [reflexivity|].
      intros _. exists T. split; [reflexivity|exact HT].
    + cbn. destruct (IH (S idx)) as (k & Hk & Hle & Hbefore & Hflag & Hat).
      exists (S k). unfold size in *. cbn [List.length].
      split; [rewrite Hk; lia|]. split; [lia|]. split; [|split].
      * intros j T' Hj Hlook. destruct j as [|j].
        -- cbn in Hlook. injection Hlook as <-. exact HT.
        -- cbn in Hlook. apply (Hbefore j T'); [lia|exact Hlook].
      * rewrite Hflag. apply bool_decide_ext. lia.
      * intros Hlt. apply Hat. lia.
Qed.

Lemma any_of_Exists list predicate :
  any_of list predicate = true <-> Exists (fun T => predicate [T] = true) list.
Proof.
  induction list as [|T list IH]; cbn.
  - split; [discriminate|]. intros H. inversion H.
  - rewrite orb_true_iff, IH, Exists_cons. reflexivity.
Qed.

Lemma all_of_Forall list predicate :
  all_of list predicate = true <-> Forall (fun T => predicate [T] = true) list.
Proof.
  induction list as [|T list IH]; cbn.
  - split; [constructor|reflexivity].
  - rewrite andb_true_iff, IH, Forall_cons. reflexivity.
Qed.

Lemma find_if_position list predicate :
  (find_if list predicate <= size list)%nat
  /\ ((find_if list predicate < size list)%nat <-> any_of list predicate = true)
  /\ (forall (j : nat) (T : type),
        (j < find_if list predicate)%nat -> list !! j = Some T ->
        predicate [T] = false)
  /\ ((find_if list predicate < size list)%nat ->
      exists T, list !! find_if list predicate = Some T /\ predicate [T] = true).
Proof.
  unfold find_if.
  destruct (find_if_fold_spec list predicate 0) as (k & Hk & Hle & Hbefore & _ & Hat).
  rewrite Hk, Nat.add_0_l.
  split; [exact Hle|]. split; [|split; [exact Hbefore|exact Hat]].
  rewrite any_of_Exists, Exists_exists. split.
  - intros Hlt. destruct (Hat Hlt) as (T & Hlook & HT).
    exists T. split; [|exact HT]. eapply list_elem_of_lookup_2. exact Hlook.
  - intros (T & Hin & HT). apply list_elem_of_lookup_1 in Hin as [j Hj].
    destruct (decide (k < size list)%nat) as [|Hge]; [assumption|].
    rewrite (Hbefore j T) in HT; [discriminate| |exact Hj].
    apply lookup_lt_Some in Hj. unfold size in *. lia.
Qed.

(** X15: [find_if] returns the position of the first type of the list that
    the predicate accepts, and the size of the list when it accepts none:
    the result is at most the size, it is below the size exactly when
    [any_of] holds, no type before it is accepted, and the type at it is. *)
Theorem find_if_first_match list predicate :
  (find_if list predicate <= size list)%nat
  /\ ((find_if list predicate < size list)%nat <-> any_of list predicate = true)
  /\ (forall (j : nat) (T : type),
        (j < find_if list predicate)%nat -> list !! j = Some T ->
        predicate [T] = false)
  /\ ((find_if list predicate < size list)%nat ->
      exists T, list !! find_if list predicate = Some T /\ predicate [T] = true).
Proof. exact (find_if_position list predicate). Qed.

(** X16: [all_of] and [any_of] are dual, [all_of] holding exactly when
    [any_of] finds no type that the predicate rejects; on the empty list
    [any_of] is false and [all_of] is true, whatever the predicate. *)
Theorem all_of_any_of_dual list predicate :
  all_of list predicate = negb (any_of list (fun l => negb (predicate l)))
  /\ any_of [] predicate = false
  /\ all_of [] predicate = true.
Proof.
  split; [|split; reflexivity].
  induction list as [|T list IH]; [reflexivity|].
  cbn. unfold all_of, any_of in IH. rewrite IH.
  destruct (predicate [T]); reflexivity.
Qed.

(** X17: [contains<V>] holds exactly when [V] is a type of the list, which is
    exactly when [find<V>] is below the size of the list; [find<V>] is then
    the position of the first [V], and it is the size of the list when [V]
    is not in it. *)
Theorem find_contains (V : type) list :
  (contains V list = true <-> V ∈ list)
  /\ (contains V list = true <-> (find V list < size list)%nat)
  /\ (contains V list = true ->
      list !! find V list = Some V
      /\ forall j : nat, (j < find V list)%nat -> list !! j <> Some V)
  /\ (contains V list = false -> find V list = size list).
Proof.
  destruct (find_if_position list (same_as V)) as (Hle & Hiff & Hbefore & Hat).
  fold (find V list) in *. fold (contains V list) in *.
  assert (Hsame : forall T, same_as V [T] = true <-> T = V).
  { intros T. unfold same_as. rewrite bool_decide_eq_true. split; congruence. }
  split; [|split; [|split]].
  - unfold contains. rewrite any_of_Exists, Exists_exists. split.
    + intros (T & Hin & HT). apply Hsame in HT. subst. exact Hin.
    + intros Hin. exists V. split; [exact Hin|]. apply Hsame. reflexivity.
  - symmetry. exact Hiff.
  - intros Hc. apply Hiff in Hc. destruct (Hat Hc) as (T & Hlook & HT).
    apply Hsame in HT. subst T. split; [exact Hlook|].
    intros j Hj Hlook'. specialize (Hbefore j V Hj Hlook').
    assert (Htrue : same_as V [V] = true) by (apply Hsame; reflexivity).
    congruence.
  - intros Hc. destruct (decide (find V list < size list)%nat) as [Hlt|Hge]; [|lia].
    apply Hiff in Hlt. congruence.
Qed.

End Typelist.

(** Among the types 1, 2 and 3, the first type equal to 2 is at position 1. *)
Lemma find_if_first_match_witness :
  (find_if [1; 2; 3; 2]%nat (same_as 2%nat) < size [1; 2; 3; 2]%nat)%nat
  /\ exists T, [1; 2; 3; 2]%nat !! find_if [1; 2; 3; 2]%nat (same_as 2%nat) = Some T
               /\ same_as 2%nat [T] = true.
Proof.
  destruct (find_if_first_match [1; 2; 3; 2]%nat (same_as 2%nat))
    as (_ & Hiff & _ & Hat).
  assert (Hlt : (find_if [1; 2; 3; 2]%nat (same_as 2%nat) < size [1; 2; 3; 2]%nat)%nat)
    by (apply Hiff; reflexivity).
  split; [exact Hlt|]. apply Hat. exact Hlt.
Defined.

Lemma find_contains_witness :
  [1; 2; 3; 2]%nat !! find 3%nat [1; 2; 3; 2]%nat = Some 3%nat
  /\ find 7%nat [1; 2; 3; 2]%nat = size [1; 2; 3; 2]%nat.
Proof.
  split.
  - apply (proj1 (proj2 (proj2 (find_contains 3%nat [1; 2; 3; 2]%nat)))).
    reflexivity.
  - apply (proj2 (proj2 (proj2 (find_contains 7%nat [1; 2; 3; 2]%nat)))).
    reflexivity.
Defined.

End MplFacts.

(** ** The list-view layouts *)

Module ListViewFacts.
Import Memory ListArray Factory ListView.

Lemma load_at_whole (h : store) (p : pointer) (width : nat) (xs : list Z)
    (i : nat) (x : Z) :
  contents h (ptr_base p) = encode_all width xs -> ptr_byte p = 0 ->
  Forall (fun o => 0 <= o < 256 ^ Z.of_nat width) xs ->
  xs !! i = Some x ->
  load_at h p width (Z.of_nat i) = Some x.
Proof.
  intros Hc Hbyte Hrange Hi.
  apply (MemoryFacts.load_at_encoded h p width [] [] xs i x).
  - rewrite app_nil_r. exact Hc.
  - rewrite Hbyte. reflexivity.
  - exact Hi.
  - exact (proj1 (Forall_lookup _ _) Hrange _ _ Hi).
Qed.

(** X18: building and reading back a list-view array.  [create_proxy]
    asserts that there are as many offsets as sizes.  The proxy it builds
    is opened by the constructor, and list [i] of the array is the range
    from [offsets[i]] to [offsets[i] + sizes[i]], the sum in the offset
    type, whatever the order or the overlap of the ranges; with the
    offsets of [sizes], less the last, these are the ranges of the list
    array: list [i] starts at the sum of the sizes before it. *)
Theorem list_view_build {array_wrapper : Type}
    (array_factory : arrow_proxy -> option array_wrapper)
    (big : bool) (flat_values : arrow_proxy) (list_offsets list_sizes : list Z)
    (input : validity_input) (vbitmap : Bitset.validity_bitmap) (h : store) :
  (List.length list_offsets <> List.length list_sizes ->
   create_proxy big flat_values list_offsets list_sizes input h
   = Err CreateAssertionFailed)
  /\ (List.length list_offsets = List.length list_sizes ->
      Forall (fun o => 0 <= o < 256 ^ Z.of_nat (offset_width big)) list_offsets ->
      Forall (fun s => 0 <= s < 256 ^ Z.of_nat (offset_width big)) list_sizes ->
      Z.of_nat (List.length list_sizes) < 2 ^ 63 ->
      is_Some (array_factory flat_values) ->
      ensure_validity (Z.of_nat (List.length list_sizes)) input = Ok vbitmap ->
      0 <= Bitset.null_count vbitmap < 2 ^ 63 ->
      exists proxy h' a,
        create_proxy big flat_values list_offsets list_sizes input h = Ok (proxy, h')
        /\ list_view_array_of_proxy array_factory big proxy = Ok a
        /\ size a = Z.of_nat (List.length list_sizes)
        /\ Arrow.null_count proxy = Bitset.null_count vbitmap
        /\ (forall (i : nat) (o s : Z),
              list_offsets !! i = Some o -> list_sizes !! i = Some s ->
              value h' a (Z.of_nat i)
              = Ok (mk_list_value (p_flat_array a) o
                      ((o + s) mod 256 ^ Z.of_nat (offset_width big))))
        /\ (list_offsets
            = take (List.length list_sizes) (offset_from_sizes big list_sizes) ->
            foldr Z.add 0 list_sizes < 256 ^ Z.of_nat (offset_width big) ->
            forall (i : nat) (s : Z),
              list_sizes !! i = Some s ->
              value h' a (Z.of_nat i)
              = Ok (mk_list_value (p_flat_array a)
                      (foldr Z.add 0 (take i list_sizes))
                      (foldr Z.add 0 (take i list_sizes) + s)))).
Proof.
  split.
  - intros Hne. unfold create_proxy.
    destruct (Nat.eqb_spec (List.length list_offsets) (List.length list_sizes));
      [contradiction|reflexivity].
  - intros Hlen Hoffsets Hsizes Hn [flat Hflat] Hvalid Hnull.
    unfold create_proxy. rewrite Hlen, Nat.eqb_refl, Hvalid.
    cbn [mbind result_bind].
    destruct (allocate h (Bitset.m_buffer vbitmap)) as [validity h1] eqn:Ha0.
    destruct (allocate h1 (encode_all (offset_width big) list_offsets))
      as [offsets h2] eqn:Ha1.
    destruct (allocate h2 (encode_all (offset_width big) list_sizes))
      as [sizes h3] eqn:Ha2.
    destruct (MemoryFacts.allocate_spec _ _ _ _ Ha1) as (_ & Hin1 & _ & Hc1).
    destruct (MemoryFacts.allocate_spec _ _ _ _ Ha2) as (_ & _ & Hsub2 & Hc2).
    set (proxy := Arrow.ArrowProxy (if big then "+vL" else "+vl")%string
                    (to_int64 (Z.of_nat (List.length list_sizes)))
                    (to_int64 (Bitset.null_count vbitmap)) 0
                    [validity; offsets; sizes] [flat_values]).
    set (a := mk_list_view_array big proxy flat (mk_pointer offsets 0)
                (mk_pointer sizes 0)).
    assert (Hvalue : forall (i : nat) (o s : Z),
               list_offsets !! i = Some o -> list_sizes !! i = Some s ->
               value h3 a (Z.of_nat i)
               = Ok (mk_list_value (p_flat_array a) o
                       ((o + s) mod 256 ^ Z.of_nat (offset_width big)))).
    { intros i o s Ho Hs. unfold value, offset_range. cbn [a p_list_offsets p_list_sizes BIG].
      rewrite (load_at_whole h3 (mk_pointer offsets 0) _ list_offsets i o);
        [|cbn; rewrite (MemoryFacts.contents_subseteq h2 h3 offsets Hsub2 Hin1);
          exact Hc1|reflexivity|exact Hoffsets|exact Ho].
      rewrite (load_at_whole h3 (mk_pointer sizes 0) _ list_sizes i s);
        [|exact Hc2|reflexivity|exact Hsizes|exact Hs].
      cbn [mbind result_bind fst snd p_flat_array].
      pose proof (proj1 (Forall_lookup _ _) Hoffsets _ _ Ho) as Hor. cbn in Hor.
      rewrite (ListArrayFacts.offset_width_range big o Hor).
      rewrite (ListArrayFacts.offset_width_range big
                 ((o + s) mod 256 ^ Z.of_nat (offset_width big))).
      - reflexivity.
      - apply Z.mod_pos_bound. destruct big; cbn; lia. }
    exists proxy, h3, a.
    split; [reflexivity|]. split.
    { unfold list_view_array_of_proxy, make_flat_array. cbn. rewrite Hflat.
      reflexivity. }
    split; [cbn; apply ListArrayFacts.to_int64_small; lia|].
    split; [cbn; apply ListArrayFacts.to_int64_small; lia|].
    split; [exact Hvalue|].
    intros Hprefix Hfits i s Hs.
    destruct (ListArrayFacts.sum_take_le list_sizes i s) as (H0 & _ & H1);
      [eapply Forall_impl; [exact Hsizes|]; cbn; intros; lia|exact Hs|].
    pose proof (lookup_lt_Some _ _ _ Hs) as Hlt.
    rewrite (Hvalue i (foldr Z.add 0 (take i list_sizes)) s).
    + rewrite Z.mod_small; [reflexivity|].
      pose proof (proj1 (Forall_lookup _ _) Hsizes _ _ Hs) as Hsr. cbn in Hsr. lia.
    + rewrite Hprefix, lookup_take_lt by lia.
      rewrite (ListArrayFacts.offset_from_sizes_fits big list_sizes)
        by first [exact Hfits | eapply Forall_impl; [exact Hsizes|]; cbn; intros; lia].
      rewrite ListArrayFacts.prefix_sums_lookup by lia. f_equal.
    + exact Hs.
Qed.

(** Two overlapping lists, the second before the first, over the flat
    values of the layout test. *)
Lemma list_view_build_witness :
  exists proxy h' a,
    create_proxy false Sample.flat_proxy [4; 0] [3; 6] (moved_bitmap Bitset.empty) ∅
    = Ok (proxy, h')
    /\ list_view_array_of_proxy factory_v01 false proxy = Ok a
    /\ value h' a 1 = Ok (mk_list_value (p_flat_array a) 0 6)
    /\ create_proxy false Sample.flat_proxy [4; 0] [3] (moved_bitmap Bitset.empty) ∅
       = Err CreateAssertionFailed.
Proof.
  destruct (list_view_build factory_v01 false Sample.flat_proxy [4; 0] [3; 6]
              (moved_bitmap Bitset.empty)
              (Bitset.ensure_validity_bitmap_rvalue 2 Bitset.empty) ∅)
    as [_ Hbuild].
  destruct Hbuild as (proxy & h' & a & Hcreate & Hopen & _ & _ & Hread & _).
  - reflexivity.
  - repeat constructor; cbn; lia.
  - repeat constructor; cbn; lia.
  - simpl. lia.
  - eexists. reflexivity.
  - reflexivity.
  - split; [vm_compute; discriminate|vm_compute; reflexivity].
  - exists proxy, h', a. split; [exact Hcreate|]. split; [exact Hopen|].
    split; [apply (Hread 1%nat 0 6); reflexivity|].
    apply (proj1 (list_view_build factory_v01 false Sample.flat_proxy [4; 0] [3]
                    (moved_bitmap Bitset.empty) Bitset.empty ∅)).
    simpl. lia.
Defined.

(** *** Copies of a list-view array *)

Lemma make_pointer_base (proxy : arrow_proxy) (k : nat) (a : addr) :
  Arrow.buffers proxy !! k = Some a -> a ∈ Arrow.proxy_addrs proxy.
Proof.
  destruct proxy as [f n c o buffers children]. cbn. intros Hk.
  apply elem_of_app. left. eapply list_elem_of_lookup_2. exact Hk.
Qed.

(** X19: the copy of a list-view array makes both raw pointers, the offsets
    and the sizes, from the proxy of the copy, which shares no buffer with
    the original; the copy has the ranges of the original, and whatever is
    then written into buffers of the copy, the ranges of the original stay
    what they were. *)
Theorem copy_list_view_independent {array_wrapper : Type}
    (array_factory : arrow_proxy -> option array_wrapper)
    (big : bool) (proxy : arrow_proxy) (a b : list_view_array_impl)
    (h h' : store) :
  list_view_array_of_proxy array_factory big proxy = Ok a ->
  Forall (fun x => x ∈ dom h) (Arrow.proxy_addrs proxy) ->
  copy_list_view_array array_factory a h = Ok (b, h') ->
  Arrow.buffers (m_proxy b) !! 1%nat = Some (ptr_base (p_list_offsets b))
  /\ Arrow.buffers (m_proxy b) !! 2%nat = Some (ptr_base (p_list_sizes b))
  /\ ptr_base (p_list_offsets b) <> ptr_base (p_list_offsets a)
  /\ ptr_base (p_list_sizes b) <> ptr_base (p_list_sizes a)
  /\ Forall (fun x => x ∉ Arrow.proxy_addrs (m_proxy a))
            (Arrow.proxy_addrs (m_proxy b))
  /\ (forall i, offset_range h' b i = offset_range h a i)
  /\ forall writes : list (addr * nat * Z),
       Forall (fun w => w.1.1 ∈ Arrow.proxy_addrs (m_proxy b)) writes ->
       forall i, value (store_bytes writes h') a i = value h a i.
Proof.
  intros Hctor Hlive Hcopy.
  unfold list_view_array_of_proxy in Hctor.
  destruct (make_flat_array array_factory proxy) as [flat|]; [|discriminate].
  destruct (make_list_offsets proxy) as [po|] eqn:Hpo; [|discriminate].
  destruct (make_list_sizes proxy) as [ps|] eqn:Hps; [|discriminate].
  cbn in Hctor. injection Hctor as <-.
  unfold copy_list_view_array in Hcopy. cbn [m_proxy BIG] in Hcopy.
  destruct (copy_proxy proxy h) as [proxy' h1] eqn:Hcp.
  destruct (make_flat_array array_factory proxy') as [flat'|]; [|discriminate].
  destruct (make_list_offsets proxy') as [po'|] eqn:Hpo'; [|discriminate].
  destruct (make_list_sizes proxy') as [ps'|] eqn:Hps'; [|discriminate].
  cbn in Hcopy. injection Hcopy as <- <-.
  cbn [m_proxy p_list_offsets p_list_sizes BIG].
  destruct (MemoryFacts.copy_proxy_spec _ _ _ _ Hcp)
    as (Hsub & Hfresh & _ & _ & Hoffset & Hbuffers & _ & Hsnap).
  specialize (Hsnap Hlive).
  pose proof (ListArrayFacts.fresh_not_live _ _ _ _ Hfresh Hlive) as Hdisjoint.
  unfold make_list_offsets, OFFSET_BUFFER_INDEX in Hpo, Hpo'.
  unfold make_list_sizes, SIZES_BUFFER_INDEX in Hps, Hps'.
  destruct (Arrow.buffers proxy !! 1%nat) as [o|] eqn:Ho; [|discriminate].
  destruct (Arrow.buffers proxy !! 2%nat) as [s|] eqn:Hs; [|discriminate].
  destruct (Arrow.buffers proxy' !! 1%nat) as [o'|] eqn:Ho'; [|discriminate].
  destruct (Arrow.buffers proxy' !! 2%nat) as [s'|] eqn:Hs'; [|discriminate].
  injection Hpo as <-. injection Hps as <-.
  injection Hpo' as <-. injection Hps' as <-. cbn [ptr_base ptr_byte].
  pose proof (make_pointer_base _ _ _ Ho) as Hino.
  pose proof (make_pointer_base _ _ _ Hs) as Hins.
  pose proof (make_pointer_base _ _ _ Ho') as Hino'.
  pose proof (make_pointer_base _ _ _ Hs') as Hins'.
  split; [reflexivity|]. split; [reflexivity|].
  split.
  { intros E. apply (proj1 (Forall_forall _ _) Hdisjoint _ Hino'). rewrite E.
    exact Hino. }
  split.
  { intros E. apply (proj1 (Forall_forall _ _) Hdisjoint _ Hins'). rewrite E.
    exact Hins. }
  split; [exact Hdisjoint|]. split.
  - intros i. unfold offset_range, load_at.
    cbn [p_list_offsets p_list_sizes BIG ptr_base ptr_byte]. rewrite Hoffset.
    rewrite (MemoryFacts.load_le_agree h h1 o o')
      by (eapply MemoryFacts.snapshot_buffer; eauto).
    rewrite (MemoryFacts.load_le_agree h h1 s s')
      by (eapply MemoryFacts.snapshot_buffer; eauto).
    reflexivity.
  - intros writes Hwrites i.
    assert (Hagree : forall x, x ∈ Arrow.proxy_addrs proxy ->
                               store_bytes writes h1 !! x = h !! x).
    { intros x Hx. rewrite MemoryFacts.store_bytes_other.
      - pose proof (proj1 (Forall_forall _ _) Hlive x Hx) as Hdom.
        apply elem_of_dom in Hdom as [bytes Hbytes]. rewrite Hbytes.
        apply (lookup_weaken _ _ _ _ Hbytes Hsub).
      - eapply Forall_impl; [exact Hwrites|]. cbn. intros w Hw E.
        apply (proj1 (Forall_forall _ _) Hdisjoint _ Hw). rewrite E. exact Hx. }
    unfold value, offset_range, load_at.
    cbn [p_list_offsets p_list_sizes BIG ptr_base ptr_byte].
    rewrite (MemoryFacts.load_le_agree h (store_bytes writes h1) o o)
      by (apply MemoryFacts.contents_agree, Hagree, Hino).
    rewrite (MemoryFacts.load_le_agree h (store_bytes writes h1) s s)
      by (apply MemoryFacts.contents_agree, Hagree, Hins).
    reflexivity.
Qed.

Lemma copy_list_view_independent_witness :
  exists b h',
    copy_list_view_array factory_v01 sample_array sample_memory = Ok (b, h')
    /\ ptr_base (p_list_sizes b) <> ptr_base (p_list_sizes sample_array)
    /\ forall i,
         value (store_bytes [(ptr_base (p_list_sizes b), 0%nat, 1)] h') sample_array i
         = value sample_memory sample_array i.
Proof.
  destruct (copy_list_view_array factory_v01 sample_array sample_memory)
    as [[b h']|e] eqn:E.
  2: { exfalso. vm_compute in E. discriminate. }
  exists b, h'. split; [reflexivity|].
  destruct (copy_list_view_independent factory_v01 false sample_proxy
              sample_array b sample_memory h')
    as (_ & Hsizes & _ & Hne & _ & _ & Hframe).
  - reflexivity.
  - repeat constructor; apply elem_of_dom; eexists; vm_compute; reflexivity.
  - exact E.
  - split; [exact Hne|]. intros i.
    apply (Hframe [(ptr_base (p_list_sizes b), 0%nat, 1)]).
    constructor; [|constructor]. cbn.
    eapply make_pointer_base. exact Hsizes.
Defined.

End ListViewFacts.

(** ** The null array *)

Module NullArrayFacts.
Import ListArray NullArray.

(** X20: a null array made from a length has that length as size and as
    null count, no buffer and no child, iterators [size()] apart, and a
    proxy that the proxy constructor accepts; two null arrays are equal
    exactly when their sizes are, whatever their names and metadata; and
    [operator[]] fails its assertion exactly from [size()] on. *)
Theorem null_array_of_length_size (length : Z) (name_ metadata_ : option string) :
  0 <= length < 2 ^ 63 ->
  size (null_array_of_length length name_ metadata_) = length
  /\ Arrow.null_count (descriptors (m_proxy (null_array_of_length length name_ metadata_)))
     = length
  /\ Arrow.buffers (descriptors (m_proxy (null_array_of_length length name_ metadata_)))
     = []
  /\ Arrow.children (descriptors (m_proxy (null_array_of_length length name_ metadata_)))
     = []
  /\ end_ (null_array_of_length length name_ metadata_)
     - begin_ (null_array_of_length length name_ metadata_) = length
  /\ null_array_of_proxy (create_proxy length name_ metadata_)
     = Ok (null_array_of_length length name_ metadata_)
  /\ (forall name' metadata',
        eq_null_array (null_array_of_length length name_ metadata_)
                      (null_array_of_length length name' metadata') = true)
  /\ (forall a b : null_array, eq_null_array a b = true <-> size a = size b)
  /\ (forall i : Z,
        subscript (null_array_of_length length name_ metadata_) i
        = if i <? length then Ok null else Err AssertionFailed).
Proof.
  intros Hlen.
  assert (Hsize : forall n m, size (null_array_of_length length n m) = length).
  { intros n m. unfold size. cbn. rewrite ListArrayFacts.to_int64_small by lia.
    apply Z.mod_small. lia. }
  split; [apply Hsize|].
  split; [cbn; apply ListArrayFacts.to_int64_small; lia|].
  split; [reflexivity|]. split; [reflexivity|].
  split.
  { unfold end_, begin_, ssize. rewrite Hsize.
    rewrite ListArrayFacts.to_int64_small by lia. lia. }
  split; [reflexivity|].
  split; [intros n m; unfold eq_null_array; rewrite !Hsize; apply Z.eqb_refl|].
  split; [intros a b; unfold eq_null_array; apply Z.eqb_eq|].
  intros i. unfold subscript. rewrite Hsize. reflexivity.
Qed.

Lemma null_array_of_length_size_witness :
  size (null_array_of_length 7 (Some "nulls"%string) None) = 7
  /\ subscript (null_array_of_length 7 (Some "nulls"%string) None) 7
     = Err AssertionFailed.
Proof.
  destruct (null_array_of_length_size 7 (Some "nulls"%string) None)
    as (Hsize & _ & _ & _ & _ & _ & _ & _ & Hat); [lia|].
  split; [exact Hsize|]. rewrite Hat. reflexivity.
Defined.

End NullArrayFacts.

(** ** Proxies of [create_proxy] and the factory *)

Module CreateFacts.
Import Memory ListArray.

(** X21: which layouts the factory of the sources opens again.  The proxy
    that [list_array_impl<BIG>::create_proxy] builds over flat values that
    the factory serves is dispatched to [list_array], or to
    [big_list_array] when [BIG], over the handle of the flat values and
    the new offsets buffer; over flat values that the factory refuses, it
    is refused in the same way.  The proxy of [null_array::create_proxy] is
    dispatched to [null_array]; the proxies that the list-view and the
    fixed-size list [create_proxy] build are refused with
    [UnsupportedFormat], and so is a list over them. *)
Theorem created_proxies_dispatch (big : bool) (flat_values : arrow_proxy)
    (list_offsets list_sizes : list Z) (list_size length : Z)
    (name metadata : option string) (input : validity_input)
    (h h' : store) (proxy : arrow_proxy) :
  (list_create_proxy big flat_values list_offsets input h = Ok (proxy, h') ->
   (forall flat,
       Factory.array_factory flat_values = Ok flat ->
       exists offsets,
         Arrow.buffers proxy !! 1%nat = Some offsets
         /\ Factory.array_factory proxy
            = Ok ((if big then Factory.big_list_array else Factory.list_array)
                    (mk_list_array big proxy flat (mk_pointer offsets 0))))
   /\ (forall e,
         Factory.array_factory flat_values = Err e ->
         Factory.array_factory proxy = Err e))
  /\ (ListView.create_proxy big flat_values list_offsets list_sizes input h
      = Ok (proxy, h') ->
      Factory.array_factory proxy = Err Factory.UnsupportedFormat
      /\ forall (outer : arrow_proxy) (rest : list arrow_proxy),
           Arrow.format outer = (if big then "+L" else "+l")%string ->
           Arrow.children outer = proxy :: rest ->
           Factory.array_factory outer = Err Factory.UnsupportedFormat)
  /\ (fixed_sized_create_proxy list_size flat_values input h = Ok (proxy, h') ->
      Factory.array_factory proxy = Err Factory.UnsupportedFormat)
  /\ Factory.array_factory
       (NullArray.descriptors (NullArray.create_proxy length name metadata))
     = Ok (Factory.null_array
             (NullArray.descriptors (NullArray.create_proxy length name metadata))).
Proof.
  split; [|split; [|split; [|reflexivity]]].
  - unfold list_create_proxy.
    destruct (ensure_validity _ input) as [vbitmap|]; [|discriminate].
    cbn [mbind result_bind].
    destruct (allocate h _) as [validity h1].
    destruct (allocate h1 _) as [offsets h2].
    intros [= <- <-]. split.
    + intros flat Hflat. exists offsets. split; [reflexivity|].
      rewrite (FactoryFacts.array_factory_list _ big)
        by (destruct big; reflexivity).
      cbn [Arrow.children]. rewrite Hflat. destruct big; reflexivity.
    + intros e He.
      rewrite (FactoryFacts.array_factory_list _ big)
        by (destruct big; reflexivity).
      cbn [Arrow.children]. rewrite He. reflexivity.
  - unfold ListView.create_proxy.
    destruct (_ =? _)%nat; [|discriminate].
    destruct (ensure_validity _ input) as [vbitmap|]; [|discriminate].
    cbn [mbind result_bind].
    destruct (allocate h _) as [validity h1].
    destruct (allocate h1 _) as [offsets h2].
    destruct (allocate h2 _) as [sizes h3].
    intros [= <- <-].
    match goal with |- ?refused /\ _ => assert (Hrefused : refused) end.
    { destruct big; reflexivity. }
    split; [exact Hrefused|]. intros outer rest Hformat Hchildren.
    rewrite (FactoryFacts.array_factory_list outer big)
      by (destruct big; exact Hformat).
    rewrite Hchildren, Hrefused. reflexivity.
  - unfold fixed_sized_create_proxy.
    destruct (_ =? 0); [discriminate|].
    destruct (ensure_validity _ input) as [vbitmap|]; [|discriminate].
    cbn [mbind result_bind].
    destruct (allocate h _) as [validity h1].
    intros [= <- <-]. reflexivity.
Qed.

(** A big list over the flat values of the layout test. *)
Lemma created_proxies_dispatch_witness :
  exists proxy h' offsets,
    list_create_proxy true Sample.flat_proxy [0; 2] (moved_bitmap Bitset.empty) ∅
    = Ok (proxy, h')
    /\ Factory.array_factory proxy
       = Ok (Factory.big_list_array
               (mk_list_array true proxy Sample.flat_array (mk_pointer offsets 0))).
Proof.
  destruct (list_create_proxy true Sample.flat_proxy [0; 2]
              (moved_bitmap Bitset.empty) ∅) as [[proxy h']|e] eqn:E.
  2: { exfalso. vm_compute in E. discriminate. }
  destruct (proj1 (proj1 (created_proxies_dispatch true Sample.flat_proxy [0; 2] [] 0 0
                            None None (moved_bitmap Bitset.empty) ∅ h' proxy) E)
              Sample.flat_array) as (offsets & _ & Hopen); [reflexivity|].
  exists proxy, h', offsets. split; [reflexivity|exact Hopen].
Defined.

End CreateFacts.

(** ** The schema descriptor *)

Module SchemaFacts.
Import Schema.

Lemma check_children_Ok (children : list (option addr)) (i count : nat) :
  check_children children i count = Ok tt
  <-> forall j : nat, (i <= j < i + count)%nat ->
                      exists c, children !! j = Some (Some c).
Proof.
  revert i. induction count as [|count IH]; intros i.
  - cbn. split; [intros _ j Hj; lia|reflexivity].
  - cbn [check_children].
    destruct (children !! i) as [[c|]|] eqn:Hi.
    + rewrite IH. split.
      * intros H j Hj. destruct (decide (j = i)) as [->|]; [eauto|].
        apply H. lia.
      * intros H j Hj. apply H. lia.
    + split; [discriminate|]. intros H.
      destruct (H i ltac:(lia)) as [c Hc]. congruence.
    + split; [discriminate|]. intros H.
      destruct (H i ltac:(lia)) as [c Hc]. congruence.
Qed.

(** X22: the life of a schema.  [make_arrow_schema_unique_ptr] refuses an
    empty format and a null child below [n_children]; the schema it makes
    has the format, flags 0 when none are given, and [release_arrow_schema]
    as release callback.  Releasing it resets it to [ArrowSchema{}], whose
    release callback is null, so that releasing it once more fails the
    assertion, as does releasing a null pointer. *)
Theorem schema_release_once (format_ : string) (name_ metadata_ : option string)
    (flags_ : option Z) (n_children_ : Z)
    (children_ : option (list (option addr))) (dictionary_ : option addr) :
  make_arrow_schema_unique_ptr "" name_ metadata_ flags_ n_children_ children_
    dictionary_ = Err AssertionFailed
  /\ (forall (l : list (option addr)) (j : nat),
        format_ <> ""%string -> children_ = Some l ->
        (j < Z.to_nat n_children_)%nat -> l !! j = Some None ->
        ~ is_Ok (make_arrow_schema_unique_ptr format_ name_ metadata_ flags_
                   n_children_ children_ dictionary_))
  /\ (forall s : ArrowSchema,
        make_arrow_schema_unique_ptr format_ name_ metadata_ flags_ n_children_
          children_ dictionary_ = Ok s ->
        format s = Some format_ /\ format_ <> ""%string
        /\ flags s = default 0 flags_
        /\ release s = Some release_arrow_schema_callback
        /\ release_arrow_schema (Some s) = Ok default_arrow_schema
        /\ release_arrow_schema (Some default_arrow_schema) = Err AssertionFailed)
  /\ release_arrow_schema None = Err AssertionFailed.
Proof.
  split; [reflexivity|]. split; [|split; [|reflexivity]].
  - intros l j Hformat -> Hj Hnull. unfold make_arrow_schema_unique_ptr.
    destruct (String.eqb_spec format_ ""); [contradiction|].
    destruct (check_children l 0 (Z.to_nat n_children_)) as [[]|e] eqn:Hcheck;
      [|cbn; tauto].
    pose proof (proj1 (check_children_Ok l 0 (Z.to_nat n_children_)) Hcheck) as Hall.
    destruct (Hall j ltac:(lia)) as [c Hc]. congruence.
  - intros s. unfold make_arrow_schema_unique_ptr.
    destruct (String.eqb_spec format_ "") as [|Hne]; [discriminate|].
    destruct (match children_ with
              | Some l => check_children l 0 (Z.to_nat n_children_)
              | None => Ok tt
              end) as [[]|e]; [|discriminate].
    cbn [mbind result_bind]. intros [= <-]. cbn. repeat split. exact Hne.
Qed.

Lemma schema_release_once_witness :
  exists s,
    make_arrow_schema_unique_ptr "+l" None None None 1 (Some [Some 5%nat]) None = Ok s
    /\ release_arrow_schema (Some s) = Ok default_arrow_schema
    /\ ~ is_Ok (make_arrow_schema_unique_ptr "+l" None None None 1 (Some [None]) None).
Proof.
  destruct (schema_release_once "+l" None None None 1 (Some [Some 5%nat]) None)
    as (_ & _ & Hmade & _).
  destruct (schema_release_once "+l" None None None 1 (Some [None]) None)
    as (_ & Hnull & _).
  eexists. split; [reflexivity|]. split.
  - apply (Hmade _ eq_refl).
  - apply (Hnull [None] 0%nat); [discriminate|reflexivity|simpl; lia|reflexivity].
Defined.

End SchemaFacts.
